(** * ApiReportGenerator: the API report of api-extractor

    A shallow embedding of [ApiReportGenerator.ts]: the whitespace-insensitive
    comparison of two reports, the release-level filter, the span rewrite
    pass and the assembly of the report text. *)

From Stdlib Require Import String Ascii DecimalString.
From Stdlib Require Import ZArith NArith Bool Lia List Permutation Sorted.
Import ListNotations.

Local Open Scope Z_scope.

(** ** JavaScript strings

    A JavaScript string is a sequence of UTF-16 code units. *)

Definition char := N.
Definition jstring := list char.

Definition str (s : string) : jstring :=
  List.map N_of_ascii (list_ascii_of_string s).

Arguments str s%_string.

Definition char_eqb (a b : char) : bool := N.eqb a b.

(** [a === b] on strings. *)
Fixpoint jstring_eqb (a b : jstring) : bool :=
  match a, b with
  | [], [] => true
  | x :: a', y :: b' => char_eqb x y && jstring_eqb a' b'
  | _, _ => false
  end.

(** [a < b] on strings: code units compared left to right. *)
Fixpoint jstring_ltb (a b : jstring) : bool :=
  match a, b with
  | _, [] => false
  | [], _ :: _ => true
  | x :: a', y :: b' => N.ltb x y || (N.eqb x y && jstring_ltb a' b')
  end.

(** [s.substring(a, b)]: the two indices are swapped when [a > b] and both
    are clamped to the length. *)
Definition substring (s : jstring) (a b : nat) : jstring :=
  let lo := Nat.min a b in
  let hi := Nat.max a b in
  firstn (hi - lo) (skipn lo s).

(** [parts.join(sep)]. *)
Fixpoint join (sep : jstring) (parts : list jstring) : jstring :=
  match parts with
  | [] => []
  | [p] => p
  | p :: rest => p ++ sep ++ join sep rest
  end.

(** [s.split('\n')] (a one-character separator): the pieces between the
    separators, the empty string giving one empty piece. *)
Fixpoint split_on (sep : char) (s : jstring) : list jstring :=
  match s with
  | [] => [[]]
  | c :: r =>
      if char_eqb c sep then [] :: split_on sep r
      else match split_on sep r with
           | [] => [[c]]
           | p :: ps => (c :: p) :: ps
           end
  end.

(** The decimal digits of an integer. *)
Definition Z_to_jstring (n : Z) : jstring :=
  str (NilZero.string_of_int (Z.to_int n)).

(** ** Numbers

    A number of the language is an IEEE 754 binary64 value.  [Finite m e]
    is the number of value [m * 2^e], [Finite 0 e] being [+0]; it is a
    number when that value is one of binary64 ([isNumber]).  An integer
    stands for the number of its value. *)
Inductive JsNumber : Type :=
  | NaN
  | Infinity (negative : bool)
  | NegativeZero
  | Finite (m e : Z).

Definition Number_ofZ (z : Z) : JsNumber := Finite z 0.
Coercion Number_ofZ : Z >-> JsNumber.

(** The exponent and the mantissa of [a * 2^e], [a > 0], in binary64: the
    mantissa has 53 bits, or fewer at the least exponent. *)
Definition binary64_exponent (a e : Z) : Z := Z.max (-1074) (e + Z.log2 a - 52).

Definition binary64_mantissa (a e : Z) : Z :=
  let E := binary64_exponent a e in
  if E <=? e then a * 2 ^ (e - E) else a / 2 ^ (E - e).

Definition isBinary64 (a e : Z) : bool :=
  let E := binary64_exponent a e in
  (E <=? 971) && ((E <=? e) || (a mod 2 ^ (E - e) =? 0)).

Definition isNumber (x : JsNumber) : bool :=
  match x with
  | Finite m e => (m =? 0) || isBinary64 (Z.abs m) e
  | _ => true
  end.

(** [x === y] on numbers, which is also the comparison of a [switch]:
    [NaN] equals nothing and the two zeros are equal. *)
Definition Number_eqb (x y : JsNumber) : bool :=
  match x, y with
  | NaN, _ | _, NaN => false
  | Infinity a, Infinity b => Bool.eqb a b
  | Infinity _, _ | _, Infinity _ => false
  | NegativeZero, NegativeZero => true
  | NegativeZero, Finite m _ | Finite m _, NegativeZero => m =? 0
  | Finite m1 e1, Finite m2 e2 =>
      let e := Z.min e1 e2 in
      m1 * 2 ^ (e1 - e) =? m2 * 2 ^ (e2 - e)
  end.

(** *** [Number::toString]

    The text of a number in a template literal: the digits [s], their
    count [k] and the decimal exponent [n] are those of the shortest
    decimal [s * 10^(n - k)] that reads back as the number, the nearest to
    it when there are several; from [1e21] on and below [1e-6] the text is
    in exponent form. *)

(** [n] with [10^(n - 1) <= M * 2^E < 10^n]. *)
Definition decimalExponent (M E : Z) : Z :=
  let scaled := M * 2 ^ Z.max E 0 * 10 ^ 400 / 2 ^ Z.max (- E) 0 in
  Z.of_nat (List.length (Z_to_jstring scaled)) - 400.

(** [value], in units of [2^tm * 10^fm], rounds to [M * 2^E]: it lies
    between the midpoints to the two neighbours, the midpoints counting when
    the mantissa is even. *)
Definition roundsTo (M E : Z) (tm fm : Z) (value : Z) : bool :=
  let unit := 2 ^ (E - 2 - tm) * 10 ^ (- fm) in
  let below := if (M =? 2 ^ 52) && (-1074 <? E) then 1 else 2 in
  let lo := (4 * M - below) * unit in
  let hi := (4 * M + 2) * unit in
  if Z.even M then (lo <=? value) && (value <=? hi)
  else (lo <? value) && (value <? hi).

(** Of two candidates [(s, n, value)] the nearer to [X], the even one
    when they are as near. *)
Definition closer (X : Z) (a b : Z * Z * Z) : Z * Z * Z :=
  let '(sa, na, va) := a in
  let '(sb, nb, vb) := b in
  let da := Z.abs (va - X) in
  let db := Z.abs (vb - X) in
  if da <? db then a
  else if db <? da then b
  else if Z.even sa then a else b.

(** The decimals of [k] digits next to [M * 2^E] that round to it. *)
Definition candidates (M E n0 k : Z) : list (Z * Z * Z) :=
  let tm := Z.min (E - 2) 0 in
  let fm := Z.min (n0 - 17) 0 in
  let X := 4 * M * (2 ^ (E - 2 - tm) * 10 ^ (- fm)) in
  flat_map
    (fun n =>
       let unit := 2 ^ (- tm) * 10 ^ (n - k - fm) in
       let s0 := X / unit in
       filter
         (fun c : Z * Z * Z =>
            let '(s, _, v) := c in
            (10 ^ (k - 1) <=? s) && (s <? 10 ^ k) && roundsTo M E tm fm v)
         [(s0, n, s0 * unit); (s0 + 1, n, (s0 + 1) * unit)])
    [n0; n0 + 1].

Definition best (M E n0 k : Z) : option (Z * Z) :=
  let tm := Z.min (E - 2) 0 in
  let fm := Z.min (n0 - 17) 0 in
  let X := 4 * M * (2 ^ (E - 2 - tm) * 10 ^ (- fm)) in
  match candidates M E n0 k with
  | [] => None
  | c :: cs => let '(s, n, _) := fold_left (closer X) cs c in Some (s, n)
  end.

(** The least count of digits that has a candidate; seventeen always do. *)
Fixpoint shortest (fuel : nat) (M E n0 k : Z) : Z * Z * Z :=
  match fuel with
  | O => (M, k, n0)
  | S fuel' =>
      match best M E n0 k with
      | Some (s, n) => (s, k, n)
      | None => shortest fuel' M E n0 (k + 1)
      end
  end.

Definition zeros (n : Z) : jstring := repeat 48%N (Z.to_nat n).

Definition formatDigits (s k n : Z) : jstring :=
  let digits := Z_to_jstring s in
  if (k <=? n) && (n <=? 21) then digits ++ zeros (n - k)
  else if (0 <? n) && (n <=? 21) then
    firstn (Z.to_nat n) digits ++ str "." ++ skipn (Z.to_nat n) digits
  else if (-6 <? n) && (n <=? 0) then str "0." ++ zeros (- n) ++ digits
  else
    let exponent :=
      (if n - 1 <? 0 then str "-" else str "+") ++ Z_to_jstring (Z.abs (n - 1)) in
    if k =? 1 then digits ++ str "e" ++ exponent
    else firstn 1 digits ++ str "." ++ skipn 1 digits ++ str "e" ++ exponent.

(** [`${x}`] for a number. *)
Definition Number_toString (x : JsNumber) : jstring :=
  match x with
  | NaN => str "NaN"
  | Infinity negative => if negative then str "-Infinity" else str "Infinity"
  | NegativeZero => str "0"
  | Finite m e =>
      if m =? 0 then str "0"
      else
        let M := binary64_mantissa (Z.abs m) e in
        let E := binary64_exponent (Z.abs m) e in
        let '(s, k, n) := shortest 17 M E (decimalExponent M E) 1 in
        (if m <? 0 then str "-" else []) ++ formatDigits s k n
  end.

(** *** Character classes of the regular expressions *)

Definition LF : char := 10%N.
Definition CR : char := 13%N.
Definition SP : char := 32%N.
Definition TAB : char := 9%N.
Definition QUOTE : char := 34%N.

(** LineTerminator: what [$] looks at under the [m] flag. *)
Definition isLineTerminator (c : char) : bool :=
  N.eqb c 10 || N.eqb c 13 || N.eqb c 8232 || N.eqb c 8233.

(** The class [\s]: WhiteSpace and LineTerminator of ECMAScript. *)
Definition isWhiteSpace (c : char) : bool :=
  N.eqb c 9 || N.eqb c 11 || N.eqb c 12 || N.eqb c 32 || N.eqb c 160
  || N.eqb c 5760 || (N.leb 8192 c && N.leb c 8202)
  || N.eqb c 8239 || N.eqb c 8287 || N.eqb c 12288 || N.eqb c 65279
  || isLineTerminator c.

(** *** [String.prototype.replace] with a global regular expression

    [m s] is the length of the match of the expression tried at the head of
    [s], if it matches there.  The scan goes left to right; after a match
    it resumes behind the match, otherwise one character is copied.  Both
    expressions of this file match at least one character, so nothing is
    tried at the end of the input. *)
Fixpoint replace_from (m : jstring -> option nat) (rep : jstring)
    (skip : nat) (s : jstring) : jstring :=
  match s with
  | [] => []
  | c :: r =>
      match skip with
      | S k => replace_from m rep k r
      | O =>
          match m s with
          | Some (S k) => rep ++ replace_from m rep k r
          | _ => c :: replace_from m rep 0%nat r
          end
      end
  end.

Definition replace_all (m : jstring -> option nat) (rep s : jstring) : jstring :=
  replace_from m rep 0%nat s.

(** [/[\s]+/]: greedy, one or more characters of the class. *)
Fixpoint match_whitespace_run (s : jstring) : option nat :=
  match s with
  | c :: r =>
      if isWhiteSpace c then
        match match_whitespace_run r with
        | Some n => Some (S n)
        | None => Some 1%nat
        end
      else None
  | [] => None
  end.

(** [$] under the [m] flag: the end of the input or just before a line
    terminator. *)
Definition at_end_of_line (s : jstring) : bool :=
  match s with
  | [] => true
  | c :: _ => isLineTerminator c
  end.

(** [/ +$/m] tried at the head of [s]: the quantifier is greedy, so the
    longer match is tried first and the shorter one on backtracking. *)
Fixpoint match_trailing_spaces (s : jstring) : option nat :=
  match s with
  | c :: r =>
      if N.eqb c 32 then
        match match_trailing_spaces r with
        | Some n => Some (S n)
        | None => if at_end_of_line r then Some 1%nat else None
        end
      else None
  | [] => None
  end.

(** ** ApiReportGenerator.areEquivalentApiFileContents *)

Definition normalizeWhitespace (content : jstring) : jstring :=
  replace_all match_whitespace_run (str " ") content.

Definition areEquivalentApiFileContents
    (actualFileContent expectedFileContent : jstring) : bool :=
  let normalizedActual := normalizeWhitespace actualFileContent in
  let normalizedExpected := normalizeWhitespace expectedFileContent in
  jstring_eqb normalizedActual normalizedExpected.

(** The comparison as the specification words it: the text is cut into its
    maximal runs of whitespace and of other characters, and every run of
    whitespace becomes one space. *)
Fixpoint maximal_runs (s : jstring) : list (bool * jstring) :=
  match s with
  | [] => []
  | c :: r =>
      match maximal_runs r with
      | (w, run) :: rest =>
          if Bool.eqb w (isWhiteSpace c) then (w, c :: run) :: rest
          else (isWhiteSpace c, [c]) :: (w, run) :: rest
      | [] => [(isWhiteSpace c, [c])]
      end
  end.

Definition collapse_run (r : bool * jstring) : jstring :=
  if fst r then [SP] else snd r.

Definition collapse_whitespace_spec (s : jstring) : jstring :=
  concat (List.map collapse_run (maximal_runs s)).

(** [\r\n] turned into [\n], to compare the two line-ending conventions. *)
Fixpoint crlf_to_lf (s : jstring) : jstring :=
  match s with
  | [] => []
  | c :: r =>
      match r with
      | d :: _ => if N.eqb c 13 && N.eqb d 10 then crlf_to_lf r else c :: crlf_to_lf r
      | [] => [c]
      end
  end.

(** ** ApiReportGenerator._trimSpacesRegExp *)

Definition trimSpaces (s : jstring) : jstring :=
  replace_all match_trailing_spaces [] s.


(** ** Syntax nodes of the compiler

    [ts.SyntaxKind]: the kinds the generator tells apart, any other kind
    under its number. *)
Inductive SyntaxKind : Type :=
  | JSDocComment | ExportKeyword | DefaultKeyword | DeclareKeyword
  | InterfaceKeyword | ClassKeyword | EnumKeyword | NamespaceKeyword
  | ModuleKeyword | TypeKeyword | FunctionKeyword
  | SyntaxList | VariableDeclaration | VariableDeclarationList
  | Identifier | TypeLiteral | ImportType | ModuleBlock | SourceFile
  | OtherKind (code : Z).

Definition SyntaxKind_eq_dec (a b : SyntaxKind) : {a = b} + {a <> b}.
Proof. decide equality. apply Z.eq_dec. Defined.

Definition SyntaxKind_eqb (a b : SyntaxKind) : bool :=
  if SyntaxKind_eq_dec a b then true else false.

(** [ts.Node]: its kind, [getStart()], [end] and [getChildren()]. *)
#[warnings="-register-all"]
Inductive Node : Type :=
  | mkNode (kind : SyntaxKind) (start : nat) (end_ : nat) (children : list Node).

Definition node_kind (n : Node) : SyntaxKind := let (k, _, _, _) := n in k.
Definition getStart (n : Node) : nat := let (_, s, _, _) := n in s.
Definition getEnd (n : Node) : nat := let (_, _, e, _) := n in e.
Definition getChildren (n : Node) : list Node := let (_, _, _, c) := n in c.

(** [node.getText()] in a source file of text [text]. *)
Definition getText (text : jstring) (n : Node) : jstring :=
  substring text (getStart n) (getEnd n).

(** ** The collector's data, read by the generator *)

Record TsDocComment : Type := {
  deprecatedBlock : bool
}.

Record ApiItemMetadata : Type := {
  effectiveReleaseTag : Z;
  releaseTagSameAsParent : bool;
  isSealed : bool;
  isVirtual : bool;
  isOverride : bool;
  isEventProperty : bool;
  isPreapproved : bool;
  tsdocComment : option TsDocComment;
  undocumented : bool
}.

Record ExtractorMessage : Type := {
  properties_exportName : option jstring;
  formatMessageWithoutLocation : jstring;
  formatMessageWithLocation : jstring -> jstring
}.

Record AstDeclaration : Type := {
  modifierFlags : Z;
  astSymbol_localName : jstring;
  declaration : Node
}.

Record AstNamespaceImport : Type := {
  namespace_localName : jstring;
  namespace_declaration : Node
}.

(** Modelled from the spec: the entities the generator tells apart with
    [instanceof]; analyzer/AstEntity.ts, AstSymbol.ts and AstImport.ts are
    missing.  An import keeps the path of its module and the name it is
    exported under. *)
Inductive AstEntity : Type :=
  | AstSymbol (localName : jstring) (astDeclarations : list AstDeclaration)
  | AstImport (modulePath : jstring) (exportName : jstring)
  | AstNamespaceImport_ (ns : AstNamespaceImport).

(** Modelled from the spec: [astEntity.localName]; the local name of an
    import is its export name. *)
Definition entity_localName (e : AstEntity) : jstring :=
  match e with
  | AstSymbol n _ => n
  | AstImport _ exportName => exportName
  | AstNamespaceImport_ ns => namespace_localName ns
  end.

Record AstModuleExportInfo : Type := {
  starExportedExternalModules : list jstring;
  exportedLocalEntities : list (jstring * AstEntity)
}.

Record CollectorEntity : Type := {
  astEntity : AstEntity;
  consumable : bool;
  exportNames : list jstring;
  shouldInlineExport : bool;
  nameForEmit : option jstring
}.

(** ** Exceptions *)

Inductive exn : Type :=
  | InternalError (message : jstring)
  | Error (message : jstring).

Inductive result (A : Type) : Type :=
  | Ok (a : A)
  | Throw (e : exn).
Arguments Ok {A} a.
Arguments Throw {A} e.

(** [Collector], over the state [R] of its message router.  The look-ups
    are the collector's methods; [getChildAstDeclarationByNode] is the one
    of [collector.astSymbolTable] and may throw. *)
Record Collector (R : Type) : Type := {
  workingPackage_name : jstring;
  workingPackage_packageFolder : jstring;
  workingPackage_tsdocComment : option TsDocComment;
  dtsTypeReferenceDirectives : list jstring;
  dtsLibReferenceDirectives : list jstring;
  entities : list CollectorEntity;
  apiReportIncludeForgottenExports : bool;
  sourceFileText : Node -> jstring;
  fetchApiItemMetadata : AstDeclaration -> ApiItemMetadata;
  isAncillaryDeclaration : AstDeclaration -> bool;
  tryGetEntityForNode : Node -> option CollectorEntity;
  tryGetCollectorEntity : AstEntity -> option CollectorEntity;
  getChildAstDeclarationByNode : Node -> AstDeclaration -> result AstDeclaration;
  fetchAstModuleExportInfo : AstNamespaceImport -> AstModuleExportInfo;
  fetchAssociatedMessagesForReviewFile : AstDeclaration -> R -> list ExtractorMessage * R;
  fetchUnassociatedMessagesForReviewFile : R -> list ExtractorMessage * R;
  addAnalyzerIssue_Undocumented : jstring -> AstDeclaration -> R -> R
}.
Arguments workingPackage_name {R} _.
Arguments workingPackage_packageFolder {R} _.
Arguments workingPackage_tsdocComment {R} _.
Arguments dtsTypeReferenceDirectives {R} _.
Arguments dtsLibReferenceDirectives {R} _.
Arguments entities {R} _.
Arguments apiReportIncludeForgottenExports {R} _.
Arguments sourceFileText {R} _ _.
Arguments fetchApiItemMetadata {R} _ _.
Arguments isAncillaryDeclaration {R} _ _.
Arguments tryGetEntityForNode {R} _ _.
Arguments tryGetCollectorEntity {R} _ _.
Arguments getChildAstDeclarationByNode {R} _ _ _.
Arguments fetchAstModuleExportInfo {R} _ _.
Arguments fetchAssociatedMessagesForReviewFile {R} _ _ _.
Arguments fetchUnassociatedMessagesForReviewFile {R} _ _.
Arguments addAnalyzerIssue_Undocumented {R} _ _ _ _.

(** ** Release tags and release levels *)

(** Modelled from the spec: the [ReleaseTag] enum of api-extractor-model,
    which is not among the sources.  Its tags are numbers in increasing
    order of maturity (alpha < beta < public), [None] standing for a
    declaration without a tag and coming first. *)
Class ReleaseTagEnum : Type := {
  ReleaseTag_None : Z;
  ReleaseTag_Alpha : Z;
  ReleaseTag_Beta : Z;
  ReleaseTag_Public : Z;
  ReleaseTag_getTagName : Z -> jstring;
  ReleaseTag_order :
    ReleaseTag_None < ReleaseTag_Alpha
    /\ ReleaseTag_Alpha < ReleaseTag_Beta
    /\ ReleaseTag_Beta < ReleaseTag_Public
}.

Module ApiReportReleaseLevel.
Definition Untrimmed : Z := 0.
Definition Alpha : Z := 1.
Definition Beta : Z := 2.
Definition Public : Z := 3.
End ApiReportReleaseLevel.

(** The release levels the enum declares. *)
Definition isReleaseLevel (releaseLevel : Z) : bool :=
  (releaseLevel =? ApiReportReleaseLevel.Untrimmed)
  || (releaseLevel =? ApiReportReleaseLevel.Alpha)
  || (releaseLevel =? ApiReportReleaseLevel.Beta)
  || (releaseLevel =? ApiReportReleaseLevel.Public).

(** The numbers that are release levels of the enum. *)
Definition isReleaseLevelNumber (releaseLevel : JsNumber) : bool :=
  Number_eqb releaseLevel ApiReportReleaseLevel.Untrimmed
  || Number_eqb releaseLevel ApiReportReleaseLevel.Alpha
  || Number_eqb releaseLevel ApiReportReleaseLevel.Beta
  || Number_eqb releaseLevel ApiReportReleaseLevel.Public.

(** The operands of [&] are taken as 32-bit signed integers. *)
Definition ToInt32 (x : Z) : Z :=
  (x + 2147483648) mod 4294967296 - 2147483648.

(** Constants and helpers of the compiler API and of the analyzer that the
    generator calls and that are declared outside this file. *)
Class Analyzer : Type := {
  (** [ts.ModifierFlags.Private] *)
  ModifierFlags_Private : Z;
  (** [AstDeclaration.isSupportedSyntaxKind] *)
  isSupportedSyntaxKind : SyntaxKind -> bool;
  (** [Collector.getSortKeyIgnoringUnderscore] *)
  getSortKeyIgnoringUnderscore : jstring -> jstring;
  (** [TypeScriptHelpers.matchAncestor] of a VariableDeclaration up to its
      VariableDeclarationList: the text of the source file, [list.getStart()]
      and [list.declarations[0].getStart()]. *)
  matchAncestor_VariableDeclarationList : Node -> option (jstring * nat * nat);
  (** [Text.convertToLf] *)
  Text_convertToLf : jstring -> jstring;
  (** [SourceFileLocationFormatter.formatDeclaration] *)
  formatDeclaration : Node -> jstring
}.

Definition hasPrivateModifier `{Analyzer} (astDeclaration : AstDeclaration) : bool :=
  negb (Z.land (ToInt32 (modifierFlags astDeclaration)) (ToInt32 ModifierFlags_Private) =? 0).

(** ** ApiReportGenerator._shouldIncludeInReport *)

Definition _shouldIncludeInReport `{Analyzer} `{ReleaseTagEnum} {R : Type}
    (collector : Collector R) (astDeclaration : AstDeclaration)
    (releaseLevel : JsNumber) : result bool :=
  if hasPrivateModifier astDeclaration then Ok false
  else
    let apiItemMetadata := fetchApiItemMetadata collector astDeclaration in
    let releaseTag :=
      if effectiveReleaseTag apiItemMetadata =? ReleaseTag_None
      then ReleaseTag_Public
      else effectiveReleaseTag apiItemMetadata in
    if Number_eqb releaseLevel ApiReportReleaseLevel.Untrimmed then Ok true
    else if Number_eqb releaseLevel ApiReportReleaseLevel.Alpha then
      Ok (releaseTag >=? ReleaseTag_Alpha)
    else if Number_eqb releaseLevel ApiReportReleaseLevel.Beta then
      Ok (releaseTag >=? ReleaseTag_Beta)
    else if Number_eqb releaseLevel ApiReportReleaseLevel.Public then
      Ok (releaseTag =? ReleaseTag_Public)
    else
      Throw (Error (str "Unrecognized release level: "
                    ++ Number_toString releaseLevel)).

(** The filter as the specification words it, over the effective tag in
    which a missing tag counts as public. *)
Definition effectiveTagOrPublic `{ReleaseTagEnum} (tag : Z) : Z :=
  if tag =? ReleaseTag_None then ReleaseTag_Public else tag.

(** ** Spans *)

(** Modelled from the spec: the modification overlay of a span; the [Span]
    tree, its overlay and the span writer live in analyzer/Span.ts, which is
    not among the sources (spec sections 3, 4.1 and 4.2).  A span mirrors
    one syntax node and owns the range [startIndex, endIndex) of the source
    text; its own text is the part of the range its children do not cover:
    [prefix] before the first child (the whole range for a leaf), [suffix]
    behind the last child, and between two children the [separator] that
    follows the first of them.  The overlay carries the members the
    generator uses: [prefix] and [suffix] stand for the span's own leading
    and trailing text until they are assigned (the generator prepends with
    [x + span.modification.prefix], and the span dump quoted in
    [_modifySpanForPreapproved] prints [pre=[export] sep=[ ]]);
    [omitChildren] suppresses the subtree, [omitSeparatorAfter] the
    separator that follows, and [skipAll()] suppresses own text, subtree and
    separator at once. *)
Record SpanModification : Type := {
  prefix_assigned : option jstring;
  suffix_assigned : option jstring;
  omitChildren : bool;
  omitSeparatorAfter : bool;
  sortChildren : bool;
  sortKey : option jstring
}.

(** Modelled from the spec: the overlay of a span nobody touched ("zero
    initial overlay", section 4.1). *)
Definition SpanModification_reset : SpanModification :=
  {| prefix_assigned := None; suffix_assigned := None;
     omitChildren := false; omitSeparatorAfter := false;
     sortChildren := false; sortKey := None |}.

(** Modelled from the spec: a node of the span tree (section 3), with its
    own text cut into prefix, suffix and separator. *)
#[warnings="-register-all"]
Inductive Span : Type :=
  | mkSpan (node : Node) (startIndex endIndex : nat)
      (prefix suffix separator : jstring)
      (children : list Span) (modification : SpanModification).

Definition span_node (s : Span) : Node :=
  match s with mkSpan n _ _ _ _ _ _ _ => n end.
Definition span_kind (s : Span) : SyntaxKind := node_kind (span_node s).
Definition span_prefix (s : Span) : jstring :=
  match s with mkSpan _ _ _ p _ _ _ _ => p end.
Definition span_suffix (s : Span) : jstring :=
  match s with mkSpan _ _ _ _ x _ _ _ => x end.
Definition span_separator (s : Span) : jstring :=
  match s with mkSpan _ _ _ _ _ x _ _ => x end.
Definition span_children (s : Span) : list Span :=
  match s with mkSpan _ _ _ _ _ _ c _ => c end.
Definition modification (s : Span) : SpanModification :=
  match s with mkSpan _ _ _ _ _ _ _ m => m end.

Definition set_modification (s : Span) (m : SpanModification) : Span :=
  match s with mkSpan n a b p x sep c _ => mkSpan n a b p x sep c m end.
Definition set_children (s : Span) (c : list Span) : Span :=
  match s with mkSpan n a b p x sep _ m => mkSpan n a b p x sep c m end.

(** Modelled from the spec: [span.modification.prefix] and
    [span.modification.suffix], read; analyzer/Span.ts is missing. *)
Definition modification_prefix (s : Span) : jstring :=
  match prefix_assigned (modification s) with
  | Some p => p
  | None => span_prefix s
  end.
Definition modification_suffix (s : Span) : jstring :=
  match suffix_assigned (modification s) with
  | Some x => x
  | None => span_suffix s
  end.

(** Modelled from the spec: [span.modification.prefix = v] and the other
    assignments to the overlay; analyzer/Span.ts is missing. *)
Definition set_prefix (s : Span) (v : jstring) : Span :=
  let m := modification s in
  set_modification s
    {| prefix_assigned := Some v; suffix_assigned := suffix_assigned m;
       omitChildren := omitChildren m; omitSeparatorAfter := omitSeparatorAfter m;
       sortChildren := sortChildren m; sortKey := sortKey m |}.
Definition set_suffix (s : Span) (v : jstring) : Span :=
  let m := modification s in
  set_modification s
    {| prefix_assigned := prefix_assigned m; suffix_assigned := Some v;
       omitChildren := omitChildren m; omitSeparatorAfter := omitSeparatorAfter m;
       sortChildren := sortChildren m; sortKey := sortKey m |}.
Definition set_omitSeparatorAfter (s : Span) (v : bool) : Span :=
  let m := modification s in
  set_modification s
    {| prefix_assigned := prefix_assigned m; suffix_assigned := suffix_assigned m;
       omitChildren := omitChildren m; omitSeparatorAfter := v;
       sortChildren := sortChildren m; sortKey := sortKey m |}.
Definition set_sortChildren (s : Span) (v : bool) : Span :=
  let m := modification s in
  set_modification s
    {| prefix_assigned := prefix_assigned m; suffix_assigned := suffix_assigned m;
       omitChildren := omitChildren m; omitSeparatorAfter := omitSeparatorAfter m;
       sortChildren := v; sortKey := sortKey m |}.
Definition set_sortKey (s : Span) (v : jstring) : Span :=
  let m := modification s in
  set_modification s
    {| prefix_assigned := prefix_assigned m; suffix_assigned := suffix_assigned m;
       omitChildren := omitChildren m; omitSeparatorAfter := omitSeparatorAfter m;
       sortChildren := sortChildren m; sortKey := Some v |}.

(** Modelled from the spec: [span.modification.skipAll()] of the missing
    analyzer/Span.ts, which suppresses own text, subtree and separator. *)
Definition skipAll (s : Span) : Span :=
  let m := modification s in
  set_modification s
    {| prefix_assigned := Some []; suffix_assigned := Some [];
       omitChildren := true; omitSeparatorAfter := true;
       sortChildren := sortChildren m; sortKey := sortKey m |}.

(** Modelled from the spec: [new Span(node)] of the missing
    analyzer/Span.ts, over the text of the node's source file: child spans
    in source order, every overlay untouched (section 4.1).  [nextStart] is
    where the next sibling starts (the span's own end when there is
    none). *)
Fixpoint new_Span_at (text : jstring) (node : Node) (nextStart : nat) : Span :=
  match node with
  | mkNode _ s e cs =>
      mkSpan node s e
        (match cs with
         | [] => substring text s e
         | c :: _ => substring text s (getStart c)
         end)
        (match cs with
         | [] => []
         | _ :: _ => substring text (getEnd (last cs node)) e
         end)
        (if Nat.ltb e nextStart then substring text e nextStart else [])
        ((fix build (l : list Node) : list Span :=
            match l with
            | [] => []
            | c :: rest =>
                new_Span_at text c
                  (match rest with [] => getEnd c | n :: _ => getStart n end)
                :: build rest
            end) cs)
        SpanModification_reset
  end.

Definition new_Span (text : jstring) (node : Node) : Span :=
  new_Span_at text node (getEnd node).

(** Modelled from the spec: the invariant of the span tree (section 3):
    the ranges of the children are disjoint, in order, and inside the range
    of their parent. *)
Fixpoint wellFormed (n : Node) : bool :=
  match n with
  | mkNode _ s e cs =>
      Nat.leb s e
      && (fix go (lo : nat) (l : list Node) : bool :=
            match l with
            | [] => Nat.leb lo e
            | c :: rest => Nat.leb lo (getStart c) && wellFormed c && go (getEnd c) rest
            end) s cs
  end.

(** *** The span writer *)

(** A child at writing time: its sort key and what it writes. *)
Definition rendered : Type := (option jstring * jstring)%type.

Definition key_ltb (a b : rendered) : bool :=
  match fst a, fst b with
  | Some x, Some y => jstring_ltb x y
  | _, _ => false
  end.

(** A stable sort by key. *)
Fixpoint insert_by_key (x : rendered) (l : list rendered) : list rendered :=
  match l with
  | [] => [x]
  | y :: l' => if key_ltb y x then y :: insert_by_key x l' else x :: y :: l'
  end.
Fixpoint sort_by_key (l : list rendered) : list rendered :=
  match l with
  | [] => []
  | x :: l' => insert_by_key x (sort_by_key l')
  end.

Definition has_key (x : rendered) : bool :=
  match fst x with Some _ => true | None => false end.

(** Modelled from the spec: the order of the children under
    [sortChildren] (section 4.2, step 4): the children with a key take, in
    the order of their keys, the places the keyed children had; a child
    without a key keeps its place. *)
Fixpoint refill (items sorted : list rendered) : list rendered :=
  match items with
  | [] => []
  | it :: rest =>
      if has_key it then
        match sorted with
        | x :: sorted' => x :: refill rest sorted'
        | [] => it :: refill rest []
        end
      else it :: refill rest sorted
  end.

Definition orderChildren (sort : bool) (items : list rendered) : list rendered :=
  if sort then refill items (sort_by_key (filter has_key items)) else items.

(** Modelled from the spec: the span writer of the missing
    analyzer/Span.ts (section 4.2), [span.getModifiedText()], which
    [span.writeModifiedText(writer)] hands to the writer: the prefix, the
    children in their order, each followed by its separator unless that is
    omitted, and the suffix. *)
Fixpoint getModifiedText (s : Span) : jstring :=
  match s with
  | mkSpan _ _ _ pre suf _ cs m =>
      (match prefix_assigned m with Some p => p | None => pre end)
      ++ (if omitChildren m then []
          else concat (List.map snd
                 (orderChildren (sortChildren m)
                    (List.map
                       (fun c =>
                          (sortKey (modification c),
                           getModifiedText c
                           ++ (if omitSeparatorAfter (modification c) then []
                               else span_separator c)))
                       cs))))
      ++ (match suffix_assigned m with Some x => x | None => suf end)
  end.

(** ** ApiReportGenerator._modifySpanForPreapproved *)

Definition preapprovedSuffix : jstring := str " { /* (preapproved) */ }".

Fixpoint _modifySpanForPreapproved_loop (skipRest : bool) (cs : list Span) : list Span :=
  match cs with
  | [] => []
  | child :: rest =>
      let child1 :=
        if skipRest
           || SyntaxKind_eqb (span_kind child) SyntaxList
           || SyntaxKind_eqb (span_kind child) JSDocComment
        then skipAll child else child in
      if SyntaxKind_eqb (span_kind child) Identifier then
        set_suffix (set_omitSeparatorAfter child1 true) preapprovedSuffix
        :: _modifySpanForPreapproved_loop true rest
      else child1 :: _modifySpanForPreapproved_loop skipRest rest
  end.

Definition _modifySpanForPreapproved (span : Span) : Span :=
  set_children span (_modifySpanForPreapproved_loop false (span_children span)).

(** ** The writer

    The generator only calls the writer and asks for its text at the end,
    so an [IndentedWriter] is kept as the calls made on it, oldest first;
    the helpers of [DtsEmitHelpers] that write through it are calls too. *)
Inductive WriterCall : Type :=
  | W_trimLeadingSpaces (value : bool)
  | W_write (message : jstring)
  | W_writeLine (message : jstring)
  | W_ensureNewLine
  | W_ensureSkippedLine
  | W_increaseIndent
  | W_decreaseIndent
  | W_emitImport (entity : CollectorEntity) (modulePath : jstring)
  | W_emitNamedExport (exportName : jstring) (entity : CollectorEntity)
  | W_emitStarExports.

Definition IndentedWriter : Type := list WriterCall.

Definition new_IndentedWriter : IndentedWriter := [].

Definition call (writer : IndentedWriter) (c : WriterCall) : IndentedWriter :=
  writer ++ [c].

(** ** Computations of the generator

    A computation reads and updates the state [R] of the message router and
    returns, or throws.  [OutOfFuel] is no behaviour of the program: it
    marks a recursion cut short by the bound on its depth. *)
Inductive outcome (R A : Type) : Type :=
  | Returns (a : A) (router : R)
  | Throws (e : exn)
  | OutOfFuel.
Arguments Returns {R A} a router.
Arguments Throws {R A} e.
Arguments OutOfFuel {R A}.

Definition M (R A : Type) : Type := R -> outcome R A.

Definition ret {R A : Type} (a : A) : M R A := fun r => Returns a r.

Definition bind {R A B : Type} (c : M R A) (k : A -> M R B) : M R B :=
  fun r =>
    match c r with
    | Returns a r' => k a r'
    | Throws e => Throws e
    | OutOfFuel => OutOfFuel
    end.

Definition throw {R A : Type} (e : exn) : M R A := fun _ => Throws e.

Definition outOfFuel {R A : Type} : M R A := fun _ => OutOfFuel.

Definition lift {R A : Type} (x : result A) : M R A :=
  match x with
  | Ok a => ret a
  | Throw e => throw e
  end.

(** A method of the message router. *)
Definition router_call {R A : Type} (f : R -> A * R) : M R A :=
  fun r => let (a, r') := f r in Returns a r'.

Declare Scope gen_scope.
Delimit Scope gen_scope with gen.
Notation "x <- c ;; k" := (bind c (fun x => k))
  (at level 61, c at next level, right associativity) : gen_scope.
Notation "' pat <- c ;; k" := (bind c (fun x => match x with pat => k end))
  (at level 61, pat pattern, c at next level, right associativity) : gen_scope.

(** [for (const x of xs) acc = f(acc, x)] *)
Fixpoint foldM {R A B : Type} (f : A -> B -> M R A) (xs : list B) (acc : A) : M R A :=
  match xs with
  | [] => ret acc
  | x :: rest => bind (f acc x) (fun acc' => foldM f rest acc')
  end.

(** The recursive call of the rewrite pass, as [DtsEmitHelpers] receives
    it: on a span with the kind of its parent and its previous sibling, it
    gives the span and the previous sibling back. *)
Definition modifyNestedSpan (R : Type) : Type :=
  option SyntaxKind -> option Span -> Span -> AstDeclaration ->
  M R (Span * option Span).

(** The emitter the generator relies on and that is declared outside this
    file: the text of an [IndentedWriter], and
    [DtsEmitHelpers.modifyImportTypeSpan]. *)
Class Emitter : Type := {
  IndentedWriter_toString : IndentedWriter -> jstring;
  modifyImportTypeSpan :
    forall R : Type, Collector R -> Span -> AstDeclaration ->
                     modifyNestedSpan R -> M R Span
}.

(** ** ApiReportGenerator._writeLineAsComments *)

Definition _writeLineAsComments `{Analyzer}
    (writer : IndentedWriter) (line : jstring) : IndentedWriter :=
  let lines := split_on LF (Text_convertToLf line) in
  fold_left
    (fun writer realLine =>
       call (call (call writer (W_write (str "// "))) (W_write realLine))
            (W_writeLine []))
    lines writer.

(** ** ApiReportGenerator._getAedocSynopsis *)

Definition push_if (b : bool) (parts : list jstring) (part : jstring) : list jstring :=
  if b then parts ++ [part] else parts.

Definition synopsisFooterParts `{ReleaseTagEnum}
    (apiItemMetadata : ApiItemMetadata) : list jstring :=
  let footerParts : list jstring := [] in
  let footerParts :=
    push_if (negb (releaseTagSameAsParent apiItemMetadata)
             && negb (effectiveReleaseTag apiItemMetadata =? ReleaseTag_None))
      footerParts (ReleaseTag_getTagName (effectiveReleaseTag apiItemMetadata)) in
  let footerParts := push_if (isSealed apiItemMetadata) footerParts (str "@sealed") in
  let footerParts := push_if (isVirtual apiItemMetadata) footerParts (str "@virtual") in
  let footerParts := push_if (isOverride apiItemMetadata) footerParts (str "@override") in
  let footerParts :=
    push_if (isEventProperty apiItemMetadata) footerParts (str "@eventProperty") in
  let footerParts :=
    push_if (match tsdocComment apiItemMetadata with
             | Some c => deprecatedBlock c
             | None => false
             end) footerParts (str "@deprecated") in
  push_if (undocumented apiItemMetadata) footerParts (str "(undocumented)").

Definition isEmpty {A : Type} (l : list A) : bool :=
  match l with [] => true | _ :: _ => false end.

(** The warning comments, one message after the other. *)
Definition writeWarnings `{Analyzer}
    (writer : IndentedWriter) (messages : list ExtractorMessage) : IndentedWriter :=
  fold_left
    (fun writer message =>
       _writeLineAsComments writer
         (str "Warning: " ++ formatMessageWithoutLocation message))
    messages writer.

Definition _getAedocSynopsis `{Analyzer} `{ReleaseTagEnum} `{Emitter} {R : Type}
    (collector : Collector R) (astDeclaration : AstDeclaration)
    (messagesToReport : list ExtractorMessage) : M R jstring :=
  (let writer := writeWarnings new_IndentedWriter messagesToReport in
   if negb (isAncillaryDeclaration collector astDeclaration) then
     let apiItemMetadata := fetchApiItemMetadata collector astDeclaration in
     let footerParts := synopsisFooterParts apiItemMetadata in
     _ <- (if undocumented apiItemMetadata then
             router_call (fun r =>
               (tt, addAnalyzerIssue_Undocumented collector
                      (str "Missing documentation for " ++ [QUOTE]
                       ++ astSymbol_localName astDeclaration ++ [QUOTE] ++ str ".")
                      astDeclaration r))
           else ret tt) ;;
     let writer :=
       if negb (isEmpty footerParts) then
         let writer :=
           if negb (isEmpty messagesToReport)
           then _writeLineAsComments writer []
           else writer in
         _writeLineAsComments writer (join (str " ") footerParts)
       else writer in
     ret (IndentedWriter_toString writer)
   else ret (IndentedWriter_toString writer))%gen.

(** ** ApiReportGenerator._modifySpan *)

(** What the [switch] on the kind of the span leaves behind. *)
Record SwitchOutcome : Type := {
  sw_span : Span;
  sw_previousSpan : option Span;
  sw_recurseChildren : bool;
  sw_sortChildren : bool;
  sw_insideTypeLiteral : bool
}.

Definition last_opt {A : Type} (l : list A) : option A :=
  match l with
  | [] => None
  | x :: _ => Some (last l x)
  end.

(** The previous sibling, updated in place among the children already
    visited. *)
Definition put_last {A : Type} (l : list A) (x : option A) : list A :=
  match x with
  | Some y => match l with [] => [] | _ :: _ => removelast l ++ [y] end
  | None => l
  end.

Section ModifySpan.
Context `{Analyzer} `{ReleaseTagEnum} `{Emitter} {R : Type}.
Variable collector : Collector R.
Variable entity : CollectorEntity.
Variable releaseLevel : JsNumber.

Local Open Scope gen_scope.

(** The [switch (span.kind)] of [_modifySpan]; [recurse] is
    [_modifySpan] itself, for the callback handed to
    [DtsEmitHelpers.modifyImportTypeSpan]. *)
Definition modifySpan_switch (recurse : modifyNestedSpan R)
    (parent : option SyntaxKind) (previousSpan : option Span) (span : Span)
    (astDeclaration : AstDeclaration) (insideTypeLiteral : bool)
    : M R SwitchOutcome :=
  let keep (s : Span) :=
    {| sw_span := s; sw_previousSpan := previousSpan;
       sw_recurseChildren := true; sw_sortChildren := false;
       sw_insideTypeLiteral := insideTypeLiteral |} in
  match span_kind span with
  | JSDocComment =>
      ret {| sw_span := skipAll span; sw_previousSpan := previousSpan;
             sw_recurseChildren := false; sw_sortChildren := false;
             sw_insideTypeLiteral := insideTypeLiteral |}
  | ExportKeyword | DefaultKeyword | DeclareKeyword =>
      ret (keep (skipAll span))
  | InterfaceKeyword | ClassKeyword | EnumKeyword | NamespaceKeyword
  | ModuleKeyword | TypeKeyword | FunctionKeyword =>
      let replacedModifiers : jstring := [] in
      let replacedModifiers :=
        if shouldInlineExport entity
        then str "export " ++ replacedModifiers
        else replacedModifiers in
      match previousSpan with
      | Some p =>
          if SyntaxKind_eqb (span_kind p) SyntaxList then
            ret {| sw_span := span;
                   sw_previousSpan :=
                     Some (set_prefix p (replacedModifiers ++ modification_prefix p));
                   sw_recurseChildren := true; sw_sortChildren := false;
                   sw_insideTypeLiteral := insideTypeLiteral |}
          else ret (keep (set_prefix span (replacedModifiers ++ modification_prefix span)))
      | None =>
          ret (keep (set_prefix span (replacedModifiers ++ modification_prefix span)))
      end
  | SyntaxList =>
      ret {| sw_span := span; sw_previousSpan := previousSpan;
             sw_recurseChildren := true;
             sw_sortChildren :=
               match parent with
               | Some parentKind =>
                   if isSupportedSyntaxKind parentKind then true
                   else if SyntaxKind_eqb parentKind ModuleBlock then true
                   else false
               | None => false
               end;
             sw_insideTypeLiteral := insideTypeLiteral |}
  | VariableDeclaration =>
      match parent with
      | None =>
          match matchAncestor_VariableDeclarationList (span_node span) with
          | None => throw (InternalError (str "Unsupported variable declaration"))
          | Some (text, listStart, firstStart) =>
              let listPrefix := substring text listStart firstStart in
              let span := set_prefix span (listPrefix ++ modification_prefix span) in
              let span := set_suffix span (str ";") in
              let span :=
                if shouldInlineExport entity
                then set_prefix span (str "export " ++ modification_prefix span)
                else span in
              ret (keep span)
          end
      | Some _ => ret (keep span)
      end
  | Identifier =>
      match tryGetEntityForNode collector (span_node span) with
      | Some referencedEntity =>
          match nameForEmit referencedEntity with
          | Some (c :: name) => ret (keep (set_prefix span (c :: name)))
          | Some [] | None =>
              throw (InternalError (str "referencedEntry.nameForEmit is undefined"))
          end
      | None => ret (keep span)
      end
  | TypeLiteral =>
      ret {| sw_span := span; sw_previousSpan := previousSpan;
             sw_recurseChildren := true; sw_sortChildren := false;
             sw_insideTypeLiteral := true |}
  | ImportType =>
      span' <- modifyImportTypeSpan R collector span astDeclaration recurse ;;
      ret (keep span')
  | _ => ret (keep span)
  end.

(** Lines 442-472: the declaration of a child and what its parent does to
    it before the child is visited. *)
Definition modifySpan_prepareChild
    (astDeclaration : AstDeclaration) (sortChildren insideTypeLiteral : bool)
    (span child : Span) : M R (Span * Span * AstDeclaration) :=
  if isSupportedSyntaxKind (span_kind child) then
    childAstDeclaration <-
      lift (getChildAstDeclarationByNode collector (span_node child) astDeclaration) ;;
    included <- lift (_shouldIncludeInReport collector childAstDeclaration releaseLevel) ;;
    if included then
      let '(span, child) :=
        if sortChildren then
          (set_sortChildren span true,
           set_sortKey child
             (getSortKeyIgnoringUnderscore (astSymbol_localName childAstDeclaration)))
        else (span, child) in
      child <-
        (if negb insideTypeLiteral then
           messagesToReport <-
             router_call (fetchAssociatedMessagesForReviewFile collector childAstDeclaration) ;;
           aedocSynopsis <- _getAedocSynopsis collector childAstDeclaration messagesToReport ;;
           ret (set_prefix child (aedocSynopsis ++ modification_prefix child))
         else ret child) ;;
      ret (span, child, childAstDeclaration)
    else ret (span, child, childAstDeclaration)
  else ret (span, child, astDeclaration).

(** One turn of [for (const child of span.children)]: [state] is the
    span with the children visited so far. *)
Definition modifySpan_child (recurse : modifyNestedSpan R)
    (astDeclaration : AstDeclaration) (sortChildren insideTypeLiteral : bool)
    (state : Span * list Span) (child : Span) : M R (Span * list Span) :=
  let (span, visited) := state in
  '(span, child, childAstDeclaration) <-
    modifySpan_prepareChild astDeclaration sortChildren insideTypeLiteral span child ;;
  '(child, previous) <-
    recurse (Some (span_kind span)) (last_opt visited) child childAstDeclaration ;;
  ret (span, put_last visited previous ++ [child]).

(** [fuel] bounds the depth of the recursion. *)
Fixpoint _modifySpan (fuel : nat)
    (parent : option SyntaxKind) (previousSpan : option Span) (span : Span)
    (astDeclaration : AstDeclaration) (insideTypeLiteral : bool)
    {struct fuel} : M R (Span * option Span) :=
  match fuel with
  | O => outOfFuel
  | S fuel' =>
      included <- lift (_shouldIncludeInReport collector astDeclaration releaseLevel) ;;
      if negb included then ret (skipAll span, previousSpan)
      else
        sw <- modifySpan_switch
                (fun parent previousSpan span astDeclaration =>
                   _modifySpan fuel' parent previousSpan span astDeclaration
                     insideTypeLiteral)
                parent previousSpan span astDeclaration insideTypeLiteral ;;
        if sw_recurseChildren sw then
          '(span, visited) <-
            foldM
              (modifySpan_child
                 (fun parent previousSpan span astDeclaration =>
                    _modifySpan fuel' parent previousSpan span astDeclaration
                      (sw_insideTypeLiteral sw))
                 astDeclaration (sw_sortChildren sw) (sw_insideTypeLiteral sw))
              (span_children (sw_span sw)) (sw_span sw, []) ;;
          ret (set_children span visited, sw_previousSpan sw)
        else ret (sw_span sw, sw_previousSpan sw)
  end.

End ModifySpan.

(** ** ApiReportGenerator.generateReviewFileContent *)

Record IApiReportOptions : Type := {
  releaseLevel : JsNumber
}.

Record IExportToEmit : Type := {
  exportName : jstring;
  associatedMessages : list ExtractorMessage
}.

(** A [Map<string, V>]: the entries in the order of their first insertion. *)
Definition JsMap (V : Type) : Type := list (jstring * V).

Fixpoint Map_get {V : Type} (m : JsMap V) (key : jstring) : option V :=
  match m with
  | [] => None
  | (k, v) :: rest => if jstring_eqb k key then Some v else Map_get rest key
  end.

Fixpoint Map_set {V : Type} (m : JsMap V) (key : jstring) (value : V) : JsMap V :=
  match m with
  | [] => [(key, value)]
  | (k, v) :: rest =>
      if jstring_eqb k key then (k, value) :: rest
      else (k, v) :: Map_set rest key value
  end.

Definition Map_values {V : Type} (m : JsMap V) : list V := List.map snd m.

(** [Array.prototype.sort()] on strings. *)
Fixpoint insert_string (x : jstring) (l : list jstring) : list jstring :=
  match l with
  | [] => [x]
  | y :: l' => if jstring_ltb y x then y :: insert_string x l' else x :: y :: l'
  end.
Fixpoint sort_strings (l : list jstring) : list jstring :=
  match l with
  | [] => []
  | x :: l' => insert_string x (sort_strings l')
  end.

(** [`${x}`] of a string that may be undefined. *)
Definition template (x : option jstring) : jstring :=
  match x with
  | Some s => s
  | None => str "undefined"
  end.

Section GenerateReviewFileContent.
Context `{Analyzer} `{ReleaseTagEnum} `{Emitter} {R : Type}.
Variable collector : Collector R.
Variable options : IApiReportOptions.

Local Open Scope gen_scope.

(** Lines 82-105: the header, the code fence and the directives. *)
Definition writeHeader : IndentedWriter :=
  let writer := call new_IndentedWriter (W_trimLeadingSpaces true) in
  let writer :=
    call writer
      (W_writeLine
         (join [LF]
            [ str "## API Report File for " ++ [QUOTE]
                ++ workingPackage_name collector ++ [QUOTE];
              [];
              str "> Do not edit this file. It is a report generated by [API Extractor](https://api-extractor.com/).";
              [] ])) in
  let writer := call writer (W_writeLine (str "```ts" ++ [LF])) in
  let writer :=
    fold_left
      (fun writer typeDirectiveReference =>
         call writer
           (W_writeLine (str "/// <reference types=" ++ [QUOTE]
                         ++ typeDirectiveReference ++ [QUOTE] ++ str " />")))
      (sort_strings (dtsTypeReferenceDirectives collector)) writer in
  let writer :=
    fold_left
      (fun writer libDirectiveReference =>
         call writer
           (W_writeLine (str "/// <reference lib=" ++ [QUOTE]
                         ++ libDirectiveReference ++ [QUOTE] ++ str " />")))
      (sort_strings (dtsLibReferenceDirectives collector)) writer in
  call writer W_ensureSkippedLine.

(** Lines 107-113: the imports. *)
Definition writeImports (writer : IndentedWriter) : IndentedWriter :=
  let writer :=
    fold_left
      (fun writer entity =>
         match astEntity entity with
         | AstImport modulePath _ => call writer (W_emitImport entity modulePath)
         | _ => writer
         end)
      (entities collector) writer in
  call writer W_ensureSkippedLine.

(** Lines 126-132: the export names that get a statement of their own. *)
Definition collectExportsToEmit (entity : CollectorEntity) : JsMap IExportToEmit :=
  fold_left
    (fun exportsToEmit exportName =>
       if negb (shouldInlineExport entity) then
         Map_set exportsToEmit exportName
           {| exportName := exportName; associatedMessages := [] |}
       else exportsToEmit)
    (exportNames entity) [].

(** Lines 144-156: a message that names an export statement to be emitted
    goes to that statement, any other message to the declaration. *)
Definition peelMessage
    (state : JsMap IExportToEmit * list ExtractorMessage)
    (message : ExtractorMessage) : JsMap IExportToEmit * list ExtractorMessage :=
  let (exportsToEmit, messagesToReport) := state in
  match properties_exportName message with
  | Some (c :: name) =>
      match Map_get exportsToEmit (c :: name) with
      | Some exportToEmit =>
          (Map_set exportsToEmit (c :: name)
             {| exportName := exportName exportToEmit;
                associatedMessages := associatedMessages exportToEmit ++ [message] |},
           messagesToReport)
      | None => (exportsToEmit, messagesToReport ++ [message])
      end
  | Some [] | None => (exportsToEmit, messagesToReport ++ [message])
  end.

(** Lines 161-175: the span of a declaration and the policy applied to
    it. *)
Definition modifyDeclarationSpan (fuel : nat) (entity : CollectorEntity)
    (astDeclaration : AstDeclaration) : M R Span :=
  let span :=
    new_Span (sourceFileText collector (declaration astDeclaration))
      (declaration astDeclaration) in
  let apiItemMetadata := fetchApiItemMetadata collector astDeclaration in
  if isPreapproved apiItemMetadata then ret (_modifySpanForPreapproved span)
  else
    '(span, _) <-
      _modifySpan collector entity (releaseLevel options) fuel
        None None span astDeclaration false ;;
    ret span.

(** Lines 136-179: one declaration of the entity. *)
Definition emitDeclaration (fuel : nat) (entity : CollectorEntity)
    (state : JsMap IExportToEmit * IndentedWriter)
    (astDeclaration : AstDeclaration) : M R (JsMap IExportToEmit * IndentedWriter) :=
  let (exportsToEmit, writer) := state in
  fetchedMessages <-
    router_call (fetchAssociatedMessagesForReviewFile collector astDeclaration) ;;
  let (exportsToEmit, messagesToReport) :=
    fold_left peelMessage fetchedMessages (exportsToEmit, []) in
  let writer := call writer W_ensureSkippedLine in
  aedocSynopsis <- _getAedocSynopsis collector astDeclaration messagesToReport ;;
  let writer := call writer (W_write aedocSynopsis) in
  span <- modifyDeclarationSpan fuel entity astDeclaration ;;
  let writer := call writer (W_write (getModifiedText span)) in
  let writer := call writer W_ensureNewLine in
  ret (exportsToEmit, writer).

(** Lines 219-235: the clauses of the synthetic namespace. *)
Definition exportClause (namespaceName : jstring) (exportClauses : list jstring)
    (entry : jstring * AstEntity) : M R (list jstring) :=
  let (exportedName, exportedEntity) := entry in
  match tryGetCollectorEntity collector exportedEntity with
  | None =>
      throw (InternalError
               (str "Cannot find collector entity for " ++ namespaceName
                ++ str "." ++ entity_localName exportedEntity))
  | Some collectorEntity =>
      match nameForEmit collectorEntity with
      | Some name =>
          if jstring_eqb name exportedName then ret (exportClauses ++ [name])
          else ret (exportClauses ++ [name ++ str " as " ++ exportedName])
      | None =>
          ret (exportClauses ++ [template None ++ str " as " ++ exportedName])
      end
  end.

(** Lines 182-242: the namespace import. *)
Definition emitNamespaceImport (entity : CollectorEntity)
    (ns : AstNamespaceImport) (writer : IndentedWriter) : M R IndentedWriter :=
  let astModuleExportInfo := fetchAstModuleExportInfo collector ns in
  match nameForEmit entity with
  | None => throw (InternalError (str "referencedEntry.nameForEmit is undefined"))
  | Some name =>
      if Nat.ltb 0 (List.length (starExportedExternalModules astModuleExportInfo)) then
        throw (Error
                 (str "The " ++ name
                  ++ str " namespace import includes a star export, which is not supported:"
                  ++ [LF] ++ formatDeclaration (namespace_declaration ns)))
      else
        let writer := call writer W_ensureSkippedLine in
        let writer :=
          call writer (W_writeLine (str "declare namespace " ++ name ++ str " {")) in
        let writer := call writer W_increaseIndent in
        let writer := call writer (W_writeLine (str "export {")) in
        let writer := call writer W_increaseIndent in
        exportClauses <-
          foldM (exportClause name) (exportedLocalEntities astModuleExportInfo) [] ;;
        let writer :=
          call writer (W_writeLine (join (str "," ++ [LF]) exportClauses)) in
        let writer := call writer W_decreaseIndent in
        let writer := call writer (W_writeLine (str "}")) in
        let writer := call writer W_decreaseIndent in
        let writer := call writer (W_writeLine (str "}")) in
        ret writer
  end.

(** Lines 244-258: the export statements of the entity. *)
Definition emitExportStatement (entity : CollectorEntity)
    (writer : IndentedWriter) (exportToEmit : IExportToEmit) : IndentedWriter :=
  let writer :=
    if negb (isEmpty (associatedMessages exportToEmit)) then
      writeWarnings (call writer W_ensureSkippedLine) (associatedMessages exportToEmit)
    else writer in
  call writer (W_emitNamedExport (exportName exportToEmit) entity).

(** Lines 116-261: one turn of the loop over the entities. *)
Definition emitEntity (fuel : nat) (writer : IndentedWriter)
    (entity : CollectorEntity) : M R IndentedWriter :=
  if consumable entity || apiReportIncludeForgottenExports collector then
    let exportsToEmit := collectExportsToEmit entity in
    '(exportsToEmit, writer) <-
      (match astEntity entity with
       | AstSymbol _ astDeclarations =>
           foldM (emitDeclaration fuel entity) astDeclarations (exportsToEmit, writer)
       | _ => ret (exportsToEmit, writer)
       end) ;;
    writer <-
      (match astEntity entity with
       | AstNamespaceImport_ ns => emitNamespaceImport entity ns writer
       | _ => ret writer
       end) ;;
    let writer :=
      fold_left (emitExportStatement entity) (Map_values exportsToEmit) writer in
    ret (call writer W_ensureSkippedLine)
  else ret writer.

(** Lines 263-287: the star exports, the warnings without a declaration
    and the end of the code fence. *)
Definition writeFooter (writer : IndentedWriter) : M R IndentedWriter :=
  let writer := call writer W_emitStarExports in
  unassociatedMessages <-
    router_call (fetchUnassociatedMessagesForReviewFile collector) ;;
  let writer :=
    if negb (isEmpty unassociatedMessages) then
      let writer := call writer W_ensureSkippedLine in
      let writer :=
        _writeLineAsComments writer (str "Warnings were encountered during analysis:") in
      let writer := _writeLineAsComments writer [] in
      fold_left
        (fun writer unassociatedMessage =>
           _writeLineAsComments writer
             (formatMessageWithLocation unassociatedMessage
                (workingPackage_packageFolder collector)))
        unassociatedMessages writer
    else writer in
  let writer :=
    match workingPackage_tsdocComment collector with
    | None =>
        _writeLineAsComments (call writer W_ensureSkippedLine)
          (str "(No @packageDocumentation comment for this package)")
    | Some _ => writer
    end in
  let writer := call writer W_ensureSkippedLine in
  ret (call writer (W_writeLine (str "```"))).

(** The writer when the report is complete. *)
Definition assembleReport (fuel : nat) : M R IndentedWriter :=
  let writer := writeHeader in
  let writer := writeImports writer in
  writer <- foldM (emitEntity fuel) (entities collector) writer ;;
  writeFooter writer.

Definition generateReviewFileContent (fuel : nat) : M R jstring :=
  writer <- assembleReport fuel ;;
  ret (trimSpaces (IndentedWriter_toString writer)).

End GenerateReviewFileContent.

(** ** Auxiliary scans used in the proofs *)

(** The number of whitespace characters at the head of [s]. *)
Definition whitespace_run_length (s : jstring) : nat :=
  match match_whitespace_run s with
  | Some n => n
  | None => 0%nat
  end.

(** One pass that remembers whether the previous character was whitespace. *)
Fixpoint collapse_scan (inRun : bool) (s : jstring) : jstring :=
  match s with
  | [] => []
  | c :: r =>
      if isWhiteSpace c then
        if inRun then collapse_scan true r else SP :: collapse_scan true r
      else c :: collapse_scan false r
  end.

Definition noWhiteSpace (t : jstring) : bool :=
  forallb (fun c => negb (isWhiteSpace c)) t.

Definition allWhiteSpace (t : jstring) : bool :=
  forallb isWhiteSpace t.

(** The spaces at the head of [s] run up to the end of its line. *)
Fixpoint spaces_to_end_of_line (s : jstring) : bool :=
  match s with
  | [] => true
  | c :: r => if N.eqb c 32 then spaces_to_end_of_line r else isLineTerminator c
  end.

Definition leading_spaces (s : jstring) : nat :=
  match match_trailing_spaces s with
  | Some n => n
  | None => 0%nat
  end.

Fixpoint trim_scan (s : jstring) : jstring :=
  match s with
  | [] => []
  | c :: r =>
      if N.eqb c 32 && spaces_to_end_of_line r then trim_scan r
      else c :: trim_scan r
  end.

(** No space of [s] is followed by spaces up to the end of its line. *)
Fixpoint noTrailingSpaces (s : jstring) : bool :=
  match s with
  | [] => true
  | c :: r => negb (N.eqb c 32 && spaces_to_end_of_line r) && noTrailingSpaces r
  end.

Definition endsWith (c : char) (line : jstring) : bool :=
  match rev line with
  | d :: _ => N.eqb d c
  | [] => false
  end.

Definition endsWithWhiteSpace (line : jstring) : bool :=
  match rev line with
  | d :: _ => isWhiteSpace d
  | [] => false
  end.

(** The text without the spaces (U+0020) that end it. *)
Fixpoint withoutFinalSpaces (s : jstring) : jstring :=
  match s with
  | [] => []
  | c :: r =>
      if N.eqb c 32 && forallb (fun d => N.eqb d 32) r then []
      else c :: withoutFinalSpaces r
  end.

(** The children of [new Span(node)], and the order of the children the
    invariant asks for, as functions of their own. *)
Fixpoint new_Spans (text : jstring) (l : list Node) : list Span :=
  match l with
  | [] => []
  | c :: rest =>
      new_Span_at text c (match rest with [] => getEnd c | n :: _ => getStart n end)
      :: new_Spans text rest
  end.

Fixpoint childrenInOrder (e lo : nat) (l : list Node) : bool :=
  match l with
  | [] => Nat.leb lo e
  | c :: rest =>
      Nat.leb lo (getStart c) && wellFormed c && childrenInOrder e (getEnd c) rest
  end.

(** What the writer takes from a child: its key, its text and the separator
    behind it. *)
Definition writeChild (c : Span) : rendered :=
  (sortKey (modification c),
   getModifiedText c
   ++ (if omitSeparatorAfter (modification c) then [] else span_separator c)).

(** What a span writes before its suffix. *)
Definition textBeforeSuffix (s : Span) : jstring :=
  modification_prefix s
  ++ (if omitChildren (modification s) then []
      else concat (List.map snd
             (orderChildren (sortChildren (modification s))
                (List.map writeChild (span_children s))))).

(** The span of [n], written as it is built, gives the text of [n]. *)
Definition reproduces (text : jstring) (n : Node) : Prop :=
  wellFormed n = true ->
  forall nextStart, getModifiedText (new_Span_at text n nextStart) = getText text n.

(** No overlay of the tree was ever assigned. *)
Definition isReset (m : SpanModification) : bool :=
  match prefix_assigned m, suffix_assigned m, sortKey m with
  | None, None, None =>
      negb (omitChildren m) && negb (omitSeparatorAfter m) && negb (sortChildren m)
  | _, _, _ => false
  end.

Fixpoint untouched (s : Span) : bool :=
  match s with
  | mkSpan _ _ _ _ _ _ cs m => isReset m && forallb untouched cs
  end.

Definition isListOrComment (c : Span) : bool :=
  SyntaxKind_eqb (span_kind c) SyntaxList || SyntaxKind_eqb (span_kind c) JSDocComment.

Definition isIdentifier (c : Span) : bool :=
  SyntaxKind_eqb (span_kind c) Identifier.

(** The span gives nothing to the report: no text of its own, no subtree
    and no separator behind it. *)
Definition suppressed (c : Span) : Prop :=
  prefix_assigned (modification c) = Some []
  /\ omitChildren (modification c) = true
  /\ omitSeparatorAfter (modification c) = true.

(** The calls that write one line as comments. *)
Definition commentCalls `{Analyzer} (line : jstring) : list WriterCall :=
  flat_map
    (fun realLine => [W_write (str "// "); W_write realLine; W_writeLine []])
    (split_on LF (Text_convertToLf line)).

(** [w'] is [w] with further calls, all of them in [Q]. *)
Definition grows (Q : WriterCall -> Prop) (w w' : IndentedWriter) : Prop :=
  exists added, w' = w ++ added /\ Forall Q added.

(** Any call but an export statement. *)
Definition noExportStatement (c : WriterCall) : Prop :=
  match c with
  | W_emitNamedExport _ _ => False
  | _ => True
  end.

(** Any call but the export statement of an entity that inlines its
    export. *)
Definition noInlinedExportStatement (c : WriterCall) : Prop :=
  match c with
  | W_emitNamedExport _ e => shouldInlineExport e = false
  | _ => True
  end.

(** What the loop over the declarations of an entity writes when no export
    statement is pending: for every declaration a skipped line, the
    synopsis, which starts with a warning comment for every message the
    router hands out for the declaration, the text of the span and the end
    of the line; [r] is the state of the router before the loop and [r']
    the state behind it. *)
Fixpoint declarationsWritten `{Analyzer} `{ReleaseTagEnum} `{Emitter} {R : Type}
    (collector : Collector R) (options : IApiReportOptions) (fuel : nat)
    (entity : CollectorEntity) (astDeclarations : list AstDeclaration)
    (r : R) (added : list WriterCall) (r' : R) : Prop :=
  match astDeclarations with
  | [] => added = [] /\ r' = r
  | astDeclaration :: rest =>
      let (fetchedMessages, r0) :=
        fetchAssociatedMessagesForReviewFile collector astDeclaration r in
      exists (synopsisRest : list WriterCall) (r1 : R) (span : Span) (r2 : R)
             (added' : list WriterCall),
        let aedocSynopsis :=
          IndentedWriter_toString
            (flat_map
               (fun message =>
                  commentCalls (str "Warning: " ++ formatMessageWithoutLocation message))
               fetchedMessages
             ++ synopsisRest) in
        _getAedocSynopsis collector astDeclaration fetchedMessages r0
        = Returns aedocSynopsis r1
        /\ modifyDeclarationSpan collector options fuel entity astDeclaration r1
           = Returns span r2
        /\ added
           = [ W_ensureSkippedLine; W_write aedocSynopsis;
               W_write (getModifiedText span); W_ensureNewLine ] ++ added'
        /\ declarationsWritten collector options fuel entity rest r2 added' r'
  end.

(** ** A worked example

    The declaration [declare class Foo { bar: Baz; }], a collector around
    it and a plain line writer, to run the definitions on. *)

Definition demo_tags : ReleaseTagEnum :=
  {| ReleaseTag_None := 0;
     ReleaseTag_Alpha := 2;
     ReleaseTag_Beta := 3;
     ReleaseTag_Public := 4;
     ReleaseTag_getTagName :=
       fun tag =>
         if tag =? 1 then str "@internal"
         else if tag =? 2 then str "@alpha"
         else if tag =? 3 then str "@beta"
         else if tag =? 4 then str "@public"
         else [];
     ReleaseTag_order := conj eq_refl (conj eq_refl eq_refl) |}.

Definition ClassDeclaration : SyntaxKind := OtherKind 263.
Definition PropertyDeclaration : SyntaxKind := OtherKind 172.
Definition TypeReference : SyntaxKind := OtherKind 183.
Definition OpenBraceToken : SyntaxKind := OtherKind 19.
Definition CloseBraceToken : SyntaxKind := OtherKind 20.
Definition ColonToken : SyntaxKind := OtherKind 59.
Definition SemicolonToken : SyntaxKind := OtherKind 27.
Definition NamespaceImport : SyntaxKind := OtherKind 274.

Definition demo_analyzer : Analyzer :=
  {| ModifierFlags_Private := 8;
     isSupportedSyntaxKind :=
       fun k =>
         SyntaxKind_eqb k ClassDeclaration
         || SyntaxKind_eqb k PropertyDeclaration
         || SyntaxKind_eqb k VariableDeclaration;
     getSortKeyIgnoringUnderscore := fun name => name;
     matchAncestor_VariableDeclarationList := fun _ => None;
     Text_convertToLf := crlf_to_lf;
     formatDeclaration := fun _ => str "demo.d.ts:1:1" |}.

(** A line writer: it indents by four spaces, drops the leading spaces of
    a line when asked to, and keeps every other character. *)
Record demo_WriterState : Type := {
  dw_text : jstring;
  dw_indent : nat;
  dw_trim : bool
}.

Definition demo_atLineStart (text : jstring) : bool :=
  match rev text with
  | [] => true
  | c :: _ => N.eqb c 10
  end.

Fixpoint demo_dropSpaces (s : jstring) : jstring :=
  match s with
  | c :: r => if N.eqb c 32 then demo_dropSpaces r else s
  | [] => []
  end.

Definition demo_writePart (st : demo_WriterState) (part : jstring) : demo_WriterState :=
  let start := demo_atLineStart (dw_text st) in
  let part := if dw_trim st && start then demo_dropSpaces part else part in
  match part with
  | [] => st
  | _ :: _ =>
      {| dw_text :=
           dw_text st ++ (if start then repeat SP (4 * dw_indent st) else []) ++ part;
         dw_indent := dw_indent st;
         dw_trim := dw_trim st |}
  end.

Definition demo_newLine (st : demo_WriterState) : demo_WriterState :=
  {| dw_text := dw_text st ++ [LF]; dw_indent := dw_indent st; dw_trim := dw_trim st |}.

Definition demo_write (st : demo_WriterState) (message : jstring) : demo_WriterState :=
  match split_on LF message with
  | [] => st
  | p :: ps =>
      fold_left (fun st q => demo_writePart (demo_newLine st) q) ps (demo_writePart st p)
  end.

Definition demo_ensureNewLine (st : demo_WriterState) : demo_WriterState :=
  if demo_atLineStart (dw_text st) then st else demo_newLine st.

Definition demo_ensureSkippedLine (st : demo_WriterState) : demo_WriterState :=
  let st := demo_ensureNewLine st in
  match rev (dw_text st) with
  | [] => st
  | [_] => demo_newLine st
  | _ :: c :: _ => if N.eqb c 10 then st else demo_newLine st
  end.

Definition demo_setIndent (st : demo_WriterState) (n : nat) : demo_WriterState :=
  {| dw_text := dw_text st; dw_indent := n; dw_trim := dw_trim st |}.

Definition demo_step (st : demo_WriterState) (c : WriterCall) : demo_WriterState :=
  match c with
  | W_trimLeadingSpaces b =>
      {| dw_text := dw_text st; dw_indent := dw_indent st; dw_trim := b |}
  | W_write message => demo_write st message
  | W_writeLine message => demo_newLine (demo_write st message)
  | W_ensureNewLine => demo_ensureNewLine st
  | W_ensureSkippedLine => demo_ensureSkippedLine st
  | W_increaseIndent => demo_setIndent st (S (dw_indent st))
  | W_decreaseIndent => demo_setIndent st (pred (dw_indent st))
  | W_emitImport entity modulePath =>
      demo_newLine
        (demo_write st
           (str "import { " ++ template (nameForEmit entity) ++ str " } from '"
            ++ modulePath ++ str "';"))
  | W_emitNamedExport exportName _ =>
      demo_newLine (demo_write st (str "export { " ++ exportName ++ str " }"))
  | W_emitStarExports => st
  end.

Definition demo_toString (writer : IndentedWriter) : jstring :=
  dw_text
    (fold_left demo_step writer {| dw_text := []; dw_indent := 0; dw_trim := false |}).

Definition demo_emitter : Emitter :=
  {| IndentedWriter_toString := demo_toString;
     modifyImportTypeSpan := fun R _ span _ _ => ret span |}.

Definition demo_text : jstring := str "declare class Foo { bar: Baz; }".

Definition demo_bar : Node :=
  mkNode PropertyDeclaration 20 29
    [ mkNode Identifier 20 23 [];
      mkNode ColonToken 23 24 [];
      mkNode TypeReference 25 28 [mkNode Identifier 25 28 []];
      mkNode SemicolonToken 28 29 [] ].

Definition demo_class : Node :=
  mkNode ClassDeclaration 0 31
    [ mkNode SyntaxList 0 7 [mkNode DeclareKeyword 0 7 []];
      mkNode ClassKeyword 8 13 [];
      mkNode Identifier 14 17 [];
      mkNode OpenBraceToken 18 19 [];
      mkNode SyntaxList 20 29 [demo_bar];
      mkNode CloseBraceToken 30 31 [] ].

(** [import x = y;], a declaration with two Identifier children, and
    [constructor();], a declaration without one. *)
Definition ImportEqualsDeclaration : SyntaxKind := OtherKind 271.
Definition ImportKeyword : SyntaxKind := OtherKind 102.
Definition Constructor : SyntaxKind := OtherKind 176.
Definition ConstructorKeyword : SyntaxKind := OtherKind 137.
Definition OpenParenToken : SyntaxKind := OtherKind 21.
Definition CloseParenToken : SyntaxKind := OtherKind 22.

Definition demo_import_text : jstring := str "import x = y;".

Definition demo_import_equals : Node :=
  mkNode ImportEqualsDeclaration 0 13
    [ mkNode ImportKeyword 0 6 [];
      mkNode Identifier 7 8 [];
      mkNode (OtherKind 64) 9 10 [];
      mkNode Identifier 11 12 [];
      mkNode SemicolonToken 12 13 [] ].

Definition demo_constructor_text : jstring := str "constructor();".

Definition demo_constructor : Node :=
  mkNode Constructor 0 14
    [ mkNode ConstructorKeyword 0 11 [];
      mkNode OpenParenToken 11 12 [];
      mkNode SyntaxList 12 12 [];
      mkNode CloseParenToken 12 13 [];
      mkNode SemicolonToken 13 14 [] ].

Definition demo_Foo_declaration : AstDeclaration :=
  {| modifierFlags := 0; astSymbol_localName := str "Foo"; declaration := demo_class |}.

Definition demo_bar_declaration : AstDeclaration :=
  {| modifierFlags := 0; astSymbol_localName := str "bar"; declaration := demo_bar |}.

Definition demo_private_declaration : AstDeclaration :=
  {| modifierFlags := 8; astSymbol_localName := str "secret"; declaration := demo_bar |}.

Definition demo_Preapproved_declaration : AstDeclaration :=
  {| modifierFlags := 0; astSymbol_localName := str "Pre"; declaration := demo_class |}.

Definition demo_Foo (inlined : bool) : CollectorEntity :=
  {| astEntity := AstSymbol (str "Foo") [demo_Foo_declaration];
     consumable := true;
     exportNames := [str "Foo"];
     shouldInlineExport := inlined;
     nameForEmit := Some (str "Foo") |}.

Definition demo_Baz : CollectorEntity :=
  {| astEntity := AstImport (str "baz-lib") (str "Baz");
     consumable := false;
     exportNames := [];
     shouldInlineExport := false;
     nameForEmit := Some (str "Baz_2") |}.

Definition demo_namespace_import : AstNamespaceImport :=
  {| namespace_localName := str "ns";
     namespace_declaration := mkNode NamespaceImport 0 0 [] |}.

Definition demo_namespace (isConsumable : bool) : CollectorEntity :=
  {| astEntity := AstNamespaceImport_ demo_namespace_import;
     consumable := isConsumable;
     exportNames := [str "ns"];
     shouldInlineExport := false;
     nameForEmit := Some (str "ns") |}.

Definition demo_message (text : string) (forExport : option jstring) : ExtractorMessage :=
  {| properties_exportName := forExport;
     formatMessageWithoutLocation := str text;
     formatMessageWithLocation := fun _ => str text |}.

Definition demo_metadata (astDeclaration : AstDeclaration) : ApiItemMetadata :=
  {| effectiveReleaseTag :=
       if jstring_eqb (astSymbol_localName astDeclaration) (str "bar") then 3 else 4;
     releaseTagSameAsParent := false;
     isSealed := false;
     isVirtual := false;
     isOverride := false;
     isEventProperty := false;
     isPreapproved := jstring_eqb (astSymbol_localName astDeclaration) (str "Pre");
     tsdocComment := None;
     undocumented := false |}.

(** The router of the example keeps the issues added to it; the messages
    it hands out are fixed. *)
Definition demo_collector (all : list CollectorEntity)
    (associated unassociated : list ExtractorMessage) : Collector (list jstring) :=
  {| workingPackage_name := str "demo";
     workingPackage_packageFolder := str "/demo";
     workingPackage_tsdocComment := Some {| deprecatedBlock := false |};
     dtsTypeReferenceDirectives := [str "node"; str "jest"];
     dtsLibReferenceDirectives := [];
     entities := all;
     apiReportIncludeForgottenExports := false;
     sourceFileText := fun _ => demo_text;
     fetchApiItemMetadata := demo_metadata;
     isAncillaryDeclaration := fun _ => false;
     tryGetEntityForNode :=
       fun n =>
         if SyntaxKind_eqb (node_kind n) Identifier && Nat.eqb (getStart n) 25
         then Some demo_Baz else None;
     tryGetCollectorEntity := fun _ => None;
     getChildAstDeclarationByNode :=
       fun n _ =>
         if SyntaxKind_eqb (node_kind n) PropertyDeclaration
         then Ok demo_bar_declaration
         else Throw (InternalError (str "Child declaration not found"));
     fetchAstModuleExportInfo :=
       fun _ => {| starExportedExternalModules := [str "external-pkg"];
                   exportedLocalEntities := [] |};
     fetchAssociatedMessagesForReviewFile :=
       fun d r =>
         (if jstring_eqb (astSymbol_localName d) (str "Foo") then associated else [], r);
     fetchUnassociatedMessagesForReviewFile := fun r => (unassociated, r);
     addAnalyzerIssue_Undocumented := fun text _ r => r ++ [text] |}.

Definition demo_options (level : Z) : IApiReportOptions := {| releaseLevel := level |}.

Definition demo_run (collector : Collector (list jstring)) (level : Z)
    : outcome (list jstring) jstring :=
  @generateReviewFileContent demo_analyzer demo_tags demo_emitter _
    collector (demo_options level) 10 [].

Definition report_of (o : outcome (list jstring) jstring) : jstring :=
  match o with
  | Returns report _ => report
  | _ => []
  end.

(** The report of the class at the public level, with one warning that
    names the export [Foo], once with the export inlined and once not. *)
Definition demo_warning : ExtractorMessage :=
  demo_message "ae-demo: about the export" (Some (str "Foo")).

Definition demo_report_inlined : jstring :=
  Eval vm_compute in
    report_of (demo_run (demo_collector [demo_Baz; demo_Foo true] [demo_warning] [])
                 ApiReportReleaseLevel.Public).

Definition demo_report_exported : jstring :=
  Eval vm_compute in
    report_of (demo_run (demo_collector [demo_Baz; demo_Foo false] [demo_warning] [])
                 ApiReportReleaseLevel.Public).

(** A warning without a declaration whose text ends with a tab. *)
Definition demo_tab_warning : ExtractorMessage :=
  {| properties_exportName := None;
     formatMessageWithoutLocation := str "ae-demo" ++ [TAB];
     formatMessageWithLocation := fun _ => str "ae-demo" ++ [TAB] |}.

Definition demo_report_tab : jstring :=
  Eval vm_compute in
    report_of (demo_run (demo_collector [] [] [demo_tab_warning])
                 ApiReportReleaseLevel.Untrimmed).

(** The calls made on the writer in the run with the export inlined. *)
Definition demo_writer_inlined : IndentedWriter :=
  Eval vm_compute in
    match @assembleReport demo_analyzer demo_tags demo_emitter _
            (demo_collector [demo_Baz; demo_Foo true] [demo_warning] [])
            (demo_options ApiReportReleaseLevel.Public) 10 [] with
    | Returns writer _ => writer
    | _ => []
    end.

(** The span of the identifier [Baz] in the example. *)
Definition demo_Baz_node : Node := mkNode Identifier 25 28 [].

(** The depth of a span tree, and the trees without an ImportType span. *)
Fixpoint height (s : Span) : nat :=
  match s with
  | mkSpan _ _ _ _ _ _ cs _ => S (fold_right (fun c h => Nat.max (height c) h) 0%nat cs)
  end.

Fixpoint noImportType (s : Span) : bool :=
  match s with
  | mkSpan n _ _ _ _ _ cs _ =>
      negb (SyntaxKind_eqb (node_kind n) ImportType) && forallb noImportType cs
  end.

(** Two spans that differ in their overlay only. *)
Definition sameTree (s s' : Span) : Prop :=
  span_node s' = span_node s /\ span_children s' = span_children s.

(** ** Further auxiliary definitions *)

(** [a <= b] on strings. *)
Definition jstring_leb (a b : jstring) : bool := negb (jstring_ltb b a).

(** A span without its overlays: the syntax tree and the text behind it. *)
Fixpoint erase (s : Span) : Span :=
  match s with
  | mkSpan n a b pre suf sep cs _ =>
      mkSpan n a b pre suf sep (List.map erase cs) SpanModification_reset
  end.

(** The export statements among the calls made on a writer. *)
Definition namedExports (writer : IndentedWriter) : list (jstring * CollectorEntity) :=
  flat_map
    (fun c => match c with W_emitNamedExport n e => [(n, e)] | _ => [] end)
    writer.

(** The names of a list without their repetitions. *)
Fixpoint firstOccurrences (names : list jstring) : list jstring :=
  match names with
  | [] => []
  | x :: rest => x :: filter (fun y => negb (jstring_eqb x y)) (firstOccurrences rest)
  end.

(** [key] is among [keys]. *)
Definition isKey (keys : list jstring) (key : jstring) : bool :=
  existsb (fun k => jstring_eqb k key) keys.

(** The messages that wait at the export statements. *)
Definition pendingMessages (exportsToEmit : JsMap IExportToEmit) : list ExtractorMessage :=
  concat (List.map associatedMessages (Map_values exportsToEmit)).

(** The message names an export statement that is to be emitted. *)
Definition namesPendingExport (exportsToEmit : JsMap IExportToEmit)
    (message : ExtractorMessage) : bool :=
  match properties_exportName message with
  | Some (c :: name) => isKey (List.map fst exportsToEmit) (c :: name)
  | Some [] | None => false
  end.

(** The clause of an exported entity in the synthetic namespace. *)
Definition namespaceClause {R : Type} (collector : Collector R)
    (entry : jstring * AstEntity) : jstring :=
  match tryGetCollectorEntity collector (snd entry) with
  | Some collectorEntity =>
      match nameForEmit collectorEntity with
      | Some name =>
          if jstring_eqb name (fst entry) then name
          else name ++ str " as " ++ fst entry
      | None => str "undefined as " ++ fst entry
      end
  | None => []
  end.

Definition startsWithWhiteSpace (text : jstring) : bool :=
  match text with
  | c :: _ => isWhiteSpace c
  | [] => false
  end.

(** A call that writes text or moves the indentation. *)
Definition isTextCall (c : WriterCall) : Prop :=
  match c with
  | W_emitImport _ _ | W_emitNamedExport _ _ | W_emitStarExports => False
  | _ => True
  end.

(** A call that writes text, moves the indentation or emits an export
    statement. *)
Definition isTextOrExport (c : WriterCall) : Prop :=
  match c with
  | W_emitImport _ _ | W_emitStarExports => False
  | _ => True
  end.

(** The children of the span are to be sorted: the span is a list whose
    parent is an API declaration or the block of a namespace. *)
Definition sortsChildren `{Analyzer} (parent : option SyntaxKind) (span : Span) : bool :=
  SyntaxKind_eqb (span_kind span) SyntaxList
  && match parent with
     | Some parentKind =>
         isSupportedSyntaxKind parentKind || SyntaxKind_eqb parentKind ModuleBlock
     | None => false
     end.

(** The declaration of [child] when the child is an API declaration that
    the filter keeps. *)
Definition includedMember `{Analyzer} `{ReleaseTagEnum} {R : Type}
    (collector : Collector R) (level : Z) (astDeclaration : AstDeclaration)
    (child : Span) : option AstDeclaration :=
  if isSupportedSyntaxKind (span_kind child) then
    match getChildAstDeclarationByNode collector (span_node child) astDeclaration with
    | Ok childAstDeclaration =>
        match _shouldIncludeInReport collector childAstDeclaration level with
        | Ok true => Some childAstDeclaration
        | _ => None
        end
    | Throw _ => None
    end
  else None.

(** The sort key of [child] once its parent has looked at it. *)
Definition assignedSortKey `{Analyzer} `{ReleaseTagEnum} {R : Type}
    (collector : Collector R) (level : Z) (astDeclaration : AstDeclaration)
    (sorting : bool) (child : Span) : option jstring :=
  match includedMember collector level astDeclaration child with
  | Some childAstDeclaration =>
      if sorting
      then Some (getSortKeyIgnoringUnderscore (astSymbol_localName childAstDeclaration))
      else sortKey (modification child)
  | None => sortKey (modification child)
  end.

Definition isIncludedMember `{Analyzer} `{ReleaseTagEnum} {R : Type}
    (collector : Collector R) (level : Z) (astDeclaration : AstDeclaration)
    (child : Span) : bool :=
  match includedMember collector level astDeclaration child with
  | Some _ => true
  | None => false
  end.

(** The kinds of span on which the switch of [_modifySpan] does nothing
    to the text of the span or of its previous sibling. *)
Definition keepsItsPrefix (kind : SyntaxKind) : bool :=
  match kind with
  | JSDocComment | ExportKeyword | DefaultKeyword | DeclareKeyword
  | InterfaceKeyword | ClassKeyword | EnumKeyword | NamespaceKeyword
  | ModuleKeyword | TypeKeyword | FunctionKeyword
  | SyntaxList | Identifier | ImportType => false
  | _ => true
  end.

(** ** Further examples *)

(** The example collector with other look-ups. *)
Definition demo_variant
    (resolve : Node -> option CollectorEntity)
    (lookup : AstEntity -> option CollectorEntity)
    (info : AstNamespaceImport -> AstModuleExportInfo)
    (all : list CollectorEntity) : Collector (list jstring) :=
  let base := demo_collector all [] [] in
  {| workingPackage_name := workingPackage_name base;
     workingPackage_packageFolder := workingPackage_packageFolder base;
     workingPackage_tsdocComment := workingPackage_tsdocComment base;
     dtsTypeReferenceDirectives := dtsTypeReferenceDirectives base;
     dtsLibReferenceDirectives := dtsLibReferenceDirectives base;
     entities := entities base;
     apiReportIncludeForgottenExports := apiReportIncludeForgottenExports base;
     sourceFileText := sourceFileText base;
     fetchApiItemMetadata := fetchApiItemMetadata base;
     isAncillaryDeclaration := isAncillaryDeclaration base;
     tryGetEntityForNode := resolve;
     tryGetCollectorEntity := lookup;
     getChildAstDeclarationByNode := getChildAstDeclarationByNode base;
     fetchAstModuleExportInfo := info;
     fetchAssociatedMessagesForReviewFile := fetchAssociatedMessagesForReviewFile base;
     fetchUnassociatedMessagesForReviewFile :=
       fetchUnassociatedMessagesForReviewFile base;
     addAnalyzerIssue_Undocumented := addAnalyzerIssue_Undocumented base |}.

(** An entity without a name to emit, and a collector that resolves every
    identifier to it. *)
Definition demo_nameless : CollectorEntity :=
  {| astEntity := AstImport (str "baz-lib") (str "Baz");
     consumable := false;
     exportNames := [];
     shouldInlineExport := false;
     nameForEmit := None |}.

Definition demo_nameless_collector : Collector (list jstring) :=
  demo_variant (fun _ => Some demo_nameless) (fun _ => None)
    (fetchAstModuleExportInfo (demo_collector [] [] [])) [].

(** The declaration [x = 1] of [const x = 1, y = 2], with and without its
    declaration list. *)
Definition demo_variable_text : jstring := str "const x = 1, y = 2".

Definition EqualsToken : SyntaxKind := OtherKind 64.
Definition NumericLiteral : SyntaxKind := OtherKind 9.

Definition demo_variable : Node :=
  mkNode VariableDeclaration 6 11
    [ mkNode Identifier 6 7 []; mkNode EqualsToken 8 9 [];
      mkNode NumericLiteral 10 11 [] ].

Definition demo_variable_analyzer : Analyzer :=
  {| ModifierFlags_Private := 8;
     isSupportedSyntaxKind := @isSupportedSyntaxKind demo_analyzer;
     getSortKeyIgnoringUnderscore := fun name => name;
     matchAncestor_VariableDeclarationList :=
       fun _ => Some (demo_variable_text, 0%nat, 6%nat);
     Text_convertToLf := crlf_to_lf;
     formatDeclaration := fun _ => str "demo.d.ts:1:1" |}.

(** A namespace that exports [Foo] under two names, and one that exports
    an entity the collector does not know. *)
Definition demo_broken_namespace_import : AstNamespaceImport :=
  {| namespace_localName := str "broken";
     namespace_declaration := mkNode NamespaceImport 0 0 [] |}.

Definition demo_namespace_collector : Collector (list jstring) :=
  demo_variant
    (tryGetEntityForNode (demo_collector [] [] []))
    (fun e =>
       if jstring_eqb (entity_localName e) (str "Foo")
       then Some (demo_Foo false) else None)
    (fun ns =>
       {| starExportedExternalModules := [];
          exportedLocalEntities :=
            if jstring_eqb (namespace_localName ns) (str "ns")
            then [ (str "Foo", AstSymbol (str "Foo") [demo_Foo_declaration]);
                   (str "Bar", AstSymbol (str "Foo") [demo_Foo_declaration]) ]
            else [ (str "Foo", AstSymbol (str "Foo") [demo_Foo_declaration]);
                   (str "Gone", AstImport (str "missing-lib") (str "Missing")) ] |})
    [].

(** The calls made on the writer in the run with the export not inlined. *)
Definition demo_writer_exported : IndentedWriter :=
  Eval vm_compute in
    match @assembleReport demo_analyzer demo_tags demo_emitter _
            (demo_collector [demo_Baz; demo_Foo false] [demo_warning] [])
            (demo_options ApiReportReleaseLevel.Public) 10 [] with
    | Returns writer _ => writer
    | _ => []
    end.

(** The members of the class of the example, as a span. *)
Definition demo_members : Span :=
  new_Span_at demo_text (mkNode SyntaxList 20 29 [demo_bar]) 30.

(** * Properties *)

(** ** Strings *)

Lemma jstring_eqb_eq (a b : jstring) : jstring_eqb a b = true <-> a = b.
Proof.
  revert b. induction a as [|x a IH]; intros [|y b]; simpl; split; intro E;
    try reflexivity; try discriminate.
  - apply andb_true_iff in E. destruct E as [E1 E2].
    apply N.eqb_eq in E1. apply IH in E2. congruence.
  - injection E as -> ->. apply andb_true_iff. split.
    + apply N.eqb_refl.
    + apply IH. reflexivity.
Qed.

Lemma jstring_eqb_neq (a b : jstring) : jstring_eqb a b = false <-> a <> b.
Proof.
  split.
  - intros E F. apply jstring_eqb_eq in F. congruence.
  - intros F. destruct (jstring_eqb a b) eqn:E; [|reflexivity].
    apply jstring_eqb_eq in E. contradiction.
Qed.

Lemma substring_le (t : jstring) (a b : nat) :
  (a <= b)%nat -> substring t a b = firstn (b - a) (skipn a t).
Proof.
  intros L. unfold substring.
  rewrite Nat.min_l, Nat.max_r by lia. reflexivity.
Qed.

Lemma firstn_plus {A : Type} (n m : nat) (l : list A) :
  firstn (n + m) l = firstn n l ++ firstn m (skipn n l).
Proof.
  revert l. induction n as [|n IH]; intros l.
  - reflexivity.
  - destruct l as [|x l].
    + simpl. rewrite firstn_nil. reflexivity.
    + simpl. rewrite IH. reflexivity.
Qed.

Lemma substring_app (t : jstring) (a b c : nat) :
  (a <= b)%nat -> (b <= c)%nat ->
  substring t a b ++ substring t b c = substring t a c.
Proof.
  intros L1 L2. rewrite !substring_le by lia.
  replace (c - a)%nat with ((b - a) + (c - b))%nat by lia.
  rewrite firstn_plus. f_equal.
  rewrite skipn_skipn. f_equal. f_equal. lia.
Qed.

Lemma substring_empty (t : jstring) (a : nat) : substring t a a = [].
Proof. rewrite substring_le by lia. rewrite Nat.sub_diag. reflexivity. Qed.

(** ** The whitespace-insensitive comparison *)

Lemma match_whitespace_run_cons (c : char) (r : jstring) :
  match_whitespace_run (c :: r)
  = if isWhiteSpace c then Some (S (whitespace_run_length r)) else None.
Proof.
  unfold whitespace_run_length. simpl.
  destruct (isWhiteSpace c); [|reflexivity].
  destruct (match_whitespace_run r) as [n|] eqn:E; [reflexivity|].
  reflexivity.
Qed.

Lemma whitespace_run_length_cons (c : char) (r : jstring) :
  whitespace_run_length (c :: r)
  = if isWhiteSpace c then S (whitespace_run_length r) else 0%nat.
Proof.
  unfold whitespace_run_length at 1. rewrite match_whitespace_run_cons.
  destruct (isWhiteSpace c); reflexivity.
Qed.

Lemma replace_whitespace_scan (s : jstring) :
  replace_from match_whitespace_run [SP] 0 s = collapse_scan false s
  /\ replace_from match_whitespace_run [SP] (whitespace_run_length s) s
     = collapse_scan true s.
Proof.
  induction s as [|c r [IH0 IH1]].
  - split; reflexivity.
  - assert (E0 : replace_from match_whitespace_run [SP] 0 (c :: r)
                 = collapse_scan false (c :: r)).
    { cbn [replace_from collapse_scan]. rewrite match_whitespace_run_cons.
      destruct (isWhiteSpace c).
      - cbn [app]. rewrite IH1. reflexivity.
      - rewrite IH0. reflexivity. }
    split; [exact E0|].
    rewrite whitespace_run_length_cons.
    destruct (isWhiteSpace c) eqn:W.
    + cbn [replace_from collapse_scan]. rewrite W. exact IH1.
    + rewrite E0. cbn [collapse_scan]. rewrite W. reflexivity.
Qed.

Lemma normalizeWhitespace_scan (s : jstring) :
  normalizeWhitespace s = collapse_scan false s.
Proof. apply replace_whitespace_scan. Qed.

Lemma maximal_runs_head (c : char) (r : jstring) :
  exists run rest, maximal_runs (c :: r) = (isWhiteSpace c, c :: run) :: rest.
Proof.
  simpl. destruct (maximal_runs r) as [|[w run] rest].
  - exists [], []. reflexivity.
  - destruct (Bool.eqb w (isWhiteSpace c)) eqn:E.
    + apply eqb_prop in E. subst w. exists run, rest. reflexivity.
    + exists [], ((w, run) :: rest). reflexivity.
Qed.

Lemma collapse_spec_scan (s : jstring) :
  collapse_whitespace_spec s = collapse_scan false s
  /\ collapse_scan true s
     = match s with
       | c :: _ => if isWhiteSpace c then tl (collapse_whitespace_spec s)
                   else collapse_whitespace_spec s
       | [] => []
       end.
Proof.
  induction s as [|c r [IH0 IH1]].
  - split; reflexivity.
  - assert (E : collapse_whitespace_spec (c :: r)
                = if isWhiteSpace c then SP :: collapse_scan true r
                  else c :: collapse_scan false r).
    { destruct r as [|d r'].
      - unfold collapse_whitespace_spec. simpl.
        unfold collapse_run. simpl. destruct (isWhiteSpace c); reflexivity.
      - destruct (maximal_runs_head d r') as (run & rest & Hd).
        unfold collapse_whitespace_spec in *.
        change (maximal_runs (c :: d :: r'))
          with (match maximal_runs (d :: r') with
                | (w, run) :: rest =>
                    if Bool.eqb w (isWhiteSpace c) then (w, c :: run) :: rest
                    else (isWhiteSpace c, [c]) :: (w, run) :: rest
                | [] => [(isWhiteSpace c, [c])]
                end).
        rewrite Hd in *.
        destruct (isWhiteSpace c) eqn:Wc, (isWhiteSpace d) eqn:Wd;
          cbn [Bool.eqb List.map concat collapse_run fst snd app] in *;
          rewrite ?IH1, <- ?IH0; cbn [tl app]; reflexivity. }
    split.
    + rewrite E. cbn [collapse_scan]. destruct (isWhiteSpace c); reflexivity.
    + cbn [collapse_scan]. rewrite E.
      destruct (isWhiteSpace c); reflexivity.
Qed.

Lemma normalizeWhitespace_spec (s : jstring) :
  normalizeWhitespace s = collapse_whitespace_spec s.
Proof.
  rewrite normalizeWhitespace_scan. symmetry. apply collapse_spec_scan.
Qed.

(** The state of the scan behind [x]. *)
Definition scan_state (inRun : bool) (x : jstring) : bool :=
  match rev x with
  | c :: _ => isWhiteSpace c
  | [] => inRun
  end.

Lemma scan_state_cons (b : bool) (c : char) (x : jstring) :
  scan_state b (c :: x) = scan_state (isWhiteSpace c) x.
Proof.
  unfold scan_state. simpl.
  destruct (rev x) as [|d l] eqn:E; reflexivity.
Qed.

Lemma collapse_scan_app (b : bool) (x y : jstring) :
  collapse_scan b (x ++ y) = collapse_scan b x ++ collapse_scan (scan_state b x) y.
Proof.
  revert b. induction x as [|c x IH]; intros b.
  - reflexivity.
  - rewrite scan_state_cons. cbn [app collapse_scan].
    destruct (isWhiteSpace c) eqn:W.
    + destruct b; rewrite IH; reflexivity.
    + rewrite IH. reflexivity.
Qed.

Lemma collapse_scan_whitespace (b : bool) (w : jstring) :
  allWhiteSpace w = true -> w <> [] ->
  collapse_scan b w = (if b then [] else [SP]) /\ scan_state b w = true.
Proof.
  revert b. induction w as [|c w IH]; intros b A N; [contradiction|].
  simpl in A. apply andb_true_iff in A. destruct A as [Wc A].
  rewrite scan_state_cons. cbn [collapse_scan]. rewrite Wc.
  destruct w as [|d w'].
  - destruct b; split; reflexivity.
  - destruct (IH true A ltac:(discriminate)) as [E1 E2].
    rewrite E1, E2. destruct b; split; reflexivity.
Qed.

Lemma collapse_scan_token (b : bool) (t : jstring) :
  noWhiteSpace t = true ->
  collapse_scan b t = t /\ (t <> [] -> scan_state b t = false).
Proof.
  revert b. induction t as [|c t IH]; intros b A.
  - split; [reflexivity | intros N; contradiction].
  - simpl in A. apply andb_true_iff in A. destruct A as [Wc A].
    apply negb_true_iff in Wc.
    rewrite scan_state_cons. cbn [collapse_scan]. rewrite Wc.
    destruct (IH false A) as [E1 E2]. rewrite E1. split; [reflexivity|].
    intros _. destruct t as [|d t'].
    + reflexivity.
    + apply E2. discriminate.
Qed.

Lemma collapse_scan_length (s : jstring) :
  (List.length (collapse_scan true s) <= List.length (collapse_scan false s))%nat.
Proof.
  destruct s as [|c r]; simpl; [lia|].
  destruct (isWhiteSpace c); simpl; lia.
Qed.

Lemma whitespace_runs_equivalent (s1 s2 w1 w2 : jstring) :
  allWhiteSpace w1 = true -> w1 <> [] ->
  allWhiteSpace w2 = true -> w2 <> [] ->
  areEquivalentApiFileContents (s1 ++ w1 ++ s2) (s1 ++ w2 ++ s2) = true.
Proof.
  intros A1 N1 A2 N2. unfold areEquivalentApiFileContents.
  apply jstring_eqb_eq. rewrite !normalizeWhitespace_scan.
  rewrite !collapse_scan_app.
  destruct (collapse_scan_whitespace (scan_state false s1) w1 A1 N1) as [E1 F1].
  destruct (collapse_scan_whitespace (scan_state false s1) w2 A2 N2) as [E2 F2].
  rewrite E1, E2, F1, F2. reflexivity.
Qed.

Lemma collapse_scan_crlf (s : jstring) :
  forall b, collapse_scan b (crlf_to_lf s) = collapse_scan b s.
Proof.
  induction s as [|c r IH]; intros b; [reflexivity|].
  destruct r as [|d r'].
  - reflexivity.
  - change (crlf_to_lf (c :: d :: r'))
      with (if N.eqb c 13 && N.eqb d 10 then crlf_to_lf (d :: r')
            else c :: crlf_to_lf (d :: r')).
    destruct (N.eqb c 13 && N.eqb d 10) eqn:E.
    + apply andb_true_iff in E. destruct E as [Ec Ed].
      apply N.eqb_eq in Ec, Ed. subst c d.
      rewrite IH. destruct b; reflexivity.
    + cbn [collapse_scan].
      destruct (isWhiteSpace c); [destruct b|]; rewrite IH; reflexivity.
Qed.

Lemma tokens_not_equivalent (s1 s2 t t' : jstring) :
  noWhiteSpace t = true -> noWhiteSpace t' = true -> t <> t' ->
  areEquivalentApiFileContents (s1 ++ t ++ s2) (s1 ++ t' ++ s2) = false.
Proof.
  intros A A' N. unfold areEquivalentApiFileContents.
  apply jstring_eqb_neq. rewrite !normalizeWhitespace_scan.
  rewrite !collapse_scan_app. intros E. apply app_inv_head in E.
  destruct (collapse_scan_token (scan_state false s1) t A) as [E1 F1].
  destruct (collapse_scan_token (scan_state false s1) t' A') as [E2 F2].
  rewrite E1, E2 in E.
  pose proof (collapse_scan_length s2) as L.
  destruct t as [|c t0], t' as [|c' t0'].
  - contradiction.
  - rewrite (F2 ltac:(discriminate)) in E.
    apply (f_equal (@List.length char)) in E.
    change (scan_state (scan_state false s1) []) with (scan_state false s1) in E.
    cbn [app List.length] in E. rewrite length_app in E.
    destruct (scan_state false s1); lia.
  - rewrite (F1 ltac:(discriminate)) in E.
    apply (f_equal (@List.length char)) in E.
    change (scan_state (scan_state false s1) []) with (scan_state false s1) in E.
    cbn [app List.length] in E. rewrite length_app in E.
    destruct (scan_state false s1); lia.
  - rewrite (F1 ltac:(discriminate)), (F2 ltac:(discriminate)) in E.
    apply app_inv_tail in E. contradiction.
Qed.

(** C3: [areEquivalentApiFileContents] holds exactly when the two documents
    agree once every maximal run of whitespace is one space; so documents
    that differ in a run of whitespace (blank lines added or removed) or in
    CRLF against LF are equivalent, and documents that differ in one token
    are not. *)
Theorem areEquivalentApiFileContents_collapses_whitespace :
  (forall a b : jstring,
      areEquivalentApiFileContents a b = true
      <-> collapse_whitespace_spec a = collapse_whitespace_spec b)
  /\ (forall s1 s2 w1 w2 : jstring,
         allWhiteSpace w1 = true -> w1 <> [] ->
         allWhiteSpace w2 = true -> w2 <> [] ->
         areEquivalentApiFileContents (s1 ++ w1 ++ s2) (s1 ++ w2 ++ s2) = true)
  /\ (forall s1 s2 : jstring,
         areEquivalentApiFileContents (s1 ++ [LF] ++ s2) (s1 ++ [LF; LF] ++ s2) = true)
  /\ (forall s : jstring, areEquivalentApiFileContents s (crlf_to_lf s) = true)
  /\ (forall s1 s2 t t' : jstring,
         noWhiteSpace t = true -> noWhiteSpace t' = true -> t <> t' ->
         areEquivalentApiFileContents (s1 ++ t ++ s2) (s1 ++ t' ++ s2) = false).
Proof.
  split; [|split; [|split; [|split]]].
  - intros a b. unfold areEquivalentApiFileContents.
    rewrite jstring_eqb_eq, !normalizeWhitespace_spec. reflexivity.
  - exact whitespace_runs_equivalent.
  - intros s1 s2. apply whitespace_runs_equivalent;
      solve [reflexivity | discriminate].
  - intros s. unfold areEquivalentApiFileContents. apply jstring_eqb_eq.
    rewrite !normalizeWhitespace_scan, collapse_scan_crlf. reflexivity.
  - exact tokens_not_equivalent.
Qed.

(** ** The trimming of trailing spaces *)

Lemma space_not_line_terminator (c : char) :
  N.eqb c 32 = true -> isLineTerminator c = false.
Proof. intros E. apply N.eqb_eq in E. subst c. reflexivity. Qed.

Lemma at_end_of_line_spaces (s : jstring) :
  at_end_of_line s = true -> spaces_to_end_of_line s = true.
Proof.
  destruct s as [|c r]; simpl; [reflexivity|]. intros E.
  destruct (N.eqb c 32) eqn:S32; [|exact E].
  rewrite (space_not_line_terminator c S32) in E. discriminate.
Qed.

Lemma match_trailing_spaces_cons (c : char) (r : jstring) :
  match_trailing_spaces (c :: r)
  = if N.eqb c 32 && spaces_to_end_of_line r
    then Some (S (leading_spaces r)) else None.
Proof.
  revert c. induction r as [|d r IH]; intros c.
  - simpl. destruct (N.eqb c 32); reflexivity.
  - cbn [match_trailing_spaces] in *. unfold leading_spaces.
    cbn [match_trailing_spaces spaces_to_end_of_line at_end_of_line].
    destruct (N.eqb c 32) eqn:Sc; [|reflexivity]. cbn [andb].
    specialize (IH d). destruct (N.eqb d 32) eqn:Sd.
    + cbn [andb] in IH.
      destruct (match_trailing_spaces r) as [n|] eqn:Mr.
      * destruct (spaces_to_end_of_line r); [reflexivity | discriminate].
      * destruct (at_end_of_line r) eqn:Er.
        -- destruct (spaces_to_end_of_line r); [reflexivity | discriminate].
        -- destruct (spaces_to_end_of_line r); [discriminate|].
           rewrite (space_not_line_terminator d Sd). reflexivity.
    + destruct (isLineTerminator d); reflexivity.
Qed.

Lemma leading_spaces_cons (c : char) (r : jstring) :
  leading_spaces (c :: r)
  = if N.eqb c 32 && spaces_to_end_of_line r then S (leading_spaces r) else 0%nat.
Proof.
  unfold leading_spaces at 1. rewrite match_trailing_spaces_cons.
  destruct (N.eqb c 32 && spaces_to_end_of_line r); reflexivity.
Qed.

Lemma replace_trailing_scan (s : jstring) :
  replace_from match_trailing_spaces [] 0 s = trim_scan s
  /\ (spaces_to_end_of_line s = true ->
      replace_from match_trailing_spaces [] (leading_spaces s) s = trim_scan s).
Proof.
  induction s as [|c r [IH0 IH1]].
  - split; reflexivity.
  - assert (E0 : replace_from match_trailing_spaces [] 0 (c :: r)
                 = trim_scan (c :: r)).
    { cbn [replace_from trim_scan]. rewrite match_trailing_spaces_cons.
      destruct (N.eqb c 32 && spaces_to_end_of_line r) eqn:T.
      - apply andb_true_iff in T. destruct T as [_ T].
        cbn [app]. apply IH1. exact T.
      - rewrite IH0. reflexivity. }
    split; [exact E0|]. intros T.
    rewrite leading_spaces_cons.
    cbn [spaces_to_end_of_line] in T.
    destruct (N.eqb c 32) eqn:Sc.
    + rewrite T. cbn [andb replace_from trim_scan]. rewrite Sc, T. cbn [andb].
      apply IH1. exact T.
    + cbn [andb]. exact E0.
Qed.

Lemma trimSpaces_scan (s : jstring) : trimSpaces s = trim_scan s.
Proof. apply replace_trailing_scan. Qed.

Lemma spaces_to_end_of_line_trim (s : jstring) :
  spaces_to_end_of_line (trim_scan s) = spaces_to_end_of_line s.
Proof.
  induction s as [|c r IH]; [reflexivity|].
  cbn [trim_scan spaces_to_end_of_line].
  destruct (N.eqb c 32) eqn:Sc; cbn [andb].
  - destruct (spaces_to_end_of_line r) eqn:T.
    + exact IH.
    + cbn [spaces_to_end_of_line]. rewrite Sc. exact IH.
  - cbn [spaces_to_end_of_line]. rewrite Sc. reflexivity.
Qed.

Lemma noTrailingSpaces_trim (s : jstring) : noTrailingSpaces (trim_scan s) = true.
Proof.
  induction s as [|c r IH]; [reflexivity|].
  cbn [trim_scan].
  destruct (N.eqb c 32 && spaces_to_end_of_line r) eqn:T; [exact IH|].
  cbn [noTrailingSpaces]. rewrite spaces_to_end_of_line_trim, T, IH. reflexivity.
Qed.

Lemma noTrailingSpaces_split (s pre post : jstring) :
  noTrailingSpaces s = true -> s = pre ++ SP :: post ->
  at_end_of_line post = false.
Proof.
  revert s. induction pre as [|c pre IH]; intros s C E; subst s.
  - cbn [app noTrailingSpaces] in C. apply andb_true_iff in C.
    destruct C as [C _]. apply negb_true_iff in C.
    change (N.eqb SP 32) with true in C. cbn [andb] in C.
    destruct (at_end_of_line post) eqn:A; [|reflexivity].
    apply at_end_of_line_spaces in A. congruence.
  - cbn [app noTrailingSpaces] in C. apply andb_true_iff in C.
    destruct C as [_ C]. apply (IH _ C eq_refl).
Qed.

Lemma split_on_not_nil (sep : char) (s : jstring) : split_on sep s <> [].
Proof.
  destruct s as [|c r]; simpl; [discriminate|].
  destruct (char_eqb c sep); [discriminate|].
  destruct (split_on sep r); discriminate.
Qed.

Lemma split_on_first_line (s : jstring) :
  exists post, s = hd [] (split_on LF s) ++ post /\ at_end_of_line post = true.
Proof.
  induction s as [|c r (post & E & A)].
  - exists []. split; reflexivity.
  - cbn [split_on]. destruct (char_eqb c LF) eqn:C.
    + apply N.eqb_eq in C. subst c. exists (LF :: r). split; reflexivity.
    + destruct (split_on LF r) as [|p ps] eqn:Sr.
      * exfalso. exact (split_on_not_nil LF r Sr).
      * exists post. cbn [hd app] in *. split; [congruence | exact A].
Qed.

(** A line of the text sits between two line feeds, or an end of the
    text. *)
Lemma split_on_line (s line : jstring) :
  In line (split_on LF s) ->
  exists pre post, s = pre ++ line ++ post /\ at_end_of_line post = true.
Proof.
  revert line. induction s as [|c r IH]; intros line I.
  - simpl in I. destruct I as [<- | []]. exists [], []. split; reflexivity.
  - cbn [split_on] in I. destruct (char_eqb c LF) eqn:E.
    + apply N.eqb_eq in E. subst c. destruct I as [<- | I].
      * exists [], (LF :: r). split; reflexivity.
      * destruct (IH line I) as (pre & post & -> & A).
        exists (LF :: pre), post. split; [reflexivity | exact A].
    + destruct (split_on_first_line r) as (post0 & E0 & A0).
      destruct (split_on LF r) as [|p ps] eqn:Sr.
      * exfalso. exact (split_on_not_nil LF r Sr).
      * destruct I as [<- | I].
        -- exists [], post0. cbn [hd app] in *. split; [congruence | exact A0].
        -- destruct (IH line (or_intror I)) as (pre & post & -> & A).
           exists (c :: pre), post. split; [reflexivity | exact A].
Qed.

Lemma endsWith_split (c : char) (line : jstring) :
  endsWith c line = true -> exists l, line = l ++ [c].
Proof.
  unfold endsWith. destruct (rev line) as [|d l] eqn:E; [discriminate|].
  intros D. apply N.eqb_eq in D. subst d. exists (rev l).
  rewrite <- (rev_involutive line), E. reflexivity.
Qed.

(** Behind [trimSpaces] no space stands at the end of a line, whatever ends
    the line, and only spaces were taken away. *)
Lemma trimSpaces_no_trailing_space (s : jstring) :
  (forall pre post, trimSpaces s = pre ++ SP :: post -> at_end_of_line post = false)
  /\ Forall (fun line => endsWith SP line = false) (split_on LF (trimSpaces s))
  /\ filter (fun c => negb (N.eqb c 32)) (trimSpaces s)
     = filter (fun c => negb (N.eqb c 32)) s.
Proof.
  assert (P : forall pre post,
             trimSpaces s = pre ++ SP :: post -> at_end_of_line post = false).
  { intros pre post E. rewrite trimSpaces_scan in E.
    exact (noTrailingSpaces_split _ pre post (noTrailingSpaces_trim s) E). }
  split; [exact P|]. split.
  - apply Forall_forall. intros line I.
    destruct (endsWith SP line) eqn:W; [|reflexivity].
    destruct (endsWith_split SP line W) as (l & ->).
    destruct (split_on_line _ _ I) as (pre & post & E & A).
    rewrite <- app_assoc in E. cbn [app] in E.
    rewrite app_assoc in E. rewrite (P _ _ E) in A. discriminate.
  - clear P. rewrite trimSpaces_scan. induction s as [|c r IH]; [reflexivity|].
    cbn [trim_scan filter].
    destruct (N.eqb c 32) eqn:Sc; cbn [andb negb].
    + destruct (spaces_to_end_of_line r).
      * exact IH.
      * cbn [filter]. rewrite Sc. cbn [negb]. exact IH.
    + cbn [filter]. rewrite Sc. cbn [negb]. f_equal. exact IH.
Qed.

(** ** The release-level filter *)

Section ShouldIncludeInReport.
Context `{Analyzer} `{ReleaseTagEnum} {R : Type}.
Variable collector : Collector R.

Lemma Number_eqb_ofZ (a b : Z) : Number_eqb a b = (a =? b).
Proof.
  unfold Number_eqb, Number_ofZ. cbv zeta.
  change (2 ^ (0 - Z.min 0 0)) with 1. rewrite !Z.mul_1_r. reflexivity.
Qed.

Lemma isReleaseLevelNumber_ofZ (T : Z) : isReleaseLevelNumber T = isReleaseLevel T.
Proof.
  unfold isReleaseLevelNumber, isReleaseLevel. rewrite !Number_eqb_ofZ. reflexivity.
Qed.

(** The text of some numbers. *)
Lemma Number_toString_examples :
  Number_toString 7 = str "7"
  /\ Number_toString (-3) = str "-3"
  /\ Number_toString (10 ^ 21) = str "1e+21"
  /\ Number_toString (2 ^ 60) = str "1152921504606847000"
  /\ Number_toString (Finite 5 (-1)) = str "2.5"
  /\ Number_toString (Finite 1 (-1074)) = str "5e-324"
  /\ Number_toString NegativeZero = str "0"
  /\ Number_toString NaN = str "NaN".
Proof. repeat split; vm_compute; reflexivity. Qed.

Lemma isReleaseLevel_cases (T : Z) :
  isReleaseLevel T = true ->
  T = ApiReportReleaseLevel.Untrimmed \/ T = ApiReportReleaseLevel.Alpha
  \/ T = ApiReportReleaseLevel.Beta \/ T = ApiReportReleaseLevel.Public.
Proof.
  unfold isReleaseLevel. rewrite !orb_true_iff, !Z.eqb_eq. tauto.
Qed.

Lemma shouldInclude_private (D : AstDeclaration) (T : JsNumber) :
  hasPrivateModifier D = true -> _shouldIncludeInReport collector D T = Ok false.
Proof. intros P. unfold _shouldIncludeInReport. rewrite P. reflexivity. Qed.

Lemma shouldInclude_levels (D : AstDeclaration) :
  hasPrivateModifier D = false ->
  let tag := effectiveTagOrPublic (effectiveReleaseTag (fetchApiItemMetadata collector D)) in
  _shouldIncludeInReport collector D ApiReportReleaseLevel.Untrimmed = Ok true
  /\ _shouldIncludeInReport collector D ApiReportReleaseLevel.Alpha
     = Ok (tag >=? ReleaseTag_Alpha)
  /\ _shouldIncludeInReport collector D ApiReportReleaseLevel.Beta
     = Ok (tag >=? ReleaseTag_Beta)
  /\ _shouldIncludeInReport collector D ApiReportReleaseLevel.Public
     = Ok (tag =? ReleaseTag_Public).
Proof.
  intros P tag. unfold _shouldIncludeInReport. rewrite P.
  repeat split; reflexivity.
Qed.

(** C2: a declaration with the private modifier is never included,
    whatever the threshold; any other declaration is included at
    Untrimmed, at Alpha iff its effective tag (a missing tag counting as
    public) is at least alpha, at Beta iff it is at least beta, and at
    Public iff it is exactly public, so that a beta declaration is left
    out of the public report. *)
Theorem shouldIncludeInReport_rule (D : AstDeclaration) :
  let tag := effectiveTagOrPublic (effectiveReleaseTag (fetchApiItemMetadata collector D)) in
  (hasPrivateModifier D = true ->
   forall T : Z, _shouldIncludeInReport collector D T = Ok false)
  /\ (hasPrivateModifier D = false ->
      _shouldIncludeInReport collector D ApiReportReleaseLevel.Untrimmed = Ok true
      /\ (_shouldIncludeInReport collector D ApiReportReleaseLevel.Alpha = Ok true
          <-> tag >= ReleaseTag_Alpha)
      /\ (_shouldIncludeInReport collector D ApiReportReleaseLevel.Beta = Ok true
          <-> tag >= ReleaseTag_Beta)
      /\ (_shouldIncludeInReport collector D ApiReportReleaseLevel.Public = Ok true
          <-> tag = ReleaseTag_Public)
      /\ (forall T : Z, isReleaseLevel T = true ->
            exists b : bool, _shouldIncludeInReport collector D T = Ok b)
      /\ (effectiveReleaseTag (fetchApiItemMetadata collector D) = ReleaseTag_Beta ->
          _shouldIncludeInReport collector D ApiReportReleaseLevel.Public = Ok false)).
Proof.
  intros tag. split.
  - intros P T. apply shouldInclude_private. exact P.
  - intros P. destruct (shouldInclude_levels D P) as (E0 & E1 & E2 & E3).
    fold tag in E1, E2, E3.
    split; [exact E0|]. split; [|split; [|split; [|split]]].
    + rewrite E1. split.
      * intros E. injection E as E. apply Z.geb_le in E. lia.
      * intros G. f_equal. apply Z.geb_le. lia.
    + rewrite E2. split.
      * intros E. injection E as E. apply Z.geb_le in E. lia.
      * intros G. f_equal. apply Z.geb_le. lia.
    + rewrite E3. split.
      * intros E. injection E as E. apply Z.eqb_eq in E. exact E.
      * intros G. f_equal. apply Z.eqb_eq. exact G.
    + intros T L.
      destruct (isReleaseLevel_cases T L) as [-> | [-> | [-> | ->]]];
        eexists; eassumption.
    + intros B. rewrite E3. f_equal. apply Z.eqb_neq.
      unfold tag, effectiveTagOrPublic. rewrite B.
      pose proof ReleaseTag_order as (O1 & O2 & O3).
      destruct (Z.eqb_spec ReleaseTag_Beta ReleaseTag_None); lia.
Qed.

(** C4: the filter is monotone in the threshold: what is included at a
    threshold is included at every lower one, the public threshold
    included, where inclusion asks for the public tag itself. *)
Theorem shouldIncludeInReport_monotone (D : AstDeclaration) (T1 T2 : Z) :
  isReleaseLevel T1 = true -> isReleaseLevel T2 = true -> T1 <= T2 ->
  _shouldIncludeInReport collector D T2 = Ok true ->
  _shouldIncludeInReport collector D T1 = Ok true
  /\ (T2 = ApiReportReleaseLevel.Public ->
      effectiveTagOrPublic (effectiveReleaseTag (fetchApiItemMetadata collector D))
      = ReleaseTag_Public).
Proof.
  intros L1 L2 Le I.
  destruct (hasPrivateModifier D) eqn:P.
  - rewrite (shouldInclude_private D T2 P) in I. discriminate.
  - destruct (shouldInclude_levels D P) as (E0 & E1 & E2 & E3).
    pose proof ReleaseTag_order as (O1 & O2 & O3).
    set (tag := effectiveTagOrPublic _) in *.
    assert (G : forall a b : Z, (a >=? b) = true <-> b <= a).
    { intros a b. rewrite Z.geb_le. reflexivity. }
    unfold ApiReportReleaseLevel.Untrimmed, ApiReportReleaseLevel.Alpha,
      ApiReportReleaseLevel.Beta, ApiReportReleaseLevel.Public in *.
    destruct (isReleaseLevel_cases T1 L1) as [-> | [-> | [-> | ->]]];
      destruct (isReleaseLevel_cases T2 L2) as [-> | [-> | [-> | ->]]];
      unfold ApiReportReleaseLevel.Untrimmed, ApiReportReleaseLevel.Alpha,
        ApiReportReleaseLevel.Beta, ApiReportReleaseLevel.Public in *;
      try lia;
      rewrite ?E0, ?E1, ?E2, ?E3 in *;
      try (injection I as I);
      try (apply G in I); try (apply Z.eqb_eq in I);
      (split;
       [ first [ reflexivity
               | f_equal; apply G; lia
               | f_equal; apply Z.eqb_eq; exact I ]
       | intros Q; first [ discriminate Q | exact I ] ]).
Qed.

(** C7, as the code has it: a threshold that is a number outside the four
    release levels (an integer or not, [NaN], an infinity) makes the filter
    throw an error that names it as a template literal prints the number,
    unless the declaration is private, which is answered before the
    threshold is looked at; at the four release levels the filter never
    throws. *)
Theorem shouldIncludeInReport_unrecognized_level (D : AstDeclaration) (T : JsNumber) :
  (isNumber T = true -> isReleaseLevelNumber T = false ->
   hasPrivateModifier D = false ->
   _shouldIncludeInReport collector D T
   = Throw (Error (str "Unrecognized release level: " ++ Number_toString T)))
  /\ (isReleaseLevelNumber T = false -> hasPrivateModifier D = true ->
      _shouldIncludeInReport collector D T = Ok false)
  /\ (isReleaseLevelNumber T = true ->
      exists b : bool, _shouldIncludeInReport collector D T = Ok b).
Proof.
  split; [|split].
  - intros _ L P. unfold _shouldIncludeInReport. rewrite P.
    unfold isReleaseLevelNumber in L. rewrite !orb_false_iff in L.
    destruct L as [[[L0 L1] L2] L3]. rewrite L0, L1, L2, L3. reflexivity.
  - intros _ P. apply shouldInclude_private. exact P.
  - intros L. destruct (hasPrivateModifier D) eqn:P.
    + exists false. apply shouldInclude_private. exact P.
    + unfold _shouldIncludeInReport. rewrite P.
      unfold isReleaseLevelNumber in L.
      destruct (Number_eqb T ApiReportReleaseLevel.Untrimmed);
        [eexists; reflexivity|].
      destruct (Number_eqb T ApiReportReleaseLevel.Alpha);
        [eexists; reflexivity|].
      destruct (Number_eqb T ApiReportReleaseLevel.Beta);
        [eexists; reflexivity|].
      destruct (Number_eqb T ApiReportReleaseLevel.Public);
        [eexists; reflexivity | discriminate L].
Qed.

End ShouldIncludeInReport.

(** ** Spans and the writer *)

Lemma Node_induction (P : Node -> Prop) :
  (forall k s e cs, Forall P cs -> P (mkNode k s e cs)) ->
  forall n, P n.
Proof.
  intros step. fix IH 1. intros [k s e cs]. apply step.
  induction cs as [|c cs IHcs]; constructor; [apply IH | exact IHcs].
Qed.

Lemma new_Span_at_eq (text : jstring) (k : SyntaxKind) (s e : nat)
    (cs : list Node) (nextStart : nat) :
  new_Span_at text (mkNode k s e cs) nextStart
  = mkSpan (mkNode k s e cs) s e
      (match cs with
       | [] => substring text s e
       | c :: _ => substring text s (getStart c)
       end)
      (match cs with
       | [] => []
       | _ :: _ => substring text (getEnd (last cs (mkNode k s e cs))) e
       end)
      (if Nat.ltb e nextStart then substring text e nextStart else [])
      (new_Spans text cs)
      SpanModification_reset.
Proof.
  cbn [new_Span_at]. f_equal.
  induction cs as [|c rest IH]; [reflexivity|].
  cbn [new_Spans]. f_equal. exact IH.
Qed.

Lemma wellFormed_eq (k : SyntaxKind) (s e : nat) (cs : list Node) :
  wellFormed (mkNode k s e cs) = Nat.leb s e && childrenInOrder e s cs.
Proof.
  cbn [wellFormed]. f_equal. generalize s as lo.
  induction cs as [|c rest IH]; intros lo; [reflexivity|].
  cbn [childrenInOrder]. rewrite <- IH. reflexivity.
Qed.

Lemma wellFormed_le (n : Node) : wellFormed n = true -> (getStart n <= getEnd n)%nat.
Proof.
  destruct n as [k s e cs]. rewrite wellFormed_eq. intros W.
  apply andb_true_iff in W. destruct W as [W _].
  apply Nat.leb_le in W. exact W.
Qed.

Lemma childrenInOrder_le (e : nat) (cs : list Node) :
  forall lo, childrenInOrder e lo cs = true -> (lo <= e)%nat.
Proof.
  induction cs as [|c rest IH]; intros lo W; cbn [childrenInOrder] in W.
  - apply Nat.leb_le in W. exact W.
  - apply andb_true_iff in W. destruct W as [W W2].
    apply andb_true_iff in W. destruct W as [W0 W1].
    apply Nat.leb_le in W0. apply wellFormed_le in W1.
    specialize (IH _ W2). lia.
Qed.

Lemma getModifiedText_eq (s : Span) :
  getModifiedText s = textBeforeSuffix s ++ modification_suffix s.
Proof.
  destruct s as [n a b pre suf sep cs m].
  unfold textBeforeSuffix, modification_prefix, modification_suffix.
  cbn [getModifiedText modification span_prefix span_suffix span_children].
  rewrite <- app_assoc. reflexivity.
Qed.

Lemma new_Span_at_separator (text : jstring) (n : Node) (nextStart : nat) :
  span_separator (new_Span_at text n nextStart)
  = if Nat.ltb (getEnd n) nextStart then substring text (getEnd n) nextStart else [].
Proof. destruct n as [k s e cs]. rewrite new_Span_at_eq. reflexivity. Qed.

Lemma new_Span_at_modification (text : jstring) (n : Node) (nextStart : nat) :
  modification (new_Span_at text n nextStart) = SpanModification_reset.
Proof. destruct n as [k s e cs]. rewrite new_Span_at_eq. reflexivity. Qed.

Lemma new_Span_at_untouched (text : jstring) (n : Node) :
  forall nextStart, untouched (new_Span_at text n nextStart) = true.
Proof.
  induction n as [k s e cs IH] using Node_induction. intros nextStart.
  rewrite new_Span_at_eq. cbn [untouched]. cbn [isReset SpanModification_reset
    prefix_assigned suffix_assigned sortKey omitChildren omitSeparatorAfter
    sortChildren negb andb].
  induction IH as [|c rest Hc _ IHrest]; [reflexivity|].
  cbn [new_Spans forallb]. rewrite Hc. exact IHrest.
Qed.

Section Identity.
Variable text : jstring.

Lemma children_reproduce (e : nat) (d : Node) (cs : list Node) :
  Forall (reproduces text) cs ->
  forall lo, childrenInOrder e lo cs = true -> cs <> [] ->
  substring text lo (getStart (hd d cs))
  ++ concat (List.map snd (List.map writeChild (new_Spans text cs)))
  ++ substring text (getEnd (last cs d)) e
  = substring text lo e.
Proof.
  induction 1 as [|c rest Hc Hrest IH]; intros lo W N; [contradiction|].
  cbn [childrenInOrder] in W.
  apply andb_true_iff in W. destruct W as [W W2].
  apply andb_true_iff in W. destruct W as [W0 W1].
  apply Nat.leb_le in W0.
  pose proof (wellFormed_le c W1) as Lc.
  pose proof (childrenInOrder_le e rest _ W2) as Le.
  cbn [new_Spans List.map concat hd].
  unfold writeChild at 1. cbn [snd].
  rewrite new_Span_at_modification, new_Span_at_separator.
  cbn [omitSeparatorAfter SpanModification_reset].
  rewrite (Hc W1). unfold getText.
  destruct rest as [|c2 rest'].
  - rewrite Nat.ltb_irrefl. cbn [new_Spans List.map concat last app].
    rewrite !app_nil_r.
    rewrite substring_app by lia. apply substring_app; lia.
  - assert (L2 : (getEnd c <= getStart c2)%nat).
    { cbn [childrenInOrder] in W2. apply andb_true_iff in W2.
      destruct W2 as [W2 _]. apply andb_true_iff in W2.
      destruct W2 as [W2 _]. apply Nat.leb_le in W2. exact W2. }
    assert (Sep : (if Nat.ltb (getEnd c) (getStart c2)
                   then substring text (getEnd c) (getStart c2) else [])
                  = substring text (getEnd c) (getStart c2)).
    { destruct (Nat.ltb_spec (getEnd c) (getStart c2)); [reflexivity|].
      replace (getStart c2) with (getEnd c) by lia.
      symmetry. apply substring_empty. }
    rewrite Sep.
    specialize (IH (getEnd c) W2 ltac:(discriminate)).
    cbn [hd] in IH.
    change (last (c :: c2 :: rest') d) with (last (c2 :: rest') d).
    rewrite <- !app_assoc. rewrite IH.
    rewrite substring_app by lia. apply substring_app; lia.
Qed.

Lemma new_Span_reproduces (n : Node) : reproduces text n.
Proof.
  induction n as [k s e cs IH] using Node_induction.
  intros W nextStart. rewrite wellFormed_eq in W.
  apply andb_true_iff in W. destruct W as [W0 W1].
  apply Nat.leb_le in W0.
  rewrite new_Span_at_eq. unfold getText. cbn [getStart getEnd].
  cbn [getModifiedText SpanModification_reset prefix_assigned suffix_assigned
         omitChildren sortChildren orderChildren].
  fold writeChild.
  destruct cs as [|c rest].
  - cbn [new_Spans List.map concat app]. rewrite app_nil_r. reflexivity.
  - apply (children_reproduce e (mkNode k s e (c :: rest)) (c :: rest) IH s W1).
    discriminate.
Qed.

End Identity.

(** C1: a span tree built from a syntax node has no overlay field set, and
    written as it is built it gives back the source text of the node, code
    unit for code unit. *)
Theorem writeModifiedText_identity (text : jstring) (node : Node) :
  wellFormed node = true ->
  untouched (new_Span text node) = true
  /\ getModifiedText (new_Span text node) = getText text node.
Proof.
  intros W. split.
  - apply new_Span_at_untouched.
  - apply new_Span_reproduces. exact W.
Qed.

(** ** The policy for preapproved declarations *)

Lemma skipAll_writes_nothing (c : Span) : snd (writeChild (skipAll c)) = [].
Proof. destruct c as [n a b pre suf sep cs m]. reflexivity. Qed.

Lemma skipAll_suppressed (c : Span) :
  suppressed (skipAll c)
  /\ span_children (skipAll c) = span_children c
  /\ span_node (skipAll c) = span_node c.
Proof. destruct c as [n a b pre suf sep cs m]. repeat split. Qed.

Lemma preapproved_identifier_text (c : Span) :
  snd (writeChild (set_suffix (set_omitSeparatorAfter c true) preapprovedSuffix))
  = textBeforeSuffix c ++ preapprovedSuffix.
Proof.
  destruct c as [n a b pre suf sep cs m].
  unfold writeChild, textBeforeSuffix, modification_prefix.
  cbn [snd set_suffix set_omitSeparatorAfter set_modification modification
         getModifiedText prefix_assigned suffix_assigned omitChildren
         sortChildren omitSeparatorAfter span_prefix span_children].
  fold writeChild. rewrite app_nil_r, <- app_assoc. reflexivity.
Qed.

Lemma SyntaxKind_eqb_eq (a b : SyntaxKind) : SyntaxKind_eqb a b = true <-> a = b.
Proof.
  unfold SyntaxKind_eqb. destruct (SyntaxKind_eq_dec a b); split;
    intros; congruence.
Qed.

Lemma preapproved_loop_before (before rest : list Span) :
  forallb (fun c => negb (isIdentifier c)) before = true ->
  _modifySpanForPreapproved_loop false (before ++ rest)
  = List.map (fun c => if isListOrComment c then skipAll c else c) before
    ++ _modifySpanForPreapproved_loop false rest.
Proof.
  induction before as [|c before IH]; intros N; [reflexivity|].
  cbn [forallb] in N. apply andb_true_iff in N. destruct N as [Nc N].
  apply negb_true_iff in Nc. unfold isIdentifier in Nc.
  cbn [app _modifySpanForPreapproved_loop List.map]. rewrite Nc.
  cbn [orb]. fold (isListOrComment c). rewrite (IH N). reflexivity.
Qed.

Lemma preapproved_children (span identifier : Span) (before after : list Span) :
  span_children span = before ++ identifier :: after ->
  isIdentifier identifier = true ->
  forallb (fun c => negb (isIdentifier c)) before = true ->
  span_children (_modifySpanForPreapproved span)
  = List.map (fun c => if isListOrComment c then skipAll c else c) before
    ++ set_suffix (set_omitSeparatorAfter identifier true) preapprovedSuffix
    :: _modifySpanForPreapproved_loop true after.
Proof.
  intros C I N. unfold _modifySpanForPreapproved.
  destruct span as [n a b pre suf sep cs m]. cbn [span_children set_children] in *.
  subst cs. rewrite (preapproved_loop_before _ _ N).
  f_equal. cbn [_modifySpanForPreapproved_loop orb].
  unfold isIdentifier in I. rewrite I.
  apply SyntaxKind_eqb_eq in I. rewrite I.
  reflexivity.
Qed.

Lemma preapproved_later_identifier_text (c : Span) :
  snd (writeChild
         (set_suffix (set_omitSeparatorAfter (skipAll c) true) preapprovedSuffix))
  = preapprovedSuffix.
Proof. destruct c as [n a b pre suf sep cs m]. reflexivity. Qed.

Lemma preapproved_loop_rest (after : list Span) :
  _modifySpanForPreapproved_loop true after
  = List.map
      (fun c =>
         if isIdentifier c
         then set_suffix (set_omitSeparatorAfter (skipAll c) true) preapprovedSuffix
         else skipAll c)
      after.
Proof.
  induction after as [|c after IH]; [reflexivity|].
  cbn [_modifySpanForPreapproved_loop orb List.map]. fold (isIdentifier c).
  rewrite IH. destruct (isIdentifier c); reflexivity.
Qed.

Lemma preapproved_loop_plain (cs : list Span) :
  forallb (fun c => negb (isIdentifier c)) cs = true ->
  _modifySpanForPreapproved_loop false cs
  = List.map (fun c => if isListOrComment c then skipAll c else c) cs.
Proof.
  intros N. pose proof (preapproved_loop_before cs [] N) as E.
  rewrite app_nil_r in E. rewrite E. cbn [_modifySpanForPreapproved_loop].
  apply app_nil_r.
Qed.

Lemma preapproved_modification (span : Span) :
  modification (_modifySpanForPreapproved span) = modification span
  /\ modification_prefix (_modifySpanForPreapproved span) = modification_prefix span
  /\ modification_suffix (_modifySpanForPreapproved span) = modification_suffix span
  /\ set_children (_modifySpanForPreapproved span) (span_children span) = span.
Proof. destruct span as [n a b pre suf sep cs m]. repeat split. Qed.

Lemma preapproved_text (span : Span) (cs' : list Span) :
  span_children (_modifySpanForPreapproved span) = cs' ->
  omitChildren (modification span) = false ->
  sortChildren (modification span) = false ->
  getModifiedText (_modifySpanForPreapproved span)
  = modification_prefix span
    ++ concat (List.map (fun c => snd (writeChild c)) cs')
    ++ modification_suffix span.
Proof.
  intros Ch OC SC.
  destruct (preapproved_modification span) as (Em & Ep & Es & _).
  rewrite getModifiedText_eq. unfold textBeforeSuffix.
  rewrite Em, Ep, Es, OC, SC, Ch. cbn [orderChildren].
  rewrite (List.map_map writeChild snd), <- app_assoc. reflexivity.
Qed.

Lemma preapproved_kept_text (cs : list Span) :
  concat (List.map (fun c => snd (writeChild c))
            (List.map (fun c => if isListOrComment c then skipAll c else c) cs))
  = concat (List.map (fun c => if isListOrComment c then [] else snd (writeChild c)) cs).
Proof.
  rewrite List.map_map. f_equal. apply map_ext. intros c.
  destruct (isListOrComment c); [apply skipAll_writes_nothing | reflexivity].
Qed.

Lemma preapproved_rest_text (after : list Span) :
  concat (List.map (fun c => snd (writeChild c))
            (List.map
               (fun c =>
                  if isIdentifier c
                  then set_suffix (set_omitSeparatorAfter (skipAll c) true)
                         preapprovedSuffix
                  else skipAll c)
               after))
  = concat (List.map (fun c => if isIdentifier c then preapprovedSuffix else []) after).
Proof.
  rewrite List.map_map. f_equal. apply map_ext. intros c.
  destruct (isIdentifier c);
    [apply preapproved_later_identifier_text | apply skipAll_writes_nothing].
Qed.

Lemma modifySpanForPreapproved_effect (span identifier : Span)
    (before after : list Span) :
  span_children span = before ++ identifier :: after ->
  isIdentifier identifier = true ->
  forallb (fun c => negb (isIdentifier c)) before = true ->
  span_children (_modifySpanForPreapproved span)
  = List.map (fun c => if isListOrComment c then skipAll c else c) before
    ++ set_suffix (set_omitSeparatorAfter identifier true) preapprovedSuffix
    :: List.map
         (fun c =>
            if isIdentifier c
            then set_suffix (set_omitSeparatorAfter (skipAll c) true)
                   preapprovedSuffix
            else skipAll c)
         after
  /\ set_children (_modifySpanForPreapproved span) (span_children span) = span
  /\ (omitChildren (modification span) = false ->
      sortChildren (modification span) = false ->
      getModifiedText (_modifySpanForPreapproved span)
      = modification_prefix span
        ++ concat (List.map
                     (fun c => if isListOrComment c then [] else snd (writeChild c))
                     before)
        ++ textBeforeSuffix identifier ++ preapprovedSuffix
        ++ concat (List.map
                     (fun c => if isIdentifier c then preapprovedSuffix else [])
                     after)
        ++ modification_suffix span).
Proof.
  intros C I N.
  pose proof (preapproved_children span identifier before after C I N) as Ch.
  rewrite preapproved_loop_rest in Ch.
  split; [exact Ch|]. split; [apply preapproved_modification|].
  intros OC SC. rewrite (preapproved_text span _ Ch OC SC).
  rewrite map_app, concat_app. cbn [List.map concat].
  rewrite preapproved_kept_text, preapproved_rest_text, preapproved_identifier_text.
  rewrite <- !app_assoc. reflexivity.
Qed.

Lemma modifySpanForPreapproved_without_identifier (span : Span) :
  forallb (fun c => negb (isIdentifier c)) (span_children span) = true ->
  span_children (_modifySpanForPreapproved span)
  = List.map (fun c => if isListOrComment c then skipAll c else c) (span_children span)
  /\ (omitChildren (modification span) = false ->
      sortChildren (modification span) = false ->
      getModifiedText (_modifySpanForPreapproved span)
      = modification_prefix span
        ++ concat (List.map
                     (fun c => if isListOrComment c then [] else snd (writeChild c))
                     (span_children span))
        ++ modification_suffix span).
Proof.
  intros N.
  assert (Ch : span_children (_modifySpanForPreapproved span)
               = List.map (fun c => if isListOrComment c then skipAll c else c)
                   (span_children span)).
  { destruct span as [n a b pre suf sep cs m].
    unfold _modifySpanForPreapproved. cbn [span_children set_children] in *.
    apply preapproved_loop_plain. exact N. }
  split; [exact Ch|].
  intros OC SC. rewrite (preapproved_text span _ Ch OC SC), preapproved_kept_text.
  reflexivity.
Qed.

Lemma new_Span_modification (text : jstring) (node : Node) :
  modification (new_Span text node) = SpanModification_reset.
Proof. apply new_Span_at_modification. Qed.

(** ** Computations *)

Lemma bind_returns {R A B : Type} (c : M R A) (k : A -> M R B) (r r' : R) (b : B) :
  bind c k r = Returns b r' ->
  exists a r1, c r = Returns a r1 /\ k a r1 = Returns b r'.
Proof.
  unfold bind. destruct (c r) as [a r1| |]; intros E; try discriminate.
  exists a, r1. split; [reflexivity | exact E].
Qed.

Lemma bind_continues {R A B : Type} (c : M R A) (k : A -> M R B) (r r1 : R) (a : A) :
  c r = Returns a r1 -> bind c k r = k a r1.
Proof. intros E. unfold bind. rewrite E. reflexivity. Qed.

Lemma foldM_app {R A B : Type} (f : A -> B -> M R A) (xs ys : list B) (acc : A) (r : R) :
  foldM f (xs ++ ys) acc r = bind (foldM f xs acc) (fun a => foldM f ys a) r.
Proof.
  revert acc r. induction xs as [|x xs IH]; intros acc r.
  - reflexivity.
  - cbn [app foldM]. unfold bind.
    destruct (f acc x r) as [a r1| |]; try reflexivity.
    specialize (IH a r1). unfold bind in IH. exact IH.
Qed.

(** An invariant of the accumulator is kept by a loop whose turns keep it. *)
Lemma foldM_invariant {R A B : Type} (P : A -> Prop) (f : A -> B -> M R A) (xs : list B) :
  (forall acc x r acc' r', In x xs -> P acc -> f acc x r = Returns acc' r' -> P acc') ->
  forall acc r acc' r', P acc -> foldM f xs acc r = Returns acc' r' -> P acc'.
Proof.
  induction xs as [|x xs IH]; intros step acc r acc' r' Pacc E.
  - cbn [foldM] in E. unfold ret in E. injection E as <- _. exact Pacc.
  - cbn [foldM] in E. apply bind_returns in E.
    destruct E as (a & r1 & E1 & E2).
    apply (IH (fun acc x r acc' r' I => step acc x r acc' r' (or_intror I))
              a r1 acc' r'); [|exact E2].
    apply (step acc x r a r1); [left; reflexivity | exact Pacc | exact E1].
Qed.

(** ** The rewrite pass on identifiers *)

Section ModifySpanProperties.
Context `{Analyzer} `{ReleaseTagEnum} `{Emitter} {R : Type}.
Variable collector : Collector R.
Variable entity : CollectorEntity.
Variable level : Z.

Lemma set_prefix_leaf (span : Span) (v : jstring) :
  span_children span = [] ->
  set_children (set_prefix span v) [] = set_prefix span v
  /\ span_children (set_prefix span v) = [].
Proof.
  destruct span as [n a b pre suf sep cs m]. cbn. intros ->. split; reflexivity.
Qed.

Lemma set_children_leaf (span : Span) :
  span_children span = [] -> set_children span [] = span.
Proof. destruct span as [n a b pre suf sep cs m]. cbn. intros ->. reflexivity. Qed.

Lemma modifySpan_identifier (fuel : nat) (parent : option SyntaxKind)
    (previousSpan : option Span) (span : Span) (astDeclaration : AstDeclaration)
    (insideTypeLiteral : bool) (r : R) :
  span_kind span = Identifier -> span_children span = [] ->
  _shouldIncludeInReport collector astDeclaration level = Ok true ->
  _modifySpan collector entity level (S fuel) parent previousSpan span
    astDeclaration insideTypeLiteral r
  = match tryGetEntityForNode collector (span_node span) with
    | Some referencedEntity =>
        match nameForEmit referencedEntity with
        | Some (c :: name) => Returns (set_prefix span (c :: name), previousSpan) r
        | _ => Throws (InternalError (str "referencedEntry.nameForEmit is undefined"))
        end
    | None => Returns (span, previousSpan) r
    end.
Proof.
  intros K L I. cbn [_modifySpan]. rewrite I.
  unfold bind at 1. cbn [lift ret negb].
  unfold modifySpan_switch. rewrite K.
  destruct (tryGetEntityForNode collector (span_node span)) as [e|].
  - destruct (nameForEmit e) as [[|c name]|]; try reflexivity.
    unfold bind, ret. cbn [sw_recurseChildren sw_span sw_previousSpan].
    destruct (set_prefix_leaf span (c :: name) L) as [E1 E2].
    rewrite E2. cbn [foldM]. unfold ret. rewrite E1. reflexivity.
  - unfold bind, ret. cbn [sw_recurseChildren sw_span sw_previousSpan].
    rewrite L. cbn [foldM]. unfold ret.
    rewrite (set_children_leaf span L). reflexivity.
Qed.

Lemma identifier_span_renamed (text : jstring) (node : Node) (nextStart : nat)
    (name : jstring) :
  getChildren node = [] ->
  getModifiedText (set_prefix (new_Span_at text node nextStart) name) = name.
Proof.
  destruct node as [k s e cs]. cbn [getChildren]. intros ->.
  rewrite new_Span_at_eq. cbn. rewrite app_nil_r. reflexivity.
Qed.

Lemma identifier_span_kept (text : jstring) (node : Node) (nextStart : nat) :
  getChildren node = [] ->
  getModifiedText (new_Span_at text node nextStart) = getText text node.
Proof.
  destruct node as [k s e cs]. cbn [getChildren]. intros ->.
  rewrite new_Span_at_eq. cbn. rewrite app_nil_r. reflexivity.
Qed.

(** C5: the rewrite pass on the span of an identifier.  When the
    identifier resolves to a tracked entity the span writes the entity's
    [nameForEmit] in place of its own text, so two identifiers that
    resolve to one entity write the same name whatever their own
    spelling; when it resolves to none the span writes its own text. *)
Theorem modifySpan_renames_identifiers (fuel : nat) (insideTypeLiteral : bool)
    (astDeclaration : AstDeclaration) (r : R) :
  _shouldIncludeInReport collector astDeclaration level = Ok true ->
  (forall (text : jstring) (node : Node) (nextStart : nat)
          (parent : option SyntaxKind) (previousSpan : option Span)
          (referencedEntity : CollectorEntity) (name : jstring),
      node_kind node = Identifier -> getChildren node = [] ->
      tryGetEntityForNode collector node = Some referencedEntity ->
      nameForEmit referencedEntity = Some name -> name <> [] ->
      exists span' : Span,
        _modifySpan collector entity level (S fuel) parent previousSpan
          (new_Span_at text node nextStart) astDeclaration insideTypeLiteral r
        = Returns (span', previousSpan) r
        /\ modification_prefix span' = name
        /\ getModifiedText span' = name)
  /\ (forall (text : jstring) (node : Node) (nextStart : nat)
             (parent : option SyntaxKind) (previousSpan : option Span),
         node_kind node = Identifier -> getChildren node = [] ->
         tryGetEntityForNode collector node = None ->
         _modifySpan collector entity level (S fuel) parent previousSpan
           (new_Span_at text node nextStart) astDeclaration insideTypeLiteral r
         = Returns (new_Span_at text node nextStart, previousSpan) r
         /\ getModifiedText (new_Span_at text node nextStart) = getText text node)
  /\ (forall (text1 text2 : jstring) (node1 node2 : Node) (next1 next2 : nat)
             (parent1 parent2 : option SyntaxKind) (previous1 previous2 : option Span)
             (referencedEntity : CollectorEntity) (name : jstring)
             (span1 span2 : Span) (p1 p2 : option Span) (r1 r2 : R),
         node_kind node1 = Identifier -> getChildren node1 = [] ->
         node_kind node2 = Identifier -> getChildren node2 = [] ->
         tryGetEntityForNode collector node1 = Some referencedEntity ->
         tryGetEntityForNode collector node2 = Some referencedEntity ->
         nameForEmit referencedEntity = Some name -> name <> [] ->
         _modifySpan collector entity level (S fuel) parent1 previous1
           (new_Span_at text1 node1 next1) astDeclaration insideTypeLiteral r
         = Returns (span1, p1) r1 ->
         _modifySpan collector entity level (S fuel) parent2 previous2
           (new_Span_at text2 node2 next2) astDeclaration insideTypeLiteral r
         = Returns (span2, p2) r2 ->
         getModifiedText span1 = name /\ getModifiedText span2 = name).
Proof.
  intros I.
  assert (Node_of : forall text node nextStart,
             span_node (new_Span_at text node nextStart) = node).
  { intros text [k s e cs] nx. rewrite new_Span_at_eq. reflexivity. }
  assert (Leaf : forall text node nextStart,
             getChildren node = [] ->
             span_children (new_Span_at text node nextStart) = []).
  { intros text [k s e cs] nx. cbn [getChildren]. intros ->.
    rewrite new_Span_at_eq. reflexivity. }
  assert (Renamed : forall text node nextStart parent previousSpan e name,
             node_kind node = Identifier -> getChildren node = [] ->
             tryGetEntityForNode collector node = Some e ->
             nameForEmit e = Some name -> name <> [] ->
             _modifySpan collector entity level (S fuel) parent previousSpan
               (new_Span_at text node nextStart) astDeclaration insideTypeLiteral r
             = Returns (set_prefix (new_Span_at text node nextStart) name,
                        previousSpan) r).
  { intros text node nx parent prev e name K L T N NE.
    rewrite modifySpan_identifier;
      [| unfold span_kind; rewrite Node_of; exact K | apply Leaf; exact L | exact I].
    rewrite Node_of, T, N. destruct name as [|c name]; [contradiction|].
    reflexivity. }
  split; [|split].
  - intros text node nx parent prev e name K L T N NE.
    exists (set_prefix (new_Span_at text node nx) name).
    split; [apply (Renamed text node nx parent prev e name K L T N NE)|].
    split; [|apply identifier_span_renamed; exact L].
    destruct (new_Span_at text node nx); reflexivity.
  - intros text node nx parent prev K L T. split.
    + rewrite modifySpan_identifier;
        [| unfold span_kind; rewrite Node_of; exact K | apply Leaf; exact L | exact I].
      rewrite Node_of, T. reflexivity.
    + apply identifier_span_kept. exact L.
  - intros text1 text2 node1 node2 nx1 nx2 parent1 parent2 prev1 prev2 e name
           span1 span2 p1 p2 r1 r2 K1 L1 K2 L2 T1 T2 N NE E1 E2.
    rewrite (Renamed text1 node1 nx1 parent1 prev1 e name K1 L1 T1 N NE) in E1.
    rewrite (Renamed text2 node2 nx2 parent2 prev2 e name K2 L2 T2 N NE) in E2.
    injection E1 as <- _ _. injection E2 as <- _ _.
    split; apply identifier_span_renamed; assumption.
Qed.

End ModifySpanProperties.

(** ** The assembly of the report *)

Lemma grows_refl (Q : WriterCall -> Prop) (w : IndentedWriter) : grows Q w w.
Proof. exists []. split; [symmetry; apply app_nil_r | constructor]. Qed.

Lemma grows_trans (Q : WriterCall -> Prop) (w1 w2 w3 : IndentedWriter) :
  grows Q w1 w2 -> grows Q w2 w3 -> grows Q w1 w3.
Proof.
  intros (a & -> & Fa) (b & -> & Fb). exists (a ++ b). split.
  - symmetry. apply app_assoc.
  - apply Forall_app. split; assumption.
Qed.

Lemma grows_call (Q : WriterCall -> Prop) (w : IndentedWriter) (c : WriterCall) :
  Q c -> grows Q w (call w c).
Proof. intros Qc. exists [c]. split; [reflexivity | constructor; [exact Qc | constructor]]. Qed.

Lemma grows_weaken (Q Q' : WriterCall -> Prop) (w w' : IndentedWriter) :
  (forall c, Q c -> Q' c) -> grows Q w w' -> grows Q' w w'.
Proof.
  intros I (a & -> & Fa). exists a. split; [reflexivity|].
  apply (Forall_impl _ I Fa).
Qed.

Lemma grows_fold_left {A : Type} (Q : WriterCall -> Prop)
    (f : IndentedWriter -> A -> IndentedWriter) (xs : list A) :
  (forall w x, grows Q w (f w x)) -> forall w, grows Q w (fold_left f xs w).
Proof.
  intros step. induction xs as [|x xs IH]; intros w.
  - apply grows_refl.
  - cbn [fold_left]. apply (grows_trans Q w (f w x)); [apply step | apply IH].
Qed.

Lemma noInlined_of_noExport (c : WriterCall) :
  noExportStatement c -> noInlinedExportStatement c.
Proof. destruct c; cbn; intros Q; try exact I. contradiction. Qed.

Ltac grow :=
  repeat first
    [ apply grows_refl
    | apply grows_call; exact I
    | eapply grows_trans; [| apply grows_call; exact I] ].

Section GenerateProperties.
Context `{Analyzer} `{ReleaseTagEnum} `{Emitter} {R : Type}.
Variable collector : Collector R.
Variable options : IApiReportOptions.

Lemma writeLineAsComments_calls (writer : IndentedWriter) (line : jstring) :
  _writeLineAsComments writer line = writer ++ commentCalls line.
Proof.
  unfold _writeLineAsComments, commentCalls.
  generalize (split_on LF (Text_convertToLf line)) as lines.
  intros lines. revert writer.
  induction lines as [|l lines IH]; intros writer.
  - cbn. symmetry. apply app_nil_r.
  - cbn [fold_left flat_map]. rewrite IH. unfold call.
    rewrite <- !app_assoc. reflexivity.
Qed.

Lemma writeWarnings_calls (writer : IndentedWriter) (messages : list ExtractorMessage) :
  writeWarnings writer messages
  = writer
    ++ flat_map
         (fun message =>
            commentCalls (str "Warning: " ++ formatMessageWithoutLocation message))
         messages.
Proof.
  unfold writeWarnings. revert writer.
  induction messages as [|m messages IH]; intros writer.
  - cbn. symmetry. apply app_nil_r.
  - cbn [fold_left flat_map]. rewrite IH, writeLineAsComments_calls.
    rewrite <- app_assoc. reflexivity.
Qed.

Lemma commentCalls_plain (line : jstring) : Forall noExportStatement (commentCalls line).
Proof.
  unfold commentCalls.
  induction (split_on LF (Text_convertToLf line)) as [|l lines IH]; cbn.
  - constructor.
  - repeat constructor. exact IH.
Qed.

Lemma grows_writeLineAsComments (writer : IndentedWriter) (line : jstring) :
  grows noExportStatement writer (_writeLineAsComments writer line).
Proof.
  rewrite writeLineAsComments_calls. exists (commentCalls line).
  split; [reflexivity | apply commentCalls_plain].
Qed.

Lemma grows_writeWarnings (writer : IndentedWriter) (messages : list ExtractorMessage) :
  grows noExportStatement writer (writeWarnings writer messages).
Proof.
  unfold writeWarnings. apply grows_fold_left. intros w m.
  apply grows_writeLineAsComments.
Qed.

(** The synopsis never throws, and it starts with the warnings it was
    given. *)
Lemma getAedocSynopsis_returns (astDeclaration : AstDeclaration)
    (messagesToReport : list ExtractorMessage) (r : R) :
  exists rest r',
    _getAedocSynopsis collector astDeclaration messagesToReport r
    = Returns
        (IndentedWriter_toString
           (writeWarnings new_IndentedWriter messagesToReport ++ rest)) r'.
Proof.
  unfold _getAedocSynopsis.
  destruct (negb (isAncillaryDeclaration collector astDeclaration)).
  - unfold bind.
    destruct (undocumented (fetchApiItemMetadata collector astDeclaration)).
    + unfold router_call, ret.
      destruct (negb (isEmpty (synopsisFooterParts _))).
      * destruct (negb (isEmpty messagesToReport));
          rewrite !writeLineAsComments_calls, <- ?app_assoc;
          eexists; eexists; reflexivity.
      * exists [], (addAnalyzerIssue_Undocumented collector
                      (str "Missing documentation for " ++ [QUOTE]
                       ++ astSymbol_localName astDeclaration ++ [QUOTE] ++ str ".")
                      astDeclaration r).
        rewrite app_nil_r. reflexivity.
    + unfold ret.
      destruct (negb (isEmpty (synopsisFooterParts _))).
      * destruct (negb (isEmpty messagesToReport));
          rewrite !writeLineAsComments_calls, <- ?app_assoc;
          eexists; eexists; reflexivity.
      * exists [], r. rewrite app_nil_r. reflexivity.
  - exists [], r. rewrite app_nil_r. reflexivity.
Qed.

Lemma peelMessage_no_exports (fetched reported : list ExtractorMessage) :
  fold_left peelMessage fetched ([], reported) = ([], reported ++ fetched).
Proof.
  revert reported. induction fetched as [|m fetched IH]; intros reported.
  - cbn. rewrite app_nil_r. reflexivity.
  - cbn [fold_left]. unfold peelMessage at 2.
    destruct (properties_exportName m) as [[|c name]|]; cbn [Map_get];
      rewrite IH, <- app_assoc; reflexivity.
Qed.

Lemma collectExportsToEmit_inlined (entity : CollectorEntity) :
  shouldInlineExport entity = true -> collectExportsToEmit entity = [].
Proof.
  intros I. unfold collectExportsToEmit. rewrite I. cbn [negb].
  induction (exportNames entity) as [|n names IH]; [reflexivity | exact IH].
Qed.

(** One declaration of the entity: what is written, and where the
    messages fetched for it go when no export statement is pending. *)
Lemma emitDeclaration_returns (fuel : nat) (entity : CollectorEntity)
    (exportsToEmit : JsMap IExportToEmit) (writer : IndentedWriter)
    (astDeclaration : AstDeclaration) (r : R)
    (state' : JsMap IExportToEmit * IndentedWriter) (r' : R) :
  emitDeclaration collector options fuel entity (exportsToEmit, writer)
    astDeclaration r = Returns state' r' ->
  let fetched := fst (fetchAssociatedMessagesForReviewFile collector astDeclaration r) in
  let peeled := fold_left peelMessage fetched (exportsToEmit, []) in
  fst state' = fst peeled
  /\ exists rest text,
       snd state'
       = writer
         ++ [ W_ensureSkippedLine;
              W_write (IndentedWriter_toString
                         (writeWarnings new_IndentedWriter (snd peeled) ++ rest));
              W_write text;
              W_ensureNewLine ].
Proof.
  intros E fetched peeled. unfold emitDeclaration in E.
  apply bind_returns in E. destruct E as (f & r1 & Ef & E).
  unfold router_call in Ef.
  assert (f = fetched) as ->.
  { unfold fetched.
    destruct (fetchAssociatedMessagesForReviewFile collector astDeclaration r).
    injection Ef as <- _. reflexivity. }
  fold peeled in E. destruct peeled as [exports messages] eqn:P.
  apply bind_returns in E. destruct E as (syn & r2 & Es & E).
  destruct (getAedocSynopsis_returns astDeclaration messages r1) as (rest & r2' & Es').
  rewrite Es' in Es. injection Es as <- <-.
  apply bind_returns in E. destruct E as (span & r3 & _ & E).
  unfold ret in E. injection E as <- _.
  split; [reflexivity|].
  exists rest, (getModifiedText span). cbn [snd]. unfold call.
  rewrite <- !app_assoc. reflexivity.
Qed.

Lemma grows_emitDeclaration (Q : WriterCall -> Prop) (fuel : nat)
    (entity : CollectorEntity) (state : JsMap IExportToEmit * IndentedWriter)
    (astDeclaration : AstDeclaration) (r : R)
    (state' : JsMap IExportToEmit * IndentedWriter) (r' : R) :
  (forall c, noExportStatement c -> Q c) ->
  emitDeclaration collector options fuel entity state astDeclaration r
  = Returns state' r' ->
  grows Q (snd state) (snd state').
Proof.
  intros W E. destruct state as [exportsToEmit writer].
  destruct (emitDeclaration_returns _ _ _ _ _ _ _ _ E) as (_ & rest & text & ->).
  cbn [snd]. eexists. split; [reflexivity|].
  repeat constructor; apply W; exact I.
Qed.

Lemma emitDeclaration_no_exports (fuel : nat) (entity : CollectorEntity)
    (writer : IndentedWriter) (astDeclaration : AstDeclaration) (r : R)
    (state' : JsMap IExportToEmit * IndentedWriter) (r' : R) :
  emitDeclaration collector options fuel entity ([], writer) astDeclaration r
  = Returns state' r' ->
  fst state' = [].
Proof.
  intros E.
  destruct (emitDeclaration_returns _ _ _ _ _ _ _ _ E) as (-> & _).
  rewrite peelMessage_no_exports. reflexivity.
Qed.

Lemma grows_emitNamespaceImport (entity : CollectorEntity) (ns : AstNamespaceImport)
    (writer : IndentedWriter) (r : R) (writer' : IndentedWriter) (r' : R) :
  emitNamespaceImport collector entity ns writer r = Returns writer' r' ->
  grows noExportStatement writer writer'.
Proof.
  unfold emitNamespaceImport.
  destruct (nameForEmit entity) as [name|]; [|discriminate].
  destruct (Nat.ltb 0 _); [discriminate|].
  intros E. apply bind_returns in E. destruct E as (clauses & r1 & _ & E).
  unfold ret in E. injection E as <- _. grow.
Qed.

Lemma grows_writeHeader : grows noExportStatement [] (writeHeader collector).
Proof.
  unfold writeHeader.
  eapply grows_trans; [| apply grows_call; exact I].
  eapply grows_trans; [| apply grows_fold_left; intros w x; apply grows_call; exact I].
  eapply grows_trans; [| apply grows_fold_left; intros w x; apply grows_call; exact I].
  grow.
Qed.

Lemma grows_writeImports (writer : IndentedWriter) :
  grows noExportStatement writer (writeImports collector writer).
Proof.
  unfold writeImports.
  eapply grows_trans; [| apply grows_call; exact I].
  apply grows_fold_left. intros w e.
  destruct (astEntity e); grow.
Qed.

Lemma grows_writeFooter (writer : IndentedWriter) (r : R)
    (writer' : IndentedWriter) (r' : R) :
  writeFooter collector writer r = Returns writer' r' ->
  grows noExportStatement writer writer'.
Proof.
  unfold writeFooter. intros E.
  apply bind_returns in E. destruct E as (messages & r1 & _ & E).
  unfold ret in E. injection E as <- _.
  eapply grows_trans; [| apply grows_call; exact I].
  eapply grows_trans; [| apply grows_call; exact I].
  eapply grows_trans with (w2 := if negb (isEmpty messages) then _ else _).
  2:{ destruct (workingPackage_tsdocComment collector).
      - apply grows_refl.
      - eapply grows_trans; [| apply grows_writeLineAsComments]. grow. }
  destruct (negb (isEmpty messages)).
  - eapply grows_trans;
      [| apply grows_fold_left; intros w x; apply grows_writeLineAsComments].
    eapply grows_trans; [| apply grows_writeLineAsComments].
    eapply grows_trans; [| apply grows_writeLineAsComments].
    grow.
  - grow.
Qed.

Lemma grows_emitExportStatement (entity : CollectorEntity)
    (writer : IndentedWriter) (exportToEmit : IExportToEmit) :
  shouldInlineExport entity = false ->
  grows noInlinedExportStatement writer
    (emitExportStatement entity writer exportToEmit).
Proof.
  intros S. unfold emitExportStatement.
  eapply grows_trans; [| apply grows_call; exact S].
  destruct (negb (isEmpty (associatedMessages exportToEmit))).
  - eapply grows_trans;
      [| apply (grows_weaken _ _ _ _ noInlined_of_noExport), grows_writeWarnings].
    apply grows_call. exact I.
  - apply grows_refl.
Qed.

(** The declarations of an entity write no export statement, and leave no
    export statement pending when none was. *)
Lemma emitDeclarations_returns (fuel : nat) (entity : CollectorEntity)
    (astDeclarations : list AstDeclaration)
    (exportsToEmit : JsMap IExportToEmit) (writer : IndentedWriter) (r : R)
    (state' : JsMap IExportToEmit * IndentedWriter) (r' : R) :
  foldM (emitDeclaration collector options fuel entity) astDeclarations
    (exportsToEmit, writer) r = Returns state' r' ->
  grows noExportStatement writer (snd state')
  /\ (exportsToEmit = [] -> fst state' = []).
Proof.
  apply (foldM_invariant
           (fun st => grows noExportStatement writer (snd st)
                      /\ (exportsToEmit = [] -> fst st = []))).
  - intros [ex w] d r0 st1 r1 _ [G K] E. split.
    + apply (grows_trans _ _ w); [exact G|].
      apply (grows_emitDeclaration noExportStatement _ _ (ex, w) _ _ _ _
               (fun c Q => Q) E).
    + intros Z. cbn [fst] in K. rewrite (K Z) in E.
      apply (emitDeclaration_no_exports _ _ _ _ _ _ _ E).
  - split; [apply grows_refl | intros Z; exact Z].
Qed.

(** One entity: its export statements are those of [exportsToEmit]. *)
Lemma grows_emitEntity (fuel : nat) (writer : IndentedWriter)
    (entity : CollectorEntity) (r : R) (writer' : IndentedWriter) (r' : R) :
  emitEntity collector options fuel writer entity r = Returns writer' r' ->
  grows noInlinedExportStatement writer writer'
  /\ (shouldInlineExport entity = true -> grows noExportStatement writer writer').
Proof.
  unfold emitEntity.
  destruct (consumable entity || apiReportIncludeForgottenExports collector).
  2:{ unfold ret. intros E. injection E as <- _.
      split; [|intros _]; apply grows_refl. }
  intros E. apply bind_returns in E. destruct E as ([ex1 w1] & r1 & E1 & E).
  apply bind_returns in E. destruct E as (w2 & r2 & E2 & E).
  unfold ret in E. injection E as <- _.
  assert (G1 : grows noExportStatement writer w1
               /\ (collectExportsToEmit entity = [] -> ex1 = [])).
  { destruct (astEntity entity) as [n decls | m | ns].
    - apply (emitDeclarations_returns _ _ _ _ _ _ _ _ E1).
    - unfold ret in E1. injection E1 as <- <- _.
      split; [apply grows_refl | intros Z; exact Z].
    - unfold ret in E1. injection E1 as <- <- _.
      split; [apply grows_refl | intros Z; exact Z]. }
  destruct G1 as [G1 K1].
  assert (G2 : grows noExportStatement w1 w2).
  { destruct (astEntity entity) as [n decls | m | ns].
    - unfold ret in E2. injection E2 as <- _. apply grows_refl.
    - unfold ret in E2. injection E2 as <- _. apply grows_refl.
    - apply (grows_emitNamespaceImport _ _ _ _ _ _ E2). }
  pose proof (grows_trans _ _ _ _ G1 G2) as G12.
  destruct (shouldInlineExport entity) eqn:S.
  - rewrite (K1 (collectExportsToEmit_inlined entity S)).
    cbn [Map_values List.map fold_left].
    assert (G : grows noExportStatement writer (call w2 W_ensureSkippedLine)).
    { eapply grows_trans; [exact G12 | apply grows_call; exact I]. }
    split; [|intros _; exact G].
    apply (grows_weaken _ _ _ _ noInlined_of_noExport G).
  - split; [|intros Q; discriminate Q].
    eapply grows_trans; [| apply grows_call; exact I].
    eapply grows_trans.
    + apply (grows_weaken _ _ _ _ noInlined_of_noExport G12).
    + apply grows_fold_left. intros w x.
      apply grows_emitExportStatement. exact S.
Qed.

Lemma grows_assembleReport (fuel : nat) (r : R) (writer : IndentedWriter) (r' : R) :
  assembleReport collector options fuel r = Returns writer r' ->
  Forall noInlinedExportStatement writer.
Proof.
  unfold assembleReport. intros E.
  apply bind_returns in E. destruct E as (w1 & r1 & E1 & E2).
  assert (G : grows noInlinedExportStatement [] writer).
  { eapply grows_trans;
      [| apply (grows_weaken _ _ _ _ noInlined_of_noExport),
           (grows_writeFooter _ _ _ _ E2)].
    apply (foldM_invariant (fun w => grows noInlinedExportStatement [] w)
             (emitEntity collector options fuel) (entities collector))
      with (acc := writeImports collector (writeHeader collector)) (r := r) (r' := r1).
    - intros acc x r0 acc' r0' _ G E.
      apply (grows_trans _ _ acc); [exact G|].
      apply (grows_emitEntity _ _ _ _ _ _ E).
    - apply (grows_weaken _ _ _ _ noInlined_of_noExport).
      eapply grows_trans; [apply grows_writeHeader | apply grows_writeImports].
    - exact E1. }
  destruct G as (added & -> & F). exact F.
Qed.

Lemma emitDeclarations_inlined (fuel : nat) (entity : CollectorEntity)
    (astDeclarations : list AstDeclaration) :
  forall (writer : IndentedWriter) (r : R)
         (state' : JsMap IExportToEmit * IndentedWriter) (r' : R),
    foldM (emitDeclaration collector options fuel entity) astDeclarations
      ([], writer) r = Returns state' r'
    <-> exists added,
          declarationsWritten collector options fuel entity astDeclarations r added r'
          /\ state' = ([], writer ++ added).
Proof.
  induction astDeclarations as [|d rest IH]; intros writer r state' r'.
  - cbn [foldM declarationsWritten]. unfold ret. split.
    + intros E. injection E as <- <-. exists []. rewrite app_nil_r. repeat split.
    + intros (added & (-> & ->) & ->). rewrite app_nil_r. reflexivity.
  - cbn [foldM declarationsWritten]. unfold bind at 1.
    unfold emitDeclaration. unfold bind at 1. unfold router_call.
    destruct (fetchAssociatedMessagesForReviewFile collector d r) as [fetched r0].
    rewrite peelMessage_no_exports. cbn [app].
    destruct (getAedocSynopsis_returns d fetched r0) as (sr & r1 & Es).
    rewrite writeWarnings_calls in Es. unfold new_IndentedWriter in Es.
    cbn [app] in Es.
    set (warnings :=
           flat_map
             (fun message =>
                commentCalls (str "Warning: " ++ formatMessageWithoutLocation message))
             fetched) in *.
    unfold bind at 1. rewrite Es. unfold bind at 1.
    destruct (modifyDeclarationSpan collector options fuel entity d r1)
      as [span r2| |] eqn:Em.
    + unfold ret at 1. unfold call. rewrite IH. split.
      * intros (added & D & ->).
        exists ([ W_ensureSkippedLine;
                  W_write (IndentedWriter_toString (warnings ++ sr));
                  W_write (getModifiedText span); W_ensureNewLine ] ++ added).
        split.
        -- exists sr, r1, span, r2, added. cbv zeta.
           split; [reflexivity|]. split; [exact Em|]. split; [reflexivity | exact D].
        -- rewrite <- !app_assoc. reflexivity.
      * intros (added & (sr' & r1' & span' & r2' & added' & Es' & Em' & -> & D) & ->).
        cbv zeta in Es'. injection Es' as Q <-.
        rewrite Em in Em'. injection Em' as <- <-.
        exists added'. split; [exact D|]. rewrite <- Q, <- !app_assoc. reflexivity.
    + split; [discriminate|].
      intros (added & (sr' & r1' & span' & r2' & added' & Es' & Em' & _) & _).
      cbv zeta in Es'. injection Es' as _ <-.
      rewrite Em in Em'. discriminate.
    + split; [discriminate|].
      intros (added & (sr' & r1' & span' & r2' & added' & Es' & Em' & _) & _).
      cbv zeta in Es'. injection Es' as _ <-.
      rewrite Em in Em'. discriminate.
Qed.

Lemma emitEntity_inlined (fuel : nat) (entity : CollectorEntity) (name : jstring)
    (astDeclarations : list AstDeclaration) (writer : IndentedWriter) (r : R)
    (writer' : IndentedWriter) (r' : R) :
  shouldInlineExport entity = true ->
  consumable entity || apiReportIncludeForgottenExports collector = true ->
  astEntity entity = AstSymbol name astDeclarations ->
  emitEntity collector options fuel writer entity r = Returns writer' r'
  <-> exists added,
        declarationsWritten collector options fuel entity astDeclarations r added r'
        /\ writer' = writer ++ added ++ [W_ensureSkippedLine].
Proof.
  intros S C A. unfold emitEntity.
  rewrite C, A, (collectExportsToEmit_inlined entity S). split.
  - intros E. apply bind_returns in E. destruct E as ([ex w1] & r1 & F & E).
    apply emitDeclarations_inlined in F. destruct F as (added & D & Q).
    injection Q as -> ->.
    unfold bind, ret in E. cbn [Map_values List.map fold_left] in E.
    injection E as <- <-. exists added. split; [exact D|].
    unfold call. rewrite <- app_assoc. reflexivity.
  - intros (added & D & ->).
    assert (F : foldM (emitDeclaration collector options fuel entity) astDeclarations
                  ([], writer) r = Returns ([], writer ++ added) r').
    { apply emitDeclarations_inlined. exists added. split; [exact D | reflexivity]. }
    rewrite (bind_continues _ _ _ _ _ F). unfold bind, ret, call.
    cbn [Map_values List.map fold_left]. rewrite <- app_assoc. reflexivity.
Qed.

Lemma emitEntities_extend (fuel : nat) (all : list CollectorEntity) :
  forall (writer : IndentedWriter) (r : R) (writer' : IndentedWriter) (r' : R),
    foldM (emitEntity collector options fuel) all writer r = Returns writer' r' ->
    exists rest, writer' = writer ++ rest.
Proof.
  intros writer r writer' r' E.
  assert (G : grows noInlinedExportStatement writer writer').
  { apply (foldM_invariant (fun w => grows noInlinedExportStatement writer w)
             (emitEntity collector options fuel) all)
      with (acc := writer) (r := r) (r' := r').
    - intros acc x r0 acc' r0' _ G E0.
      apply (grows_trans _ _ acc); [exact G|].
      apply grows_emitEntity in E0. apply E0.
    - apply grows_refl.
    - exact E. }
  destruct G as (rest & -> & _). exists rest. reflexivity.
Qed.

Lemma assembleReport_inlined (fuel : nat) (entity : CollectorEntity) (name : jstring)
    (astDeclarations : list AstDeclaration) (before after : list CollectorEntity)
    (r : R) (writer : IndentedWriter) (r' : R) :
  shouldInlineExport entity = true ->
  consumable entity || apiReportIncludeForgottenExports collector = true ->
  astEntity entity = AstSymbol name astDeclarations ->
  entities collector = before ++ entity :: after ->
  assembleReport collector options fuel r = Returns writer r' ->
  exists (w0 : IndentedWriter) (r0 : R) (added : list WriterCall) (r1 : R)
         (rest : list WriterCall),
    foldM (emitEntity collector options fuel) before
      (writeImports collector (writeHeader collector)) r = Returns w0 r0
    /\ declarationsWritten collector options fuel entity astDeclarations r0 added r1
    /\ writer = w0 ++ added ++ [W_ensureSkippedLine] ++ rest.
Proof.
  intros S C A En E. unfold assembleReport in E.
  apply bind_returns in E. destruct E as (w2 & r2 & E1 & E2).
  rewrite En, foldM_app in E1.
  apply bind_returns in E1. destruct E1 as (w0 & r0 & Eb & E1).
  cbn [foldM] in E1. apply bind_returns in E1. destruct E1 as (w1 & r1 & Ee & Ea).
  apply (emitEntity_inlined _ _ name astDeclarations _ _ _ _ S C A) in Ee.
  destruct Ee as (added & D & ->).
  apply emitEntities_extend in Ea. destruct Ea as (x & ->).
  apply grows_writeFooter in E2. destruct E2 as (y & -> & _).
  exists w0, r0, added, r1, (x ++ y). split; [exact Eb|]. split; [exact D|].
  rewrite <- !app_assoc. reflexivity.
Qed.

(** C10: an entity with [shouldInlineExport] has no entry in
    [exportsToEmit], so no export statement is written for it anywhere in
    the report, and every message the router hands out for one of its
    declarations, whatever [exportName] it carries, goes to the synopsis of
    that declaration: a turn of the loop for such a symbol returns exactly
    when the span of every declaration can be written, and then it writes
    for each declaration a skipped line, the synopsis that starts with a
    warning comment for every message fetched, the text of the span and
    the end of the line, and behind them a skipped line and nothing else;
    the report holds these calls behind what the entities before wrote. *)
Theorem inlined_export_has_no_export_statement (fuel : nat) (entity : CollectorEntity) :
  shouldInlineExport entity = true ->
  collectExportsToEmit entity = []
  /\ (forall fetchedMessages : list ExtractorMessage,
         fold_left peelMessage fetchedMessages (collectExportsToEmit entity, [])
         = ([], fetchedMessages))
  /\ (forall (writer : IndentedWriter) (r : R) (writer' : IndentedWriter) (r' : R),
         emitEntity collector options fuel writer entity r = Returns writer' r' ->
         exists added,
           writer' = writer ++ added
           /\ forall exportName e, ~ In (W_emitNamedExport exportName e) added)
  /\ (forall (r : R) (writer : IndentedWriter) (r' : R),
         assembleReport collector options fuel r = Returns writer r' ->
         forall exportName, ~ In (W_emitNamedExport exportName entity) writer)
  /\ (forall (name : jstring) (astDeclarations : list AstDeclaration)
             (writer : IndentedWriter) (r : R) (writer' : IndentedWriter) (r' : R),
         consumable entity || apiReportIncludeForgottenExports collector = true ->
         astEntity entity = AstSymbol name astDeclarations ->
         (emitEntity collector options fuel writer entity r = Returns writer' r'
          <-> exists added,
                declarationsWritten collector options fuel entity astDeclarations
                  r added r'
                /\ writer' = writer ++ added ++ [W_ensureSkippedLine]))
  /\ (forall (name : jstring) (astDeclarations : list AstDeclaration)
             (before after : list CollectorEntity)
             (r : R) (writer : IndentedWriter) (r' : R),
         consumable entity || apiReportIncludeForgottenExports collector = true ->
         astEntity entity = AstSymbol name astDeclarations ->
         entities collector = before ++ entity :: after ->
         assembleReport collector options fuel r = Returns writer r' ->
         exists (w0 : IndentedWriter) (r0 : R) (added : list WriterCall) (r1 : R)
                (rest : list WriterCall),
           foldM (emitEntity collector options fuel) before
             (writeImports collector (writeHeader collector)) r = Returns w0 r0
           /\ declarationsWritten collector options fuel entity astDeclarations
                r0 added r1
           /\ writer = w0 ++ added ++ [W_ensureSkippedLine] ++ rest).
Proof.
  intros S.
  pose proof (collectExportsToEmit_inlined entity S) as C.
  split; [exact C|]. split; [|split; [|split; [|split]]].
  - intros fetchedMessages. rewrite C. apply peelMessage_no_exports.
  - intros writer r writer' r' E.
    destruct (grows_emitEntity _ _ _ _ _ _ E) as [_ G].
    destruct (G S) as (added & -> & F). exists added.
    split; [reflexivity|]. intros n e In_.
    rewrite Forall_forall in F. apply (F _ In_).
  - intros r writer r' E n In_.
    pose proof (grows_assembleReport _ _ _ _ E) as F.
    rewrite Forall_forall in F. specialize (F _ In_). cbn in F. congruence.
  - intros name astDeclarations writer r writer' r' Co A.
    apply (emitEntity_inlined fuel entity name astDeclarations writer r writer' r'
             S Co A).
  - intros name astDeclarations before after r writer r' Co A En E.
    apply (assembleReport_inlined fuel entity name astDeclarations before after
             r writer r' S Co A En E).
Qed.

(** C9, as the code has it: the report is the text of the writer behind a
    last pass that takes away the spaces (U+0020, no other whitespace) at
    the end of every line; no line of the report ends with a space, and
    nothing but spaces is taken away. *)
Theorem generateReviewFileContent_trims_trailing_spaces (fuel : nat) (r : R)
    (report : jstring) (r' : R) :
  generateReviewFileContent collector options fuel r = Returns report r' ->
  (exists writer : IndentedWriter,
      assembleReport collector options fuel r = Returns writer r'
      /\ report = trimSpaces (IndentedWriter_toString writer)
      /\ filter (fun c => negb (N.eqb c 32)) report
         = filter (fun c => negb (N.eqb c 32)) (IndentedWriter_toString writer))
  /\ Forall (fun line => endsWith SP line = false) (split_on LF report)
  /\ (forall pre post, report = pre ++ SP :: post -> at_end_of_line post = false).
Proof.
  unfold generateReviewFileContent. intros E.
  apply bind_returns in E. destruct E as (writer & r1 & E1 & E2).
  unfold ret in E2. injection E2 as <- <-.
  destruct (trimSpaces_no_trailing_space (IndentedWriter_toString writer))
    as (P1 & P2 & P3).
  split; [|split].
  - exists writer. split; [exact E1|]. split; [reflexivity | exact P3].
  - exact P2.
  - exact P1.
Qed.



(** C8, as the code has it: a declaration flagged preapproved is handed
    to [_modifySpanForPreapproved] and not to [_modifySpan].  That policy
    touches the overlays of the children only.  Up to the first Identifier
    child a SyntaxList or JSDoc child is suppressed and every other child
    is kept; the first Identifier loses its separator and gets the suffix
    [ { /* (preapproved) */ }]; every child behind it is suppressed, and a
    later Identifier child gets the suffix too.  So the declaration, whose
    own overlay is the fresh one, is written as the kept children, the
    first identifier and the suffix, then the suffix once more for every
    later Identifier child; a declaration without an Identifier child is
    written without its lists and comments and without the suffix. *)
Theorem preapproved_declaration_is_collapsed :
  preapprovedSuffix = str " { /* (preapproved) */ }"
  /\ (forall (fuel : nat) (entity : CollectorEntity)
             (astDeclaration : AstDeclaration) (r : R),
         isPreapproved (fetchApiItemMetadata collector astDeclaration) = true ->
         modifyDeclarationSpan collector options fuel entity astDeclaration r
         = Returns
             (_modifySpanForPreapproved
                (new_Span (sourceFileText collector (declaration astDeclaration))
                   (declaration astDeclaration))) r)
  /\ (forall (text : jstring) (node : Node),
         omitChildren (modification (new_Span text node)) = false
         /\ sortChildren (modification (new_Span text node)) = false)
  /\ (forall (span identifier : Span) (before after : list Span),
         span_children span = before ++ identifier :: after ->
         isIdentifier identifier = true ->
         forallb (fun c => negb (isIdentifier c)) before = true ->
         span_children (_modifySpanForPreapproved span)
         = List.map (fun c => if isListOrComment c then skipAll c else c) before
           ++ set_suffix (set_omitSeparatorAfter identifier true) preapprovedSuffix
           :: List.map
                (fun c =>
                   if isIdentifier c
                   then set_suffix (set_omitSeparatorAfter (skipAll c) true)
                          preapprovedSuffix
                   else skipAll c)
                after
         /\ set_children (_modifySpanForPreapproved span) (span_children span) = span
         /\ (omitChildren (modification span) = false ->
             sortChildren (modification span) = false ->
             getModifiedText (_modifySpanForPreapproved span)
             = modification_prefix span
               ++ concat (List.map
                            (fun c => if isListOrComment c then []
                                      else snd (writeChild c))
                            before)
               ++ textBeforeSuffix identifier ++ preapprovedSuffix
               ++ concat (List.map
                            (fun c => if isIdentifier c then preapprovedSuffix else [])
                            after)
               ++ modification_suffix span))
  /\ (forall span : Span,
         forallb (fun c => negb (isIdentifier c)) (span_children span) = true ->
         span_children (_modifySpanForPreapproved span)
         = List.map (fun c => if isListOrComment c then skipAll c else c)
             (span_children span)
         /\ (omitChildren (modification span) = false ->
             sortChildren (modification span) = false ->
             getModifiedText (_modifySpanForPreapproved span)
             = modification_prefix span
               ++ concat (List.map
                            (fun c => if isListOrComment c then []
                                      else snd (writeChild c))
                            (span_children span))
               ++ modification_suffix span)).
Proof.
  split; [reflexivity|]. split; [|split; [|split]].
  - intros fuel entity astDeclaration r P.
    unfold modifyDeclarationSpan. rewrite P. reflexivity.
  - intros text node. rewrite new_Span_modification. split; reflexivity.
  - intros span identifier before after C I N.
    exact (modifySpanForPreapproved_effect span identifier before after C I N).
  - intros span N.
    exact (modifySpanForPreapproved_without_identifier span N).
Qed.

End GenerateProperties.

(** ** The bound on the depth of the rewrite pass *)

Lemma height_eq (s : Span) :
  height s = S (fold_right (fun c h => Nat.max (height c) h) 0%nat (span_children s)).
Proof. destruct s; reflexivity. Qed.

Lemma noImportType_eq (s : Span) :
  noImportType s
  = negb (SyntaxKind_eqb (span_kind s) ImportType) && forallb noImportType (span_children s).
Proof. destruct s; reflexivity. Qed.

Lemma sameTree_height (s s' : Span) :
  sameTree s s' -> height s' = height s /\ noImportType s' = noImportType s.
Proof.
  intros [N C]. rewrite !height_eq, !noImportType_eq. unfold span_kind.
  rewrite N, C. split; reflexivity.
Qed.

Lemma sameTree_refl (s : Span) : sameTree s s.
Proof. split; reflexivity. Qed.

Lemma sameTree_set_modification (s : Span) (m : SpanModification) :
  sameTree s (set_modification s m).
Proof. destruct s; split; reflexivity. Qed.

Lemma sameTree_set_prefix (s : Span) (v : jstring) : sameTree s (set_prefix s v).
Proof. destruct s; split; reflexivity. Qed.

Lemma sameTree_set_suffix (s : Span) (v : jstring) : sameTree s (set_suffix s v).
Proof. destruct s; split; reflexivity. Qed.

Lemma sameTree_set_sortKey (s : Span) (v : jstring) : sameTree s (set_sortKey s v).
Proof. destruct s; split; reflexivity. Qed.

Lemma sameTree_skipAll (s : Span) : sameTree s (skipAll s).
Proof. destruct s; split; reflexivity. Qed.

Lemma sameTree_trans (a b c : Span) : sameTree a b -> sameTree b c -> sameTree a c.
Proof. intros [N1 C1] [N2 C2]. split; congruence. Qed.

Lemma child_height (c : Span) (cs : list Span) :
  In c cs -> (height c <= fold_right (fun c h => Nat.max (height c) h) 0%nat cs)%nat.
Proof.
  induction cs as [|d cs IH]; intros I; [contradiction|].
  cbn [fold_right]. destruct I as [-> | I]; [lia|].
  specialize (IH I). lia.
Qed.

Lemma foldM_not_out_of_fuel {R A B : Type} (f : A -> B -> M R A) (xs : list B) :
  (forall acc x r, In x xs -> f acc x r <> OutOfFuel) ->
  forall acc r, foldM f xs acc r <> OutOfFuel.
Proof.
  induction xs as [|x xs IH]; intros step acc r.
  - discriminate.
  - cbn [foldM]. unfold bind.
    destruct (f acc x r) as [a r1| |] eqn:E.
    + apply IH. intros acc' y r' I. apply step. right. exact I.
    + discriminate.
    + exfalso. apply (step acc x r (or_introl eq_refl) E).
Qed.

Section FuelSuffices.
Context `{Analyzer} `{ReleaseTagEnum} `{Emitter} {R : Type}.
Variable collector : Collector R.
Variable entity : CollectorEntity.
Variable level : Z.

Lemma getAedocSynopsis_not_out_of_fuel (astDeclaration : AstDeclaration)
    (messages : list ExtractorMessage) (r : R) :
  exists text r', _getAedocSynopsis collector astDeclaration messages r = Returns text r'.
Proof.
  unfold _getAedocSynopsis.
  destruct (negb (isAncillaryDeclaration collector astDeclaration)).
  - unfold bind.
    destruct (undocumented (fetchApiItemMetadata collector astDeclaration));
      unfold router_call, ret; eexists; eexists; reflexivity.
  - unfold ret. eexists; eexists; reflexivity.
Qed.

(** Outside ImportType spans the switch returns or throws, and keeps the
    tree. *)
Lemma modifySpan_switch_outcome (recurse : modifyNestedSpan R)
    (parent : option SyntaxKind) (previousSpan : option Span) (span : Span)
    (astDeclaration : AstDeclaration) (insideTypeLiteral : bool) (r : R) :
  span_kind span <> ImportType ->
  (exists e, modifySpan_switch collector entity recurse parent previousSpan span
               astDeclaration insideTypeLiteral r = Throws e)
  \/ (exists sw, modifySpan_switch collector entity recurse parent previousSpan span
                   astDeclaration insideTypeLiteral r = Returns sw r
                 /\ sameTree span (sw_span sw)).
Proof.
  intros K. unfold modifySpan_switch.
  destruct (span_kind span) eqn:Kind; try contradiction;
    repeat match goal with
           | |- context [match ?x with _ => _ end] => destruct x eqn:?
           end;
    first
      [ left; eexists; reflexivity
      | right; eexists; split;
        [ reflexivity
        | cbn [sw_span];
          repeat first
            [ apply sameTree_refl
            | eapply sameTree_trans; [| apply sameTree_set_prefix]
            | eapply sameTree_trans; [| apply sameTree_set_suffix]
            | eapply sameTree_trans; [| apply sameTree_skipAll] ] ] ].
Qed.

(** What the parent does to a child before the visit keeps the tree of
    the child. *)
Lemma modifySpan_prepareChild_outcome
    (astDeclaration : AstDeclaration) (sortChildren insideTypeLiteral : bool)
    (span child : Span) (r : R) :
  (exists e, modifySpan_prepareChild collector level astDeclaration sortChildren
               insideTypeLiteral span child r = Throws e)
  \/ (exists span' child' declaration r',
        modifySpan_prepareChild collector level astDeclaration sortChildren
          insideTypeLiteral span child r = Returns (span', child', declaration) r'
        /\ sameTree child child').
Proof.
  unfold modifySpan_prepareChild, bind, lift, ret, throw, router_call.
  destruct (isSupportedSyntaxKind (span_kind child)).
  2:{ right. do 4 eexists. split; [reflexivity | apply sameTree_refl]. }
  destruct (getChildAstDeclarationByNode collector (span_node child) astDeclaration)
    as [d|e]; [|left; eexists; reflexivity].
  destruct (_shouldIncludeInReport collector d level) as [[|]|e].
  - right. destruct sortChildren, (negb insideTypeLiteral); cbv beta iota;
      try (destruct (fetchAssociatedMessagesForReviewFile collector d r) as [msgs r1];
           destruct (getAedocSynopsis_not_out_of_fuel d msgs r1) as (text & r2 & E);
           rewrite E);
      do 4 eexists; (split; [reflexivity|]);
      repeat first
        [ apply sameTree_refl
        | eapply sameTree_trans; [| apply sameTree_set_prefix]
        | eapply sameTree_trans; [| apply sameTree_set_sortKey] ].
  - right. do 4 eexists. split; [reflexivity | apply sameTree_refl].
  - left. eexists. reflexivity.
Qed.

(** One turn of the loop over the children returns or throws when the
    recursive call does. *)
Lemma modifySpan_child_outcome (recurse : modifyNestedSpan R)
    (astDeclaration : AstDeclaration) (sortChildren insideTypeLiteral : bool)
    (state : Span * list Span) (child : Span) (r : R) :
  (forall parent previousSpan child' declaration r',
      sameTree child child' ->
      recurse parent previousSpan child' declaration r' <> OutOfFuel) ->
  modifySpan_child collector level recurse astDeclaration sortChildren
    insideTypeLiteral state child r <> OutOfFuel.
Proof.
  intros Rec. unfold modifySpan_child. destruct state as [span visited].
  unfold bind at 1.
  destruct (modifySpan_prepareChild_outcome astDeclaration sortChildren
              insideTypeLiteral span child r)
    as [(e & E) | (span' & child' & d & r' & E & Same)]; rewrite E;
    [discriminate|].
  unfold bind at 1.
  destruct (recurse (Some (span_kind span')) (last_opt visited) child' d r')
    as [[c p] r2| |] eqn:Q; try discriminate.
  exfalso. exact (Rec _ _ _ _ _ Same Q).
Qed.

(** Fuel above the depth of a span tree without ImportType spans is
    enough: the rewrite pass returns or throws. *)
Lemma modifySpan_fuel_suffices (fuel : nat) :
  forall (span : Span) (parent : option SyntaxKind) (previousSpan : option Span)
         (astDeclaration : AstDeclaration) (insideTypeLiteral : bool) (r : R),
    (height span <= fuel)%nat -> noImportType span = true ->
    _modifySpan collector entity level fuel parent previousSpan span
      astDeclaration insideTypeLiteral r <> OutOfFuel.
Proof.
  induction fuel as [|fuel IH];
    intros span parent previousSpan astDeclaration insideTypeLiteral r Hh Hn.
  - rewrite height_eq in Hh. lia.
  - cbn [_modifySpan]. unfold bind.
    destruct (_shouldIncludeInReport collector astDeclaration level) as [[|]|e];
      cbn [lift negb]; unfold ret, throw; try discriminate.
    rewrite noImportType_eq in Hn. apply andb_true_iff in Hn.
    destruct Hn as [Hk Hc]. apply negb_true_iff in Hk.
    assert (K : span_kind span <> ImportType).
    { intros Q. rewrite Q in Hk. discriminate Hk. }
    cbn [negb]. cbv beta.
    match goal with
    | |- context [modifySpan_switch collector entity ?rec parent previousSpan span
                    astDeclaration insideTypeLiteral ?r0] =>
        destruct (modifySpan_switch_outcome rec parent previousSpan span
                    astDeclaration insideTypeLiteral r0 K)
          as [(e & E) | (sw & E & [_ Same])]; rewrite E; [discriminate|]
    end.
    destruct (sw_recurseChildren sw); [|discriminate].
    cbv beta.
    match goal with
    | |- context [foldM ?f ?xs ?acc ?r0] =>
        destruct (foldM f xs acc r0) as [[s' v'] r1| |] eqn:F; try discriminate;
        exfalso; revert F; apply foldM_not_out_of_fuel
    end.
    intros acc child r0 In_. apply modifySpan_child_outcome.
    intros parent' previous' child' declaration r' Same'.
    rewrite Same in In_.
    destruct (sameTree_height child child' Same') as [Eh En].
    apply IH.
    + rewrite Eh. rewrite height_eq in Hh.
      pose proof (child_height child _ In_). lia.
    + rewrite En. rewrite forallb_forall in Hc. apply Hc. exact In_.
Qed.

End FuelSuffices.

(** * Further properties of the generator *)

(** ** The trimming pass and the comparison of reports *)

Lemma trim_scan_fixed (s : jstring) :
  noTrailingSpaces s = true -> trim_scan s = s.
Proof.
  induction s as [|c r IH]; intros C; [reflexivity|].
  cbn [noTrailingSpaces] in C. apply andb_true_iff in C. destruct C as [C1 C2].
  apply negb_true_iff in C1. cbn [trim_scan]. rewrite C1, (IH C2). reflexivity.
Qed.

(** X1: trimming is idempotent, and it leaves a text alone exactly when no
    space of the text is followed by spaces up to the end of its line. *)
Theorem trimSpaces_idempotent (s : jstring) :
  trimSpaces (trimSpaces s) = trimSpaces s
  /\ (trimSpaces s = s <-> noTrailingSpaces s = true).
Proof.
  rewrite !trimSpaces_scan. split.
  - apply trim_scan_fixed, noTrailingSpaces_trim.
  - split.
    + intros E. rewrite <- E. apply noTrailingSpaces_trim.
    + apply trim_scan_fixed.
Qed.

Lemma endsWith_cons (x c d : char) (r : jstring) :
  endsWith x (c :: d :: r) = endsWith x (d :: r).
Proof.
  unfold endsWith. cbn [rev].
  destruct (rev r ++ [d]) as [|e l] eqn:E.
  - destruct (rev r); discriminate.
  - reflexivity.
Qed.

Lemma spaces_to_end_of_line_head (d : char) (r : jstring) :
  spaces_to_end_of_line (d :: r) = true -> isWhiteSpace d = true.
Proof.
  cbn [spaces_to_end_of_line]. destruct (N.eqb d 32) eqn:S.
  - intros _. apply N.eqb_eq in S. subst d. reflexivity.
  - intros L. unfold isWhiteSpace. rewrite L. apply orb_true_r.
Qed.

Lemma collapse_scan_trim (s : jstring) :
  endsWith SP s = false ->
  forall b, collapse_scan b (trim_scan s) = collapse_scan b s.
Proof.
  induction s as [|c r IH]; intros E b; [reflexivity|].
  destruct r as [|d r'].
  - cbn [trim_scan spaces_to_end_of_line].
    unfold endsWith in E. cbn [rev app] in E.
    change (N.eqb c SP) with (N.eqb c 32) in E. rewrite E. reflexivity.
  - rewrite endsWith_cons in E. specialize (IH E).
    cbn [trim_scan].
    destruct (N.eqb c 32 && spaces_to_end_of_line (d :: r')) eqn:T.
    + apply andb_true_iff in T. destruct T as [Sc T].
      apply N.eqb_eq in Sc. subst c.
      pose proof (spaces_to_end_of_line_head d r' T) as Wd.
      rewrite IH. cbn [collapse_scan]. rewrite Wd.
      change (isWhiteSpace 32%N) with true. cbn iota.
      destruct b; reflexivity.
    + cbn [collapse_scan].
      destruct (isWhiteSpace c); [destruct b|]; rewrite IH; reflexivity.
Qed.

Lemma all_spaces_repeat (r : jstring) :
  forallb (fun d => N.eqb d 32) r = true -> r = repeat SP (length r).
Proof.
  induction r as [|d r IH]; intros A; [reflexivity|].
  cbn [forallb] in A. apply andb_true_iff in A. destruct A as [Sd A].
  apply N.eqb_eq in Sd. subst d. cbn [length repeat]. rewrite <- (IH A).
  reflexivity.
Qed.

Lemma withoutFinalSpaces_nil (s : jstring) :
  withoutFinalSpaces s = [] -> forallb (fun d => N.eqb d 32) s = true.
Proof.
  destruct s as [|c r]; [reflexivity|]. cbn [withoutFinalSpaces forallb].
  destruct (N.eqb c 32 && forallb (fun d => N.eqb d 32) r); [reflexivity | discriminate].
Qed.

Lemma withoutFinalSpaces_split (s : jstring) :
  exists n : nat,
    s = withoutFinalSpaces s ++ repeat SP n
    /\ endsWith SP (withoutFinalSpaces s) = false.
Proof.
  induction s as [|c r (n & E & F)]; [exists 0%nat; split; reflexivity|].
  cbn [withoutFinalSpaces].
  destruct (N.eqb c 32 && forallb (fun d => N.eqb d 32) r) eqn:T.
  - apply andb_true_iff in T. destruct T as [Sc A]. apply N.eqb_eq in Sc. subst c.
    exists (S (length r)). split; [|reflexivity].
    cbn [app repeat]. rewrite <- (all_spaces_repeat r A). reflexivity.
  - exists n. split; [cbn [app]; rewrite <- E; reflexivity|].
    destruct (withoutFinalSpaces r) as [|d r'] eqn:W.
    + unfold endsWith. cbn [rev app]. change (N.eqb c SP) with (N.eqb c 32).
      destruct (N.eqb c 32); [|reflexivity].
      rewrite (withoutFinalSpaces_nil r W) in T. discriminate.
    + rewrite endsWith_cons. exact F.
Qed.

Lemma spaces_to_end_of_line_final (r : jstring) (n : nat) :
  r <> [] -> endsWith SP r = false ->
  spaces_to_end_of_line (r ++ repeat SP n) = spaces_to_end_of_line r.
Proof.
  induction r as [|d r IH]; intros N E; [contradiction|].
  destruct r as [|e r'].
  - unfold endsWith in E. cbn [rev app] in E.
    change (N.eqb d SP) with (N.eqb d 32) in E.
    cbn [app spaces_to_end_of_line]. rewrite E. reflexivity.
  - rewrite endsWith_cons in E.
    change ((d :: e :: r') ++ repeat SP n) with (d :: ((e :: r') ++ repeat SP n)).
    cbn [spaces_to_end_of_line]. 
    destruct (N.eqb d 32); [|reflexivity].
    apply IH; [discriminate | exact E].
Qed.

Lemma trim_scan_spaces (n : nat) : trim_scan (repeat SP n) = [].
Proof.
  induction n as [|n IH]; [reflexivity|].
  cbn [repeat trim_scan]. change (N.eqb SP 32) with true. cbn [andb].
  assert (A : spaces_to_end_of_line (repeat SP n) = true).
  { clear IH. induction n as [|n IH]; [reflexivity|]. exact IH. }
  rewrite A. exact IH.
Qed.

Lemma trim_scan_final (body : jstring) (n : nat) :
  endsWith SP body = false ->
  trim_scan (body ++ repeat SP n) = trim_scan body.
Proof.
  induction body as [|c r IH]; intros E; [apply trim_scan_spaces|].
  destruct r as [|d r'].
  - unfold endsWith in E. cbn [rev app] in E.
    change (N.eqb c SP) with (N.eqb c 32) in E.
    cbn [app trim_scan]. rewrite E. cbn [andb]. rewrite trim_scan_spaces.
    reflexivity.
  - rewrite endsWith_cons in E.
    change ((c :: d :: r') ++ repeat SP n) with (c :: ((d :: r') ++ repeat SP n)).
    cbn [trim_scan].
    rewrite (spaces_to_end_of_line_final (d :: r') n ltac:(discriminate) E).
    rewrite (IH E). reflexivity.
Qed.

Lemma scan_state_endsWithWhiteSpace (s : jstring) :
  scan_state false s = endsWithWhiteSpace s.
Proof. reflexivity. Qed.

(** X2: the comparison of reports sees the trimming pass at the end of
    the text only: a text is equivalent to its trimmed form exactly when it
    does not end with a space, or the spaces that end it follow a whitespace
    character (a line terminator, say). *)
Theorem trimSpaces_is_equivalent (s : jstring) :
  areEquivalentApiFileContents (trimSpaces s) s
  = negb (endsWith SP s) || endsWithWhiteSpace (withoutFinalSpaces s).
Proof.
  unfold areEquivalentApiFileContents.
  rewrite !normalizeWhitespace_scan, trimSpaces_scan.
  destruct (withoutFinalSpaces_split s) as (n & E & F).
  destruct (endsWith SP s) eqn:Es.
  - cbn [negb orb]. destruct n as [|n].
    { rewrite app_nil_r in E. rewrite <- E in F. congruence. }
    rewrite E at 1 2. rewrite (trim_scan_final _ _ F), (collapse_scan_trim _ F).
    rewrite collapse_scan_app.
    assert (A : allWhiteSpace (repeat SP (S n)) = true).
    { clear. induction n as [|n IH]; [reflexivity|]. exact IH. }
    destruct (collapse_scan_whitespace (scan_state false (withoutFinalSpaces s))
                (repeat SP (S n)) A ltac:(discriminate)) as [C _].
    rewrite C, scan_state_endsWithWhiteSpace.
    destruct (endsWithWhiteSpace (withoutFinalSpaces s)).
    + rewrite app_nil_r. apply jstring_eqb_eq. reflexivity.
    + apply jstring_eqb_neq. intros Q.
      apply (f_equal (@length char)) in Q. rewrite length_app in Q.
      cbn [length] in Q. lia.
  - cbn [negb orb]. apply jstring_eqb_eq. apply collapse_scan_trim. exact Es.
Qed.

Lemma collapse_scan_idempotent (s : jstring) :
  (forall b, collapse_scan false (collapse_scan b s) = collapse_scan b s)
  /\ collapse_scan true (collapse_scan true s) = collapse_scan true s.
Proof.
  induction s as [|c r [IH1 IH2]]; [split; [intros b|]; reflexivity|].
  split.
  - intros b. cbn [collapse_scan]. destruct (isWhiteSpace c) eqn:W.
    + destruct b; [apply IH1|].
      cbn [collapse_scan]. change (isWhiteSpace SP) with true. cbn iota.
      rewrite IH2. reflexivity.
    + cbn [collapse_scan]. rewrite W, IH1. reflexivity.
  - cbn [collapse_scan]. destruct (isWhiteSpace c) eqn:W.
    + exact IH2.
    + cbn [collapse_scan]. rewrite W, IH1. reflexivity.
Qed.

(** X3: the comparison of reports is an equivalence relation, and every
    text is equivalent to its normal form, which normalizing again does
    not change. *)
Theorem areEquivalentApiFileContents_equivalence :
  (forall a, areEquivalentApiFileContents a a = true)
  /\ (forall a b, areEquivalentApiFileContents a b = areEquivalentApiFileContents b a)
  /\ (forall a b c,
         areEquivalentApiFileContents a b = true ->
         areEquivalentApiFileContents b c = true ->
         areEquivalentApiFileContents a c = true)
  /\ (forall a, normalizeWhitespace (normalizeWhitespace a) = normalizeWhitespace a)
  /\ (forall a, areEquivalentApiFileContents (normalizeWhitespace a) a = true).
Proof.
  unfold areEquivalentApiFileContents.
  assert (Idem : forall a, normalizeWhitespace (normalizeWhitespace a)
                           = normalizeWhitespace a).
  { intros a. rewrite !normalizeWhitespace_scan. apply collapse_scan_idempotent. }
  split; [|split; [|split; [|split]]].
  - intros a. apply jstring_eqb_eq. reflexivity.
  - intros a b.
    destruct (jstring_eqb (normalizeWhitespace a) (normalizeWhitespace b)) eqn:E.
    + apply jstring_eqb_eq in E. symmetry. apply jstring_eqb_eq. congruence.
    + apply jstring_eqb_neq in E. symmetry. apply jstring_eqb_neq. congruence.
  - intros a b c E1 E2. apply jstring_eqb_eq in E1, E2. apply jstring_eqb_eq.
    congruence.
  - exact Idem.
  - intros a. apply jstring_eqb_eq. apply Idem.
Qed.

(** ** The ends of a text under the comparison *)

(** X18: the comparison of reports does not trim.  Whitespace added
    behind a text that does not end with whitespace, or in front of a text
    that does not start with it, makes the two texts different; so a report
    and the same report with a final newline are not equivalent. *)
Theorem areEquivalentApiFileContents_does_not_trim (s w : jstring) :
  allWhiteSpace w = true -> w <> [] ->
  (endsWithWhiteSpace s = false ->
   areEquivalentApiFileContents (s ++ w) s = false)
  /\ (startsWithWhiteSpace s = false ->
      areEquivalentApiFileContents (w ++ s) s = false).
Proof.
  intros A N. unfold areEquivalentApiFileContents.
  rewrite !normalizeWhitespace_scan, !collapse_scan_app. split.
  - intros E. apply jstring_eqb_neq.
    change (scan_state false s) with (endsWithWhiteSpace s). rewrite E.
    destruct (collapse_scan_whitespace false w A N) as [-> _].
    intros Q. apply (f_equal (@List.length char)) in Q.
    rewrite length_app in Q. cbn [List.length] in Q. lia.
  - intros E. apply jstring_eqb_neq.
    destruct (collapse_scan_whitespace false w A N) as [-> ->].
    assert (Same : collapse_scan true s = collapse_scan false s).
    { destruct s as [|c r]; [reflexivity|].
      cbn [startsWithWhiteSpace] in E. cbn [collapse_scan]. rewrite E.
      reflexivity. }
    rewrite Same. intros Q. apply (f_equal (@List.length char)) in Q.
    rewrite length_app in Q. cbn [List.length] in Q. lia.
Qed.

(** ** The order of the directives *)

Lemma jstring_ltb_asym (a b : jstring) :
  jstring_ltb a b = true -> jstring_ltb b a = false.
Proof.
  revert b. induction a as [|x a IH]; intros [|y b] L; try reflexivity;
    try discriminate.
  cbn [jstring_ltb] in *.
  apply orb_true_iff in L. apply orb_false_iff.
  destruct L as [L | L].
  - apply N.ltb_lt in L. split.
    + apply N.ltb_ge. lia.
    + apply andb_false_iff. left. apply N.eqb_neq. lia.
  - apply andb_true_iff in L. destruct L as [E L]. apply N.eqb_eq in E. subst y.
    split.
    + apply N.ltb_irrefl.
    + rewrite N.eqb_refl. cbn [andb]. apply IH. exact L.
Qed.

Lemma jstring_ltb_total (a b : jstring) :
  jstring_ltb a b = false -> jstring_ltb b a = false -> a = b.
Proof.
  revert b. induction a as [|x a IH]; intros [|y b] L1 L2; try reflexivity;
    try discriminate.
  cbn [jstring_ltb] in *.
  apply orb_false_iff in L1, L2. destruct L1 as [A1 B1], L2 as [A2 B2].
  apply N.ltb_ge in A1, A2. assert (x = y) by lia. subst y.
  rewrite N.eqb_refl in B1, B2. cbn [andb] in B1, B2.
  f_equal. apply IH; assumption.
Qed.

Lemma jstring_leb_ltb_trans (x z y : jstring) :
  jstring_ltb z x = false -> jstring_ltb z y = true -> jstring_ltb x y = true.
Proof.
  revert z y. induction x as [|a x IH]; intros z y L1 L2.
  - destruct y as [|b y]; [|reflexivity].
    destruct z; discriminate.
  - destruct z as [|c z].
    + discriminate.
    + destruct y as [|b y]; [discriminate|].
      cbn [jstring_ltb] in *.
      apply orb_false_iff in L1. destruct L1 as [A1 B1]. apply N.ltb_ge in A1.
      apply orb_true_iff in L2. apply orb_true_iff.
      destruct L2 as [L2 | L2].
      * apply N.ltb_lt in L2. left. apply N.ltb_lt. lia.
      * apply andb_true_iff in L2. destruct L2 as [E L2].
        apply N.eqb_eq in E. subst b.
        destruct (N.eqb_spec c a) as [-> | Ne].
        -- cbn [andb] in B1. right. rewrite N.eqb_refl. cbn [andb].
           apply (IH z y B1 L2).
        -- left. apply N.ltb_lt. lia.
Qed.

Lemma insert_string_comm (x y : jstring) (l : list jstring) :
  insert_string x (insert_string y l) = insert_string y (insert_string x l).
Proof.
  induction l as [|z l IH].
  - cbn [insert_string].
    destruct (jstring_ltb y x) eqn:Lyx, (jstring_ltb x y) eqn:Lxy; try reflexivity.
    + rewrite (jstring_ltb_asym _ _ Lyx) in Lxy. discriminate.
    + rewrite (jstring_ltb_total _ _ Lxy Lyx). reflexivity.
  - destruct (jstring_ltb z y) eqn:Lzy, (jstring_ltb z x) eqn:Lzx.
    + cbn [insert_string]. rewrite Lzy, Lzx. cbn [insert_string].
      rewrite Lzy, Lzx, IH. reflexivity.
    + pose proof (jstring_leb_ltb_trans x z y Lzx Lzy) as Lxy.
      cbn [insert_string]. rewrite Lzy, Lzx. cbn [insert_string].
      rewrite Lzx, Lxy. cbn [insert_string]. rewrite Lzy. reflexivity.
    + pose proof (jstring_leb_ltb_trans y z x Lzy Lzx) as Lyx.
      cbn [insert_string]. rewrite Lzy, Lzx. cbn [insert_string].
      rewrite Lzy, Lyx. cbn [insert_string]. rewrite Lzx. reflexivity.
    + cbn [insert_string]. rewrite Lzy, Lzx. cbn [insert_string].
      destruct (jstring_ltb y x) eqn:Lyx, (jstring_ltb x y) eqn:Lxy;
        cbn [insert_string]; rewrite ?Lzy, ?Lzx; try reflexivity.
      * rewrite (jstring_ltb_asym _ _ Lyx) in Lxy. discriminate.
      * rewrite (jstring_ltb_total _ _ Lxy Lyx). reflexivity.
Qed.

Lemma sort_strings_permutation_invariant (l1 l2 : list jstring) :
  Permutation l1 l2 -> sort_strings l1 = sort_strings l2.
Proof.
  induction 1 as [| x l l' _ IH | x y l | l l' l'' _ IH1 _ IH2].
  - reflexivity.
  - cbn [sort_strings]. rewrite IH. reflexivity.
  - cbn [sort_strings]. apply insert_string_comm.
  - congruence.
Qed.

Lemma insert_string_permutation (x : jstring) (l : list jstring) :
  Permutation (insert_string x l) (x :: l).
Proof.
  induction l as [|y l IH]; [reflexivity|].
  cbn [insert_string]. destruct (jstring_ltb y x).
  - rewrite IH. apply perm_swap.
  - reflexivity.
Qed.

Lemma insert_string_sorted (x : jstring) (l : list jstring) :
  Sorted (fun a b => jstring_leb a b = true) l ->
  Sorted (fun a b => jstring_leb a b = true) (insert_string x l).
Proof.
  induction 1 as [|y l S IH Hd].
  - cbn. repeat constructor.
  - cbn [insert_string]. destruct (jstring_ltb y x) eqn:L.
    + constructor; [exact IH|].
      destruct l as [|z l].
      * cbn. constructor. unfold jstring_leb.
        rewrite (jstring_ltb_asym _ _ L). reflexivity.
      * cbn [insert_string]. destruct (jstring_ltb z x).
        -- constructor. inversion Hd. assumption.
        -- constructor. unfold jstring_leb.
           rewrite (jstring_ltb_asym _ _ L). reflexivity.
    + constructor.
      * constructor; assumption.
      * constructor. unfold jstring_leb. rewrite L. reflexivity.
Qed.

(** X4: [sort()] on the directives gives them in ascending order, each as
    often as it was given, and the same list for every order in which the
    set hands them out; so the header of the report does not depend on
    that order. *)
Theorem directives_are_written_sorted {R : Type} :
  (forall l : list jstring,
      Sorted (fun a b => jstring_leb a b = true) (sort_strings l)
      /\ Permutation (sort_strings l) l)
  /\ (forall l1 l2 : list jstring,
         Permutation l1 l2 -> sort_strings l1 = sort_strings l2)
  /\ (forall c1 c2 : Collector R,
         workingPackage_name c1 = workingPackage_name c2 ->
         Permutation (dtsTypeReferenceDirectives c1) (dtsTypeReferenceDirectives c2) ->
         Permutation (dtsLibReferenceDirectives c1) (dtsLibReferenceDirectives c2) ->
         writeHeader c1 = writeHeader c2).
Proof.
  split; [|split].
  - intros l. induction l as [|x l [S P]].
    + split; constructor.
    + cbn [sort_strings]. split.
      * apply insert_string_sorted. exact S.
      * rewrite insert_string_permutation. constructor. exact P.
  - exact sort_strings_permutation_invariant.
  - intros c1 c2 N T L. unfold writeHeader.
    rewrite N, (sort_strings_permutation_invariant _ _ T),
      (sort_strings_permutation_invariant _ _ L).
    reflexivity.
Qed.

(** ** Comment lines *)

Lemma join_cons (sep p : jstring) (ps : list jstring) :
  ps <> [] -> join sep (p :: ps) = p ++ sep ++ join sep ps.
Proof. destruct ps; [contradiction | reflexivity]. Qed.

Lemma split_on_join (s : jstring) : join [LF] (split_on LF s) = s.
Proof.
  induction s as [|c r IH]; [reflexivity|].
  cbn [split_on]. destruct (char_eqb c LF) eqn:E.
  - apply N.eqb_eq in E. subst c.
    rewrite join_cons by apply split_on_not_nil. rewrite IH. reflexivity.
  - destruct (split_on LF r) as [|p ps] eqn:S.
    + exfalso. exact (split_on_not_nil LF r S).
    + destruct ps as [|q ps].
      * cbn [join] in *. congruence.
      * rewrite join_cons in * by discriminate. cbn [app] in *. congruence.
Qed.

Lemma split_on_no_separator (s : jstring) :
  Forall (fun piece => ~ In LF piece) (split_on LF s).
Proof.
  induction s as [|c r IH]; [repeat constructor; intros []|].
  cbn [split_on]. destruct (char_eqb c LF) eqn:E.
  - constructor; [intros [] | exact IH].
  - destruct (split_on LF r) as [|p ps].
    + constructor; [|constructor]. intros [Q | []]. subst c.
      unfold char_eqb in E. rewrite N.eqb_refl in E. discriminate.
    + inversion IH as [|? ? Hp Hps]. subst. constructor; [|exact Hps].
      intros [Q | Q]; [|exact (Hp Q)]. subst c.
      unfold char_eqb in E. rewrite N.eqb_refl in E. discriminate.
Qed.

(** X5: [_writeLineAsComments] writes the text, line endings turned to LF,
    as one comment line per line of the text: each line behind [// ] and
    closed by a new line, no piece written holding a line feed, and the
    pieces giving back the whole text. *)
Theorem writeLineAsComments_writes_every_line `{Analyzer}
    (writer : IndentedWriter) (line : jstring) :
  exists lines : list jstring,
    _writeLineAsComments writer line
    = writer
      ++ flat_map
           (fun realLine => [W_write (str "// "); W_write realLine; W_writeLine []])
           lines
    /\ lines <> []
    /\ join [LF] lines = Text_convertToLf line
    /\ Forall (fun realLine => ~ In LF realLine) lines.
Proof.
  exists (split_on LF (Text_convertToLf line)).
  split; [|split; [|split]].
  - unfold _writeLineAsComments.
    generalize (split_on LF (Text_convertToLf line)) as lines.
    intros lines. revert writer.
    induction lines as [|l lines IH]; intros writer.
    + cbn. symmetry. apply app_nil_r.
    + cbn [fold_left flat_map]. rewrite IH. unfold call.
      rewrite <- !app_assoc. reflexivity.
  - apply split_on_not_nil.
  - apply split_on_join.
  - apply split_on_no_separator.
Qed.

(** ** The rewrite pass, kind by kind *)

Section RewritePass.
Context `{Analyzer} `{ReleaseTagEnum} `{Emitter} {R : Type}.
Variable collector : Collector R.
Variable entity : CollectorEntity.

Lemma modifySpan_excluded (level : JsNumber) (fuel : nat) (parent : option SyntaxKind)
    (previousSpan : option Span) (span : Span) (astDeclaration : AstDeclaration)
    (insideTypeLiteral : bool) (r : R) :
  _shouldIncludeInReport collector astDeclaration level = Ok false ->
  _modifySpan collector entity level (S fuel) parent previousSpan span
    astDeclaration insideTypeLiteral r
  = Returns (skipAll span, previousSpan) r.
Proof. intros E. cbn [_modifySpan]. rewrite E. reflexivity. Qed.

Lemma modifySpan_level_error (level : JsNumber) (fuel : nat) (parent : option SyntaxKind)
    (previousSpan : option Span) (span : Span) (astDeclaration : AstDeclaration)
    (insideTypeLiteral : bool) (r : R) (e : exn) :
  _shouldIncludeInReport collector astDeclaration level = Throw e ->
  _modifySpan collector entity level (S fuel) parent previousSpan span
    astDeclaration insideTypeLiteral r
  = Throws e.
Proof. intros E. cbn [_modifySpan]. rewrite E. reflexivity. Qed.

(** The pass on an included declaration: the switch, then the children. *)
Lemma modifySpan_included (level : JsNumber) (fuel : nat) (parent : option SyntaxKind)
    (previousSpan : option Span) (span : Span) (astDeclaration : AstDeclaration)
    (insideTypeLiteral : bool) (r : R) :
  _shouldIncludeInReport collector astDeclaration level = Ok true ->
  _modifySpan collector entity level (S fuel) parent previousSpan span
    astDeclaration insideTypeLiteral r
  = match modifySpan_switch collector entity
            (fun parent previousSpan span astDeclaration =>
               _modifySpan collector entity level fuel parent previousSpan span
                 astDeclaration insideTypeLiteral)
            parent previousSpan span astDeclaration insideTypeLiteral r with
    | Returns sw r' =>
        if sw_recurseChildren sw then
          match foldM
                  (modifySpan_child collector level
                     (fun parent previousSpan span astDeclaration =>
                        _modifySpan collector entity level fuel parent previousSpan
                          span astDeclaration (sw_insideTypeLiteral sw))
                     astDeclaration (sw_sortChildren sw) (sw_insideTypeLiteral sw))
                  (span_children (sw_span sw)) (sw_span sw, []) r' with
          | Returns (span', visited) r'' =>
              Returns (set_children span' visited, sw_previousSpan sw) r''
          | Throws e => Throws e
          | OutOfFuel => OutOfFuel
          end
        else Returns (sw_span sw, sw_previousSpan sw) r'
    | Throws e => Throws e
    | OutOfFuel => OutOfFuel
    end.
Proof.
  intros E. cbn [_modifySpan]. rewrite E. unfold bind at 1. cbn [lift ret negb].
  unfold bind at 1.
  destruct (modifySpan_switch _ _ _ _ _ _ _ _ r) as [sw r'| |]; try reflexivity.
  destruct (sw_recurseChildren sw); [|reflexivity].
  unfold bind at 1.
  match goal with
  | |- context [foldM ?f ?xs ?acc ?r0] => destruct (foldM f xs acc r0) as [[s v] r2| |]
  end; reflexivity.
Qed.

(** X6: a declaration the filter rejects is skipped as a whole: the pass
    suppresses its span without visiting a child and without touching the
    message router or the previous sibling, and the span writes nothing.
    So it is with every private declaration, whatever the release level. *)
Theorem modifySpan_skips_excluded_declaration (fuel : nat)
    (parent : option SyntaxKind) (previousSpan : option Span) (span : Span)
    (astDeclaration : AstDeclaration) (insideTypeLiteral : bool) (r : R) :
  (forall level : Z,
      _shouldIncludeInReport collector astDeclaration level = Ok false ->
      _modifySpan collector entity level (S fuel) parent previousSpan span
        astDeclaration insideTypeLiteral r
      = Returns (skipAll span, previousSpan) r)
  /\ (hasPrivateModifier astDeclaration = true ->
      forall level : Z,
        _modifySpan collector entity level (S fuel) parent previousSpan span
          astDeclaration insideTypeLiteral r
        = Returns (skipAll span, previousSpan) r)
  /\ span_children (skipAll span) = span_children span
  /\ getModifiedText (skipAll span) = []
  /\ snd (writeChild (skipAll span)) = [].
Proof.
  split; [|split; [|split; [|split]]].
  - intros level E. apply modifySpan_excluded. exact E.
  - intros P level. apply modifySpan_excluded.
    unfold _shouldIncludeInReport. rewrite P. reflexivity.
  - destruct span; reflexivity.
  - destruct span; reflexivity.
  - apply skipAll_writes_nothing.
Qed.

(** X7: a JSDoc comment of an included declaration is suppressed and its
    children are not visited; an [export], [default] or [declare] keyword
    is suppressed as well. *)
Theorem modifySpan_drops_comments_and_modifiers (level : Z) (fuel : nat)
    (parent : option SyntaxKind) (previousSpan : option Span) (span : Span)
    (astDeclaration : AstDeclaration) (insideTypeLiteral : bool) (r : R) :
  _shouldIncludeInReport collector astDeclaration level = Ok true ->
  (span_kind span = JSDocComment ->
   _modifySpan collector entity level (S fuel) parent previousSpan span
     astDeclaration insideTypeLiteral r
   = Returns (skipAll span, previousSpan) r)
  /\ (span_kind span = ExportKeyword \/ span_kind span = DefaultKeyword
      \/ span_kind span = DeclareKeyword ->
      span_children span = [] ->
      _modifySpan collector entity level (S fuel) parent previousSpan span
        astDeclaration insideTypeLiteral r
      = Returns (skipAll span, previousSpan) r).
Proof.
  intros I. split.
  - intros K. rewrite (modifySpan_included _ _ _ _ _ _ _ _ I).
    unfold modifySpan_switch. rewrite K. reflexivity.
  - intros K L. rewrite (modifySpan_included _ _ _ _ _ _ _ _ I).
    assert (Leaf : span_children (skipAll span) = []).
    { destruct span; exact L. }
    assert (Same : set_children (skipAll span) [] = skipAll span).
    { destruct span. cbn in L. subst. reflexivity. }
    unfold modifySpan_switch.
    destruct K as [K | [K | K]]; rewrite K; unfold ret;
      cbn [sw_recurseChildren sw_span sw_previousSpan];
      rewrite Leaf; cbn [foldM]; unfold ret; rewrite Same; reflexivity.
Qed.

Lemma getModifiedText_prepend (span : Span) (text : jstring) :
  getModifiedText (set_prefix span (text ++ modification_prefix span))
  = text ++ getModifiedText span.
Proof.
  destruct span as [n a b pre suf sep cs m].
  unfold set_prefix, modification_prefix.
  cbn [getModifiedText set_modification modification prefix_assigned
       suffix_assigned omitChildren sortChildren span_prefix].
  rewrite <- app_assoc. reflexivity.
Qed.

(** X8: the keyword of a declaration gets the [export] modifier back
    exactly when the entity inlines its export: in front of the list of
    modifiers before the keyword when there is one, in front of the keyword
    otherwise; nothing else of the text changes. *)
Theorem modifySpan_reinstates_export (level : Z) (fuel : nat)
    (parent : option SyntaxKind) (previousSpan : option Span) (span : Span)
    (astDeclaration : AstDeclaration) (insideTypeLiteral : bool) (r : R) :
  _shouldIncludeInReport collector astDeclaration level = Ok true ->
  In (span_kind span)
     [InterfaceKeyword; ClassKeyword; EnumKeyword; NamespaceKeyword;
      ModuleKeyword; TypeKeyword; FunctionKeyword] ->
  span_children span = [] ->
  let modifiers := if shouldInlineExport entity then str "export " else [] in
  (forall p,
      previousSpan = Some p -> span_kind p = SyntaxList ->
      exists p',
        _modifySpan collector entity level (S fuel) parent previousSpan span
          astDeclaration insideTypeLiteral r
        = Returns (span, Some p') r
        /\ getModifiedText p' = modifiers ++ getModifiedText p
        /\ sameTree p p')
  /\ ((forall p, previousSpan = Some p -> span_kind p <> SyntaxList) ->
      exists span',
        _modifySpan collector entity level (S fuel) parent previousSpan span
          astDeclaration insideTypeLiteral r
        = Returns (span', previousSpan) r
        /\ getModifiedText span' = modifiers ++ getModifiedText span
        /\ sameTree span span').
Proof.
  intros I K L modifiers.
  assert (M : (if shouldInlineExport entity then str "export " ++ [] else [])
              = modifiers).
  { unfold modifiers. destruct (shouldInlineExport entity); reflexivity. }
  split.
  - intros p -> Kp.
    exists (set_prefix p (modifiers ++ modification_prefix p)).
    split; [|split; [apply getModifiedText_prepend | apply sameTree_set_prefix]].
    rewrite (modifySpan_included _ _ _ _ _ _ _ _ I).
    unfold modifySpan_switch. cbn in K.
    destruct K as [K | [K | [K | [K | [K | [K | [K | []]]]]]]]; rewrite <- K;
      rewrite Kp; cbn [SyntaxKind_eqb]; rewrite M;
      replace (SyntaxKind_eqb SyntaxList SyntaxList) with true
        by (symmetry; apply SyntaxKind_eqb_eq; reflexivity);
      unfold ret; cbn [sw_recurseChildren sw_span sw_previousSpan];
      rewrite L; cbn [foldM]; unfold ret;
      rewrite (set_children_leaf span L); reflexivity.
  - intros Np.
    exists (set_prefix span (modifiers ++ modification_prefix span)).
    split; [|split; [apply getModifiedText_prepend | apply sameTree_set_prefix]].
    rewrite (modifySpan_included _ _ _ _ _ _ _ _ I).
    destruct (set_prefix_leaf span (modifiers ++ modification_prefix span) L)
      as [E1 E2].
    assert (Other : match previousSpan with
                    | Some p => SyntaxKind_eqb (span_kind p) SyntaxList = false
                    | None => True
                    end).
    { destruct previousSpan as [p|]; [|exact Logic.I].
      destruct (SyntaxKind_eqb (span_kind p) SyntaxList) eqn:Q; [|reflexivity].
      apply SyntaxKind_eqb_eq in Q. exfalso. exact (Np p eq_refl Q). }
    unfold modifySpan_switch. cbn in K.
    destruct K as [K | [K | [K | [K | [K | [K | [K | []]]]]]]]; rewrite <- K;
      rewrite M;
      (destruct previousSpan as [p|]; [rewrite Other|]);
      unfold ret; cbn [sw_recurseChildren sw_span sw_previousSpan];
      rewrite E2; cbn [foldM]; unfold ret; rewrite E1; reflexivity.
Qed.

(** X9: the two internal errors of the pass.  The declaration of a
    variable that is the root of its span tree and has no enclosing
    declaration list, and an identifier that resolves to an entity without a
    name to emit, abort the pass, whatever the children of the span. *)
Theorem modifySpan_internal_errors (level : Z) (fuel : nat)
    (parent : option SyntaxKind) (previousSpan : option Span) (span : Span)
    (astDeclaration : AstDeclaration) (insideTypeLiteral : bool) (r : R) :
  _shouldIncludeInReport collector astDeclaration level = Ok true ->
  (span_kind span = VariableDeclaration -> parent = None ->
   matchAncestor_VariableDeclarationList (span_node span) = None ->
   _modifySpan collector entity level (S fuel) parent previousSpan span
     astDeclaration insideTypeLiteral r
   = Throws (InternalError (str "Unsupported variable declaration")))
  /\ (forall referencedEntity,
         span_kind span = Identifier ->
         tryGetEntityForNode collector (span_node span) = Some referencedEntity ->
         nameForEmit referencedEntity = None
         \/ nameForEmit referencedEntity = Some [] ->
         _modifySpan collector entity level (S fuel) parent previousSpan span
           astDeclaration insideTypeLiteral r
         = Throws (InternalError (str "referencedEntry.nameForEmit is undefined"))).
Proof.
  intros I. split.
  - intros K -> A. rewrite (modifySpan_included _ _ _ _ _ _ _ _ I).
    unfold modifySpan_switch. rewrite K, A. reflexivity.
  - intros e K T N. rewrite (modifySpan_included _ _ _ _ _ _ _ _ I).
    unfold modifySpan_switch. rewrite K, T.
    destruct N as [N | N]; rewrite N; reflexivity.
Qed.

(** The loop over the children touches the overlay of their parent only
    to ask for sorted children. *)
Lemma modifySpan_prepareChild_parent (level : Z)
    (astDeclaration : AstDeclaration) (sortChildren insideTypeLiteral : bool)
    (span child span' child' : Span) (declaration : AstDeclaration) (r r' : R) :
  modifySpan_prepareChild collector level astDeclaration sortChildren
    insideTypeLiteral span child r = Returns (span', child', declaration) r' ->
  span' = span \/ span' = set_sortChildren span true.
Proof.
  unfold modifySpan_prepareChild, bind, lift, ret, throw, router_call.
  destruct (isSupportedSyntaxKind (span_kind child)).
  2:{ intros E. injection E as <- _ _ _. left. reflexivity. }
  destruct (getChildAstDeclarationByNode collector (span_node child) astDeclaration)
    as [d|e]; [|discriminate].
  destruct (_shouldIncludeInReport collector d level) as [[|]|e]; [| |discriminate].
  - destruct sortChildren, (negb insideTypeLiteral); cbv beta iota;
      try (destruct (fetchAssociatedMessagesForReviewFile collector d r) as [msgs r1];
           destruct (_getAedocSynopsis collector d msgs r1) as [text r2| |];
           try discriminate);
      intros E; injection E as <- _ _ _;
      first [left; reflexivity | right; reflexivity].
  - intros E. injection E as <- _ _ _. left. reflexivity.
Qed.

Lemma set_sortChildren_own_text (span : Span) (v : bool) :
  modification_prefix (set_sortChildren span v) = modification_prefix span
  /\ modification_suffix (set_sortChildren span v) = modification_suffix span.
Proof. destruct span as [n a b pre suf sep cs m]. split; reflexivity. Qed.

Lemma set_children_own_text (span : Span) (cs : list Span) :
  modification_prefix (set_children span cs) = modification_prefix span
  /\ modification_suffix (set_children span cs) = modification_suffix span.
Proof. destruct span as [n a b pre suf sep cs0 m]. split; reflexivity. Qed.

Lemma modifySpan_child_parent (level : Z) (recurse : modifyNestedSpan R)
    (astDeclaration : AstDeclaration) (sortChildren insideTypeLiteral : bool)
    (span : Span) (visited : list Span) (child : Span)
    (state' : Span * list Span) (r r' : R) :
  modifySpan_child collector level recurse astDeclaration sortChildren
    insideTypeLiteral (span, visited) child r = Returns state' r' ->
  fst state' = span \/ fst state' = set_sortChildren span true.
Proof.
  unfold modifySpan_child. intros E.
  apply bind_returns in E. destruct E as ([[s c] d] & r1 & P & E).
  apply bind_returns in E. destruct E as ([c' p'] & r2 & _ & E).
  unfold ret in E. injection E as <- _. cbn [fst].
  exact (modifySpan_prepareChild_parent _ _ _ _ _ _ _ _ _ _ _ P).
Qed.

(** The own text of a span after the pass is the one the switch on its
    kind has left. *)
Lemma modifySpan_own_text (level : Z) (fuel : nat)
    (parent : option SyntaxKind) (previousSpan : option Span) (span : Span)
    (astDeclaration : AstDeclaration) (insideTypeLiteral : bool) (r : R)
    (sw : SwitchOutcome) (r1 : R) (span' : Span) (previous' : option Span) (r' : R) :
  _shouldIncludeInReport collector astDeclaration level = Ok true ->
  modifySpan_switch collector entity
    (fun parent previousSpan span astDeclaration =>
       _modifySpan collector entity level fuel parent previousSpan span
         astDeclaration insideTypeLiteral)
    parent previousSpan span astDeclaration insideTypeLiteral r = Returns sw r1 ->
  _modifySpan collector entity level (S fuel) parent previousSpan span
    astDeclaration insideTypeLiteral r = Returns (span', previous') r' ->
  modification_prefix span' = modification_prefix (sw_span sw)
  /\ modification_suffix span' = modification_suffix (sw_span sw)
  /\ previous' = sw_previousSpan sw.
Proof.
  intros I S E. rewrite (modifySpan_included _ _ _ _ _ _ _ _ I), S in E.
  destruct (sw_recurseChildren sw).
  2:{ injection E as <- <- _. repeat split. }
  set (P := fun acc : Span * list Span =>
              modification_prefix (fst acc) = modification_prefix (sw_span sw)
              /\ modification_suffix (fst acc) = modification_suffix (sw_span sw)).
  assert (Init : P (sw_span sw, [])) by (split; reflexivity).
  match type of E with
  | context [foldM ?f ?xs ?a0 ?r0] =>
      destruct (foldM f xs a0 r0) as [[s v] r2| |] eqn:F; try discriminate;
      pose proof (fun step => foldM_invariant P f xs step _ _ _ _ Init F) as Inv
  end.
  injection E as <- <- _.
  destruct (set_children_own_text s v) as [Ep Es]. rewrite Ep, Es.
  destruct Inv as [P1 P2].
  - intros [s0 v0] x r0 acc' r3 _ [P1 P2] Q. unfold P. cbn [fst] in P1, P2.
    destruct (modifySpan_child_parent _ _ _ _ _ _ _ _ _ _ _ Q) as [-> | ->].
    + split; assumption.
    + destruct (set_sortChildren_own_text s0 true) as [-> ->]. split; assumption.
  - repeat split; assumption.
Qed.

(** X10: the declaration of a variable at the root of its span tree is
    written with the words of the enclosing declaration list in front (the
    text of the source file from the start of the list to its first
    declaration), after [export] when the entity inlines its export, and
    with a semicolon behind; a nested one keeps its text. *)
Theorem modifySpan_variable_declaration (level : Z) (fuel : nat)
    (parent : option SyntaxKind) (previousSpan : option Span) (span : Span)
    (astDeclaration : AstDeclaration) (insideTypeLiteral : bool) (r : R)
    (span' : Span) (previous' : option Span) (r' : R) :
  _shouldIncludeInReport collector astDeclaration level = Ok true ->
  span_kind span = VariableDeclaration ->
  _modifySpan collector entity level (S fuel) parent previousSpan span
    astDeclaration insideTypeLiteral r = Returns (span', previous') r' ->
  previous' = previousSpan
  /\ match parent with
     | None =>
         exists text listStart firstStart,
           matchAncestor_VariableDeclarationList (span_node span)
           = Some (text, listStart, firstStart)
           /\ modification_prefix span'
              = (if shouldInlineExport entity then str "export " else [])
                ++ substring text listStart firstStart ++ modification_prefix span
           /\ modification_suffix span' = str ";"
     | Some _ =>
         modification_prefix span' = modification_prefix span
         /\ modification_suffix span' = modification_suffix span
     end.
Proof.
  intros I K E.
  pose proof (modifySpan_own_text level fuel parent previousSpan span
                astDeclaration insideTypeLiteral r) as Own.
  pose proof E as E0.
  rewrite (modifySpan_included _ _ _ _ _ _ _ _ I) in E0.
  unfold modifySpan_switch in Own, E0. rewrite K in Own, E0.
  destruct parent as [k|].
  - destruct (Own _ _ _ _ _ I eq_refl E) as (P & S & Q).
    cbn [sw_span sw_previousSpan] in *. repeat split; assumption.
  - destruct (matchAncestor_VariableDeclarationList (span_node span))
      as [[[text a] b]|]; [|discriminate].
    destruct (Own _ _ _ _ _ I eq_refl E) as (P & S & Q).
    cbn [sw_span sw_previousSpan] in *. split; [exact Q|].
    exists text, a, b. split; [reflexivity|].
    rewrite P, S. clear.
    destruct span as [n s e pre suf sep cs m].
    destruct (shouldInlineExport entity); split; reflexivity.
Qed.

(** *** What the pass keeps *)

Lemma erase_set_modification (s : Span) (m : SpanModification) :
  erase (set_modification s m) = erase s.
Proof. destruct s; reflexivity. Qed.

Lemma erase_set_children (s : Span) (cs : list Span) :
  erase (set_children s cs) = set_children (erase s) (List.map erase cs).
Proof. destruct s; reflexivity. Qed.

Lemma erase_children (s : Span) :
  span_children (erase s) = List.map erase (span_children s).
Proof. destruct s; reflexivity. Qed.

Lemma set_children_erase (s : Span) :
  set_children (erase s) (span_children (erase s)) = erase s.
Proof. destruct s; reflexivity. Qed.

Lemma put_last_erase (visited : list Span) (previous : option Span) :
  option_map erase previous = option_map erase (last_opt visited) ->
  List.map erase (put_last visited previous) = List.map erase visited.
Proof.
  destruct previous as [y|]; [|reflexivity].
  destruct visited as [|x l]; [reflexivity|].
  cbn [option_map last_opt put_last]. intros E. injection E as E.
  rewrite (app_removelast_last x (l := x :: l)) at 2 by discriminate.
  rewrite !map_app. cbn [List.map]. rewrite E. reflexivity.
Qed.

(** Outside ImportType spans the switch changes overlays only and leaves
    the router alone; it enters a type literal and never leaves one. *)
Lemma modifySpan_switch_overlay (recurse : modifyNestedSpan R)
    (parent : option SyntaxKind) (previousSpan : option Span) (span : Span)
    (astDeclaration : AstDeclaration) (insideTypeLiteral : bool) (r : R)
    (sw : SwitchOutcome) (r' : R) :
  span_kind span <> ImportType ->
  modifySpan_switch collector entity recurse parent previousSpan span
    astDeclaration insideTypeLiteral r = Returns sw r' ->
  r' = r
  /\ erase (sw_span sw) = erase span
  /\ sameTree span (sw_span sw)
  /\ option_map erase (sw_previousSpan sw) = option_map erase previousSpan
  /\ (insideTypeLiteral = true \/ span_kind span = TypeLiteral ->
      sw_insideTypeLiteral sw = true).
Proof.
  intros K. unfold modifySpan_switch.
  destruct (span_kind span) eqn:Kind; try contradiction;
    repeat match goal with
           | |- context [match ?x with _ => _ end] => destruct x eqn:?
           end;
    unfold ret, throw; intros E; try discriminate E;
    injection E as <- <-;
    cbn [sw_span sw_previousSpan sw_insideTypeLiteral option_map];
    unfold set_prefix, set_suffix, skipAll;
    rewrite ?erase_set_modification;
    (split; [reflexivity|]); (split; [reflexivity|]);
    (split;
     [ repeat first
         [ apply sameTree_refl
         | eapply sameTree_trans; [| apply sameTree_set_modification] ]
     |]);
    (split; [reflexivity|]);
    intros [Q | Q]; first [exact Q | reflexivity | discriminate Q].
Qed.

(** What the parent does to a child before the visit changes overlays
    only, and leaves the router alone inside a type literal. *)
Lemma modifySpan_prepareChild_overlay (level : Z)
    (astDeclaration : AstDeclaration) (sortChildren insideTypeLiteral : bool)
    (span child span' child' : Span) (declaration : AstDeclaration) (r r' : R) :
  modifySpan_prepareChild collector level astDeclaration sortChildren
    insideTypeLiteral span child r = Returns (span', child', declaration) r' ->
  erase span' = erase span
  /\ erase child' = erase child
  /\ sameTree child child'
  /\ (insideTypeLiteral = true -> r' = r).
Proof.
  unfold modifySpan_prepareChild, bind, lift, ret, throw, router_call.
  destruct (isSupportedSyntaxKind (span_kind child)).
  2:{ intros E. injection E as <- <- _ <-.
      repeat split; reflexivity. }
  destruct (getChildAstDeclarationByNode collector (span_node child) astDeclaration)
    as [d|e]; [|discriminate].
  destruct (_shouldIncludeInReport collector d level) as [[|]|e]; [| |discriminate].
  - destruct sortChildren, insideTypeLiteral; cbn [negb]; cbv beta iota;
      try (destruct (fetchAssociatedMessagesForReviewFile collector d r) as [msgs r1];
           destruct (_getAedocSynopsis collector d msgs r1) as [text r2| |];
           try discriminate);
      intros E; injection E as <- <- _ <-;
      unfold set_prefix, set_sortKey, set_sortChildren;
      rewrite ?erase_set_modification;
      (split; [reflexivity|]); (split; [reflexivity|]);
      (split;
       [ repeat first
           [ apply sameTree_refl
           | eapply sameTree_trans; [| apply sameTree_set_modification] ]
       |]);
      intros Q; first [reflexivity | discriminate Q].
  - intros E. injection E as <- <- _ <-. repeat split; reflexivity.
Qed.

(** The pass changes overlays only: the syntax tree and the source text
    behind the span and behind its previous sibling stay as they were; and
    inside a type literal it leaves the router alone. *)
Lemma modifySpan_overlay_invariant (level : Z) (fuel : nat) :
  forall (span : Span) (parent : option SyntaxKind) (previousSpan : option Span)
         (astDeclaration : AstDeclaration) (insideTypeLiteral : bool) (r : R)
         (span' : Span) (previous' : option Span) (r' : R),
    noImportType span = true ->
    _modifySpan collector entity level fuel parent previousSpan span
      astDeclaration insideTypeLiteral r = Returns (span', previous') r' ->
    erase span' = erase span
    /\ option_map erase previous' = option_map erase previousSpan
    /\ (insideTypeLiteral = true \/ span_kind span = TypeLiteral -> r' = r).
Proof.
  induction fuel as [|fuel IH];
    intros span parent previousSpan astDeclaration insideTypeLiteral r
           span' previous' r' Hn E.
  - discriminate E.
  - destruct (_shouldIncludeInReport collector astDeclaration level)
      as [[|]|e] eqn:I.
    3:{ rewrite (modifySpan_level_error _ _ _ _ _ _ _ _ _ I) in E. discriminate E. }
    2:{ rewrite (modifySpan_excluded _ _ _ _ _ _ _ _ I) in E.
        injection E as <- <- <-. unfold skipAll.
        rewrite erase_set_modification. repeat split. }
    rewrite (modifySpan_included _ _ _ _ _ _ _ _ I) in E.
    rewrite noImportType_eq in Hn. apply andb_true_iff in Hn.
    destruct Hn as [Hk Hc]. apply negb_true_iff in Hk.
    assert (K : span_kind span <> ImportType).
    { intros Q. rewrite Q in Hk. discriminate Hk. }
    match type of E with
    | context [modifySpan_switch collector entity ?rec parent previousSpan span
                 astDeclaration insideTypeLiteral r] =>
        destruct (modifySpan_switch collector entity rec parent previousSpan span
                    astDeclaration insideTypeLiteral r) as [sw r1| |] eqn:S;
        try discriminate E;
        destruct (modifySpan_switch_overlay rec _ _ _ _ _ _ _ _ K S)
          as (-> & Es & [_ Same] & Ep & Ei)
    end.
    destruct (sw_recurseChildren sw).
    2:{ injection E as <- <- <-. repeat split; assumption. }
    rewrite Same in E.
    assert (Loop :
      forall (rest done visited : list Span) (s : Span) (r0 : R)
             (s' : Span) (visited' : list Span) (r2 : R),
        forallb noImportType rest = true ->
        erase s = erase span ->
        List.map erase visited = List.map erase done ->
        foldM
          (modifySpan_child collector level
             (fun parent previousSpan span astDeclaration =>
                _modifySpan collector entity level fuel parent previousSpan span
                  astDeclaration (sw_insideTypeLiteral sw))
             astDeclaration (sw_sortChildren sw) (sw_insideTypeLiteral sw))
          rest (s, visited) r0 = Returns (s', visited') r2 ->
        erase s' = erase span
        /\ List.map erase visited' = List.map erase (done ++ rest)
        /\ (sw_insideTypeLiteral sw = true -> r2 = r0)).
    { induction rest as [|child rest IHrest];
        intros done visited s r0 s' visited' r2 Nr Hs Hv F.
      - cbn [foldM] in F. unfold ret in F. injection F as <- <- <-.
        rewrite app_nil_r. repeat split; assumption.
      - cbn [forallb] in Nr. apply andb_true_iff in Nr. destruct Nr as [Nc Nr].
        cbn [foldM] in F. apply bind_returns in F.
        destruct F as ([s1 v1] & r3 & C & F).
        unfold modifySpan_child in C.
        apply bind_returns in C. destruct C as ([[s2 c2] d2] & r4 & P & C).
        apply bind_returns in C. destruct C as ([c3 p3] & r5 & Q & C).
        unfold ret in C. injection C as <- <- <-.
        destruct (modifySpan_prepareChild_overlay _ _ _ _ _ _ _ _ _ _ _ P)
          as (Es2 & Ec2 & Same2 & Er4).
        destruct (sameTree_height child c2 Same2) as [_ En].
        rewrite <- En in Nc.
        destruct (IH _ _ _ _ _ _ _ _ _ Nc Q) as (Ec3 & Ep3 & Er5).
        destruct (IHrest (done ++ [child]) (put_last visited p3 ++ [c3]) s2 r5
                    s' visited' r2 Nr) as (A & B & C); [congruence | | exact F |].
        + rewrite !map_app, (put_last_erase _ _ Ep3), Hv. cbn [List.map].
          congruence.
        + split; [exact A|]. split.
          * rewrite B, <- app_assoc. reflexivity.
          * intros T. rewrite (C T), (Er5 (or_introl T)). apply Er4. exact T. }
    match type of E with
    | context [foldM ?f ?xs ?a0 ?r0] =>
        destruct (foldM f xs a0 r0) as [[s v] r2| |] eqn:F; try discriminate E
    end.
    injection E as <- <- <-.
    destruct (Loop (span_children span) [] [] (sw_span sw) r s v r2 Hc Es eq_refl F)
      as (A & B & C).
    split; [|split; [exact Ep|]].
    + rewrite erase_set_children, A, B. cbn [app].
      rewrite <- erase_children. apply set_children_erase.
    + intros T. apply C, Ei, T.
Qed.

(** X11: on a span tree without ImportType spans, fuel above the depth of
    the tree is enough for the pass to return or throw, and when it returns
    it has changed overlays only: without them, the span and its previous
    sibling are what they were, node for node and text for text. *)
Theorem modifySpan_changes_overlays_only (level : Z) (fuel : nat)
    (parent : option SyntaxKind) (previousSpan : option Span) (span : Span)
    (astDeclaration : AstDeclaration) (insideTypeLiteral : bool) (r : R) :
  (height span <= fuel)%nat -> noImportType span = true ->
  (exists e,
      _modifySpan collector entity level fuel parent previousSpan span
        astDeclaration insideTypeLiteral r = Throws e)
  \/ (exists span' previous' r',
        _modifySpan collector entity level fuel parent previousSpan span
          astDeclaration insideTypeLiteral r = Returns (span', previous') r'
        /\ erase span' = erase span
        /\ option_map erase previous' = option_map erase previousSpan).
Proof.
  intros Hh Hn.
  destruct (_modifySpan collector entity level fuel parent previousSpan span
              astDeclaration insideTypeLiteral r) as [[span' previous'] r'|e|] eqn:E.
  - right. exists span', previous', r'. split; [reflexivity|].
    destruct (modifySpan_overlay_invariant _ _ _ _ _ _ _ _ _ _ _ Hn E) as (A & B & _).
    split; assumption.
  - left. exists e. reflexivity.
  - exfalso. exact (modifySpan_fuel_suffices collector entity level fuel span parent
                      previousSpan astDeclaration insideTypeLiteral r Hh Hn E).
Qed.

(** X12: inside a type literal the pass is silent: it fetches no message
    and reports no missing documentation, so the router is left as it
    was. *)
Theorem modifySpan_type_literal_is_silent (level : Z) (fuel : nat)
    (parent : option SyntaxKind) (previousSpan : option Span) (span : Span)
    (astDeclaration : AstDeclaration) (insideTypeLiteral : bool) (r : R)
    (result : Span * option Span) (r' : R) :
  noImportType span = true ->
  insideTypeLiteral = true \/ span_kind span = TypeLiteral ->
  _modifySpan collector entity level fuel parent previousSpan span
    astDeclaration insideTypeLiteral r = Returns result r' ->
  r' = r.
Proof.
  intros Hn T E. destruct result as [span' previous'].
  destruct (modifySpan_overlay_invariant _ _ _ _ _ _ _ _ _ _ _ Hn E) as (_ & _ & C).
  exact (C T).
Qed.

(** *** The sort keys *)

Lemma put_last_map {B : Type} (f : Span -> B) (visited : list Span)
    (previous : option Span) :
  option_map f previous = option_map f (last_opt visited) ->
  List.map f (put_last visited previous) = List.map f visited.
Proof.
  destruct previous as [y|]; [|reflexivity].
  destruct visited as [|x l]; [reflexivity|].
  cbn [option_map last_opt put_last]. intros E. injection E as E.
  rewrite (app_removelast_last x (l := x :: l)) at 2 by discriminate.
  rewrite !map_app. cbn [List.map]. rewrite E. reflexivity.
Qed.

Lemma set_modification_kind (s : Span) (m : SpanModification) :
  span_kind (set_modification s m) = span_kind s.
Proof. destruct s; reflexivity. Qed.

Lemma set_modification_children (s : Span) (m : SpanModification) :
  span_children (set_modification s m) = span_children s.
Proof. destruct s; reflexivity. Qed.

Lemma modification_set_modification (s : Span) (m : SpanModification) :
  modification (set_modification s m) = m.
Proof. destruct s; reflexivity. Qed.

(** Outside ImportType spans the switch keeps the sort keys and the
    children, and asks for sorted children below a list of members only. *)
Lemma modifySpan_switch_sort (recurse : modifyNestedSpan R)
    (parent : option SyntaxKind) (previousSpan : option Span) (span : Span)
    (astDeclaration : AstDeclaration) (insideTypeLiteral : bool) (r : R)
    (sw : SwitchOutcome) (r' : R) :
  span_kind span <> ImportType ->
  modifySpan_switch collector entity recurse parent previousSpan span
    astDeclaration insideTypeLiteral r = Returns sw r' ->
  sortKey (modification (sw_span sw)) = sortKey (modification span)
  /\ sortChildren (modification (sw_span sw)) = sortChildren (modification span)
  /\ option_map (fun p => sortKey (modification p)) (sw_previousSpan sw)
     = option_map (fun p => sortKey (modification p)) previousSpan
  /\ span_children (sw_span sw) = span_children span
  /\ span_kind (sw_span sw) = span_kind span
  /\ sw_sortChildren sw = sortsChildren parent span
  /\ (sw_recurseChildren sw = false -> sw_sortChildren sw = false).
Proof.
  intros K. unfold modifySpan_switch, sortsChildren.
  destruct (span_kind span) eqn:Kind; try contradiction;
    repeat match goal with
           | |- context [match ?x with _ => _ end] => destruct x eqn:?
           end;
    unfold ret, throw; intros E; try discriminate E;
    injection E as <- <-;
    cbn [sw_span sw_previousSpan sw_sortChildren sw_recurseChildren option_map
         andb orb];
    unfold set_prefix, set_suffix, skipAll;
    rewrite ?set_modification_kind, ?set_modification_children,
      ?modification_set_modification;
    cbn [sortKey sortChildren];
    repeat split;
    try reflexivity; try discriminate; try assumption;
    try (destruct span; reflexivity).
Qed.

Lemma modifySpan_prepareChild_sort (level : Z)
    (astDeclaration : AstDeclaration) (sorting insideTypeLiteral : bool)
    (span child span' child' : Span) (declaration : AstDeclaration) (r r' : R) :
  modifySpan_prepareChild collector level astDeclaration sorting
    insideTypeLiteral span child r = Returns (span', child', declaration) r' ->
  sortKey (modification child')
  = assignedSortKey collector level astDeclaration sorting child
  /\ span_kind child' = span_kind child
  /\ sortChildren (modification span')
     = sortChildren (modification span)
       || (sorting && isIncludedMember collector level astDeclaration child).
Proof.
  unfold modifySpan_prepareChild, assignedSortKey, isIncludedMember, includedMember,
    bind, lift, ret, throw, router_call.
  destruct (isSupportedSyntaxKind (span_kind child)).
  2:{ intros E. injection E as <- <- _ _.
      rewrite andb_false_r, orb_false_r. repeat split. }
  destruct (getChildAstDeclarationByNode collector (span_node child) astDeclaration)
    as [d|e]; [|discriminate].
  destruct (_shouldIncludeInReport collector d level) as [[|]|e]; [| |discriminate].
  - destruct sorting, insideTypeLiteral; cbn [negb]; cbv beta iota;
      try (destruct (fetchAssociatedMessagesForReviewFile collector d r) as [msgs r1];
           destruct (_getAedocSynopsis collector d msgs r1) as [text r2| |];
           try discriminate);
      intros E; injection E as <- <- _ _;
      cbn [andb]; rewrite ?orb_true_r, ?orb_false_r;
      destruct span, child; repeat split.
  - intros E. injection E as <- <- _ _.
    rewrite andb_false_r, orb_false_r. repeat split.
Qed.

(** The pass keeps the sort key of the span it is given and of the
    previous sibling. *)
Lemma modifySpan_keeps_sortKey (level : Z) (fuel : nat)
    (parent : option SyntaxKind) (previousSpan : option Span) (span : Span)
    (astDeclaration : AstDeclaration) (insideTypeLiteral : bool) (r : R)
    (span' : Span) (previous' : option Span) (r' : R) :
  span_kind span <> ImportType ->
  _modifySpan collector entity level fuel parent previousSpan span
    astDeclaration insideTypeLiteral r = Returns (span', previous') r' ->
  sortKey (modification span') = sortKey (modification span)
  /\ option_map (fun p => sortKey (modification p)) previous'
     = option_map (fun p => sortKey (modification p)) previousSpan
  /\ span_kind span' = span_kind span.
Proof.
  intros K E. destruct fuel as [|fuel]; [discriminate E|].
  destruct (_shouldIncludeInReport collector astDeclaration level) as [[|]|e] eqn:I.
  3:{ rewrite (modifySpan_level_error _ _ _ _ _ _ _ _ _ I) in E. discriminate E. }
  2:{ rewrite (modifySpan_excluded _ _ _ _ _ _ _ _ I) in E.
      injection E as <- <- _. destruct span; repeat split. }
  rewrite (modifySpan_included _ _ _ _ _ _ _ _ I) in E.
  match type of E with
  | context [modifySpan_switch collector entity ?rec parent previousSpan span
               astDeclaration insideTypeLiteral r] =>
      destruct (modifySpan_switch collector entity rec parent previousSpan span
                  astDeclaration insideTypeLiteral r) as [sw r1| |] eqn:S;
      try discriminate E;
      destruct (modifySpan_switch_sort rec _ _ _ _ _ _ _ _ K S)
        as (Ek & _ & Ep & _ & Ekind & _ & _)
  end.
  destruct (sw_recurseChildren sw).
  2:{ injection E as <- <- _. repeat split; assumption. }
  set (P := fun acc : Span * list Span =>
              sortKey (modification (fst acc)) = sortKey (modification span)
              /\ span_kind (fst acc) = span_kind span).
  assert (Init : P (sw_span sw, [])) by (split; assumption).
  match type of E with
  | context [foldM ?f ?xs ?a0 ?r0] =>
      destruct (foldM f xs a0 r0) as [[s v] r2| |] eqn:F; try discriminate E;
      pose proof (fun step => foldM_invariant P f xs step _ _ _ _ Init F) as Inv
  end.
  injection E as <- <- _.
  destruct Inv as [P1 P2].
  - intros [s0 v0] x r0 acc' r3 _ [P1 P2] Q. unfold P. cbn [fst] in P1, P2.
    destruct (modifySpan_child_parent _ _ _ _ _ _ _ _ _ _ _ Q) as [-> | ->].
    + split; assumption.
    + destruct s0; split; assumption.
  - cbn [fst] in P1, P2. split; [|split; [exact Ep|]].
    + destruct s; exact P1.
    + destruct s; exact P2.
Qed.

(** X21: which children are sorted.  After the pass on an included span
    the children that have a new sort key are the API declarations the
    filter keeps, directly in a list whose parent is an API declaration or
    the block of a namespace; their key is the name of their symbol without
    its underscore.  The span asks for sorted children exactly when it has
    such a child (or asked before), and its own key is kept. *)
Theorem modifySpan_assigns_sort_keys (level : Z) (fuel : nat)
    (parent : option SyntaxKind) (previousSpan : option Span) (span : Span)
    (astDeclaration : AstDeclaration) (insideTypeLiteral : bool) (r : R)
    (span' : Span) (previous' : option Span) (r' : R) :
  _shouldIncludeInReport collector astDeclaration level = Ok true ->
  span_kind span <> ImportType ->
  Forall (fun child => span_kind child <> ImportType) (span_children span) ->
  _modifySpan collector entity level (S fuel) parent previousSpan span
    astDeclaration insideTypeLiteral r = Returns (span', previous') r' ->
  List.map (fun child => sortKey (modification child)) (span_children span')
  = List.map
      (assignedSortKey collector level astDeclaration (sortsChildren parent span))
      (span_children span)
  /\ sortChildren (modification span')
     = sortChildren (modification span)
       || (sortsChildren parent span
           && existsb (isIncludedMember collector level astDeclaration)
                (span_children span))
  /\ sortKey (modification span') = sortKey (modification span).
Proof.
  intros I K Kc E.
  destruct (modifySpan_keeps_sortKey _ _ _ _ _ _ _ _ _ _ _ K E) as (Own & _ & _).
  split; [|split; [|exact Own]];
    rewrite (modifySpan_included _ _ _ _ _ _ _ _ I) in E;
    match type of E with
    | context [modifySpan_switch collector entity ?rec parent previousSpan span
                 astDeclaration insideTypeLiteral r] =>
        destruct (modifySpan_switch collector entity rec parent previousSpan span
                    astDeclaration insideTypeLiteral r) as [sw r1| |] eqn:S;
        try discriminate E;
        destruct (modifySpan_switch_sort rec _ _ _ _ _ _ _ _ K S)
          as (_ & Ef & _ & Ec & _ & Es & En)
    end;
    rewrite <- Es.
  - destruct (sw_recurseChildren sw).
    2:{ injection E as <- _ _. rewrite Ec, (En eq_refl).
        apply map_ext. intros c. unfold assignedSortKey.
        destruct (includedMember collector level astDeclaration c); reflexivity. }
    rewrite Ec in E.
    assert (Loop :
      forall (rest done visited : list Span) (s : Span) (r0 : R)
             (s' : Span) (visited' : list Span) (r2 : R),
        Forall (fun child => span_kind child <> ImportType) rest ->
        List.map (fun child => sortKey (modification child)) visited
        = List.map (assignedSortKey collector level astDeclaration (sw_sortChildren sw))
            done ->
        foldM
          (modifySpan_child collector level
             (fun parent previousSpan span astDeclaration =>
                _modifySpan collector entity level fuel parent previousSpan span
                  astDeclaration (sw_insideTypeLiteral sw))
             astDeclaration (sw_sortChildren sw) (sw_insideTypeLiteral sw))
          rest (s, visited) r0 = Returns (s', visited') r2 ->
        List.map (fun child => sortKey (modification child)) visited'
        = List.map (assignedSortKey collector level astDeclaration (sw_sortChildren sw))
            (done ++ rest)).
    { induction rest as [|child rest IHrest];
        intros done visited s r0 s' visited' r2 Nr Hv F.
      - cbn [foldM] in F. unfold ret in F. injection F as _ <- _.
        rewrite app_nil_r. exact Hv.
      - inversion Nr as [|c0 l0 Nc Nr']; subst.
        cbn [foldM] in F. apply bind_returns in F.
        destruct F as ([s1 v1] & r3 & C & F).
        unfold modifySpan_child in C.
        apply bind_returns in C. destruct C as ([[s2 c2] d2] & r4 & P & C).
        apply bind_returns in C. destruct C as ([c3 p3] & r5 & Q & C).
        unfold ret in C. injection C as <- <- <-.
        destruct (modifySpan_prepareChild_sort _ _ _ _ _ _ _ _ _ _ _ P)
          as (Ek2 & Ekind2 & _).
        assert (Nc2 : span_kind c2 <> ImportType) by (rewrite Ekind2; exact Nc).
        destruct (modifySpan_keeps_sortKey _ _ _ _ _ _ _ _ _ _ _ Nc2 Q)
          as (Ek3 & Ep3 & _).
        rewrite (IHrest (done ++ [child]) (put_last visited p3 ++ [c3]) s2 r5
                   s' visited' r2 Nr'); [rewrite <- app_assoc; reflexivity | | exact F].
        rewrite !map_app, (put_last_map _ _ _ Ep3), Hv. cbn [List.map].
        rewrite Ek3, Ek2. reflexivity. }
    match type of E with
    | context [foldM ?f ?xs ?a0 ?r0] =>
        destruct (foldM f xs a0 r0) as [[s v] r2| |] eqn:F; try discriminate E
    end.
    injection E as <- _ _.
    pose proof (Loop (span_children span) [] [] (sw_span sw) r1 s v r2 Kc eq_refl F)
      as L.
    cbn [app] in L. rewrite <- L. destruct s; reflexivity.
  - destruct (sw_recurseChildren sw).
    2:{ injection E as <- _ _. rewrite Ef, (En eq_refl). cbn [andb].
        rewrite orb_false_r. reflexivity. }
    rewrite Ec in E.
    assert (Loop :
      forall (rest visited : list Span) (s : Span) (r0 : R)
             (s' : Span) (visited' : list Span) (r2 : R),
        foldM
          (modifySpan_child collector level
             (fun parent previousSpan span astDeclaration =>
                _modifySpan collector entity level fuel parent previousSpan span
                  astDeclaration (sw_insideTypeLiteral sw))
             astDeclaration (sw_sortChildren sw) (sw_insideTypeLiteral sw))
          rest (s, visited) r0 = Returns (s', visited') r2 ->
        sortChildren (modification s')
        = sortChildren (modification s)
          || (sw_sortChildren sw
              && existsb (isIncludedMember collector level astDeclaration) rest)).
    { induction rest as [|child rest IHrest];
        intros visited s r0 s' visited' r2 F.
      - cbn [foldM] in F. unfold ret in F. injection F as <- _ _.
        cbn [existsb]. rewrite andb_false_r, orb_false_r. reflexivity.
      - cbn [foldM] in F. apply bind_returns in F.
        destruct F as ([s1 v1] & r3 & C & F).
        unfold modifySpan_child in C.
        apply bind_returns in C. destruct C as ([[s2 c2] d2] & r4 & P & C).
        apply bind_returns in C. destruct C as ([c3 p3] & r5 & Q & C).
        unfold ret in C. injection C as <- <- <-.
        destruct (modifySpan_prepareChild_sort _ _ _ _ _ _ _ _ _ _ _ P)
          as (_ & _ & Ef2).
        rewrite (IHrest _ _ _ _ _ _ F), Ef2. cbn [existsb].
        destruct (sortChildren (modification s)), (sw_sortChildren sw),
          (isIncludedMember collector level astDeclaration child); reflexivity. }
    match type of E with
    | context [foldM ?f ?xs ?a0 ?r0] =>
        destruct (foldM f xs a0 r0) as [[s v] r2| |] eqn:F; try discriminate E
    end.
    injection E as <- _ _.
    rewrite <- Ef, <- (Loop _ _ _ _ _ _ _ F).
    destruct s; reflexivity.
Qed.

(** *** The synopsis of a member *)

Lemma put_last_same {A : Type} (l : list A) : put_last l (last_opt l) = l.
Proof.
  destruct l as [|x l]; [reflexivity|].
  cbn [last_opt put_last]. symmetry. apply app_removelast_last. discriminate.
Qed.

Lemma modifySpan_switch_plain (recurse : modifyNestedSpan R)
    (parentKind : SyntaxKind) (previousSpan : option Span) (span : Span)
    (astDeclaration : AstDeclaration) (insideTypeLiteral : bool) (r : R) :
  keepsItsPrefix (span_kind span) = true ->
  exists sw,
    modifySpan_switch collector entity recurse (Some parentKind) previousSpan span
      astDeclaration insideTypeLiteral r = Returns sw r
    /\ sw_span sw = span /\ sw_previousSpan sw = previousSpan.
Proof.
  unfold modifySpan_switch.
  destruct (span_kind span); intros K; try discriminate K;
    eexists; repeat split.
Qed.

Lemma modifySpan_switch_previous (recurse : modifyNestedSpan R)
    (parent : option SyntaxKind) (previousSpan : option Span) (span : Span)
    (astDeclaration : AstDeclaration) (insideTypeLiteral : bool) (r : R)
    (sw : SwitchOutcome) (r' : R) :
  modifySpan_switch collector entity recurse parent previousSpan span
    astDeclaration insideTypeLiteral r = Returns sw r' ->
  sw_previousSpan sw = previousSpan
  \/ exists p text,
       previousSpan = Some p /\ span_kind p = SyntaxList
       /\ sw_previousSpan sw = Some (set_prefix p text).
Proof.
  unfold modifySpan_switch, bind.
  destruct (span_kind span);
    repeat match goal with
           | |- context [match ?x with _ => _ end] => destruct x eqn:?
           end;
    unfold ret, throw; intros E; try discriminate E.
  all: injection E as <- _; cbn [sw_previousSpan];
    first
      [ left; reflexivity
      | right; eexists; eexists; split; [reflexivity|]; split; [|reflexivity];
        apply SyntaxKind_eqb_eq; assumption ].
Qed.

(** The pass touches the previous sibling only to put a modifier in front
    of a list. *)
Lemma modifySpan_previous (level : Z) (fuel : nat)
    (parent : option SyntaxKind) (previousSpan : option Span) (span : Span)
    (astDeclaration : AstDeclaration) (insideTypeLiteral : bool) (r : R)
    (span' : Span) (previous' : option Span) (r' : R) :
  _modifySpan collector entity level fuel parent previousSpan span
    astDeclaration insideTypeLiteral r = Returns (span', previous') r' ->
  previous' = previousSpan
  \/ exists p text,
       previousSpan = Some p /\ span_kind p = SyntaxList
       /\ previous' = Some (set_prefix p text).
Proof.
  intros E. destruct fuel as [|fuel]; [discriminate E|].
  destruct (_shouldIncludeInReport collector astDeclaration level) as [[|]|e] eqn:I.
  3:{ rewrite (modifySpan_level_error _ _ _ _ _ _ _ _ _ I) in E. discriminate E. }
  2:{ rewrite (modifySpan_excluded _ _ _ _ _ _ _ _ I) in E.
      injection E as _ <- _. left. reflexivity. }
  pose proof E as E0. rewrite (modifySpan_included _ _ _ _ _ _ _ _ I) in E0.
  match type of E0 with
  | context [modifySpan_switch collector entity ?rec parent previousSpan span
               astDeclaration insideTypeLiteral r] =>
      destruct (modifySpan_switch collector entity rec parent previousSpan span
                  astDeclaration insideTypeLiteral r) as [sw r1| |] eqn:S;
      try discriminate E0
  end.
  destruct (modifySpan_own_text _ _ _ _ _ _ _ _ _ _ _ _ _ I S E) as (_ & _ & ->).
  exact (modifySpan_switch_previous _ _ _ _ _ _ _ _ _ S).
Qed.

(** On a span of a kind the switch leaves alone, below a parent, the pass
    keeps the prefix and the previous sibling. *)
Lemma modifySpan_keeps_prefix (level : Z) (fuel : nat)
    (parentKind : SyntaxKind) (previousSpan : option Span) (span : Span)
    (astDeclaration : AstDeclaration) (insideTypeLiteral : bool) (r : R)
    (span' : Span) (previous' : option Span) (r' : R) :
  _shouldIncludeInReport collector astDeclaration level = Ok true ->
  keepsItsPrefix (span_kind span) = true ->
  _modifySpan collector entity level fuel (Some parentKind) previousSpan span
    astDeclaration insideTypeLiteral r = Returns (span', previous') r' ->
  modification_prefix span' = modification_prefix span
  /\ previous' = previousSpan
  /\ span_kind span' = span_kind span.
Proof.
  intros I K E.
  assert (Kn : span_kind span <> ImportType).
  { intros Q. rewrite Q in K. discriminate K. }
  destruct (modifySpan_keeps_sortKey _ _ _ _ _ _ _ _ _ _ _ Kn E) as (_ & _ & Ek).
  destruct fuel as [|fuel]; [discriminate E|].
  match goal with
  | |- _ =>
      destruct (modifySpan_switch_plain
                  (fun parent previousSpan span astDeclaration =>
                     _modifySpan collector entity level fuel parent previousSpan span
                       astDeclaration insideTypeLiteral)
                  parentKind previousSpan span astDeclaration insideTypeLiteral r K)
        as (sw & S & Es & Ep)
  end.
  destruct (modifySpan_own_text _ _ _ _ _ _ _ _ _ _ _ _ _ I S E) as (P & _ & Q).
  rewrite P, Q, Es, Ep. repeat split. exact Ek.
Qed.

Lemma modifySpan_prepareChild_synopsis (level : Z)
    (astDeclaration : AstDeclaration) (sorting : bool)
    (span child span' child' : Span) (declaration : AstDeclaration) (r r' : R) :
  modifySpan_prepareChild collector level astDeclaration sorting false span child r
  = Returns (span', child', declaration) r' ->
  span_kind child' = span_kind child
  /\ forall d,
       includedMember collector level astDeclaration child = Some d ->
       declaration = d
       /\ _shouldIncludeInReport collector d level = Ok true
       /\ exists synopsis,
            _getAedocSynopsis collector d
              (fst (fetchAssociatedMessagesForReviewFile collector d r))
              (snd (fetchAssociatedMessagesForReviewFile collector d r))
            = Returns synopsis r'
            /\ modification_prefix child' = synopsis ++ modification_prefix child.
Proof.
  unfold modifySpan_prepareChild, includedMember, bind, lift, ret, throw, router_call.
  destruct (isSupportedSyntaxKind (span_kind child)).
  2:{ intros E. injection E as _ <- _ _. split; [reflexivity|]. intros d Q.
      discriminate Q. }
  destruct (getChildAstDeclarationByNode collector (span_node child) astDeclaration)
    as [d0|e]; [|discriminate].
  destruct (_shouldIncludeInReport collector d0 level) as [[|]|e] eqn:I;
    [| |discriminate].
  - cbn [negb].
    destruct sorting; cbv beta iota;
      destruct (fetchAssociatedMessagesForReviewFile collector d0 r)
        as [msgs r1] eqn:Fe;
      destruct (_getAedocSynopsis collector d0 msgs r1) as [text r2| |] eqn:Sy;
      try discriminate;
      intros E; injection E as _ <- <- <-;
      (split; [destruct child; reflexivity|]);
      intros d Q; injection Q as <-;
      (split; [reflexivity|]); (split; [exact I|]);
      exists text; rewrite Fe; cbn [fst snd];
      (split; [exact Sy|]); destruct child; reflexivity.
  - intros E. injection E as _ <- _ _. split; [reflexivity|]. intros d Q.
    discriminate Q.
Qed.

(** X22: the synopsis of a member.  After the pass on an included list
    outside a type literal, every child that is an API declaration the
    filter keeps, of a kind the pass does not rewrite, starts with its
    synopsis: the text [_getAedocSynopsis] gives for the messages fetched
    for the declaration of the child, in front of what the child had. *)
Theorem modifySpan_writes_member_synopsis (level : Z) (fuel : nat)
    (parent : option SyntaxKind) (previousSpan : option Span) (span : Span)
    (astDeclaration : AstDeclaration) (r : R)
    (span' : Span) (previous' : option Span) (r' : R) :
  _shouldIncludeInReport collector astDeclaration level = Ok true ->
  span_kind span = SyntaxList ->
  _modifySpan collector entity level (S fuel) parent previousSpan span
    astDeclaration false r = Returns (span', previous') r' ->
  Forall2
    (fun child child' =>
       forall d,
         includedMember collector level astDeclaration child = Some d ->
         keepsItsPrefix (span_kind child) = true ->
         span_kind child' = span_kind child
         /\ exists r0 synopsis r1,
              _getAedocSynopsis collector d
                (fst (fetchAssociatedMessagesForReviewFile collector d r0))
                (snd (fetchAssociatedMessagesForReviewFile collector d r0))
              = Returns synopsis r1
              /\ modification_prefix child' = synopsis ++ modification_prefix child)
    (span_children span) (span_children span').
Proof.
  intros I K E.
  rewrite (modifySpan_included _ _ _ _ _ _ _ _ I) in E.
  unfold modifySpan_switch in E. rewrite K in E.
  unfold ret at 1 in E. cbn [sw_recurseChildren sw_span sw_previousSpan
    sw_sortChildren sw_insideTypeLiteral] in E.
  match type of E with
  | context [foldM ?f ?xs ?a0 ?r0] =>
      destruct (foldM f xs a0 r0) as [[s v] r2| |] eqn:F; try discriminate E
  end.
  injection E as <- _ _.
  assert (Ev : span_children (set_children s v) = v) by (destruct s; reflexivity).
  rewrite Ev. clear Ev.
  match type of F with
  | foldM (modifySpan_child _ _ _ _ ?flag _) _ _ _ = _ =>
      revert F; generalize flag; intros sorting F
  end.
  set (Rel := fun child child' : Span =>
                forall d,
                  includedMember collector level astDeclaration child = Some d ->
                  keepsItsPrefix (span_kind child) = true ->
                  span_kind child' = span_kind child
                  /\ exists r0 synopsis r1,
                       _getAedocSynopsis collector d
                         (fst (fetchAssociatedMessagesForReviewFile collector d r0))
                         (snd (fetchAssociatedMessagesForReviewFile collector d r0))
                       = Returns synopsis r1
                       /\ modification_prefix child'
                          = synopsis ++ modification_prefix child).
  assert (Loop :
    forall (rest done visited : list Span) (s0 : Span) (r0 : R)
           (s1 : Span) (visited' : list Span) (r3 : R),
      Forall2 Rel done visited ->
      foldM
        (modifySpan_child collector level
           (fun parent previousSpan span astDeclaration =>
              _modifySpan collector entity level fuel parent previousSpan span
                astDeclaration false)
           astDeclaration sorting false)
        rest (s0, visited) r0 = Returns (s1, visited') r3 ->
      Forall2 Rel (done ++ rest) visited').
  { induction rest as [|child rest IHrest];
      intros done visited s0 r0 s1 visited' r3 Hv G.
    - cbn [foldM] in G. unfold ret in G. injection G as _ <- _.
      rewrite app_nil_r. exact Hv.
    - cbn [foldM] in G. apply bind_returns in G.
      destruct G as ([s2 v2] & r4 & C & G).
      unfold modifySpan_child in C.
      apply bind_returns in C. destruct C as ([[s3 c3] d3] & r5 & P & C).
      apply bind_returns in C. destruct C as ([c4 p4] & r6 & Q & C).
      unfold ret in C. injection C as <- <- <-.
      destruct (modifySpan_prepareChild_synopsis _ _ _ _ _ _ _ _ _ _ P)
        as (Ek3 & Syn).
      replace (done ++ child :: rest) with ((done ++ [child]) ++ rest)
        by (rewrite <- app_assoc; reflexivity).
      apply (IHrest (done ++ [child]) (put_last visited p4 ++ [c4]) s3 r6
               s1 visited' r3); [|exact G].
      apply Forall2_app.
      + destruct (modifySpan_previous _ _ _ _ _ _ _ _ _ _ _ Q)
          as [-> | (p & text & Lp & Kp & ->)].
        * rewrite put_last_same. exact Hv.
        * destruct visited as [|x l]; [discriminate Lp|].
          unfold last_opt in Lp. injection Lp as Lp.
          cbn [put_last].
          assert (Sp : x :: l = removelast (x :: l) ++ [p]).
          { rewrite <- Lp.
            exact (app_removelast_last x (l := x :: l) ltac:(discriminate)). }
          rewrite Sp in Hv.
          apply Forall2_app_inv_r in Hv.
          destruct Hv as (d1 & d2 & Hd1 & Hd2 & ->).
          apply Forall2_app; [exact Hd1|].
          inversion Hd2 as [|c0 p0 l0 l1 Rc Rn]; subst.
          inversion Rn; subst. constructor; [|constructor].
          intros d Id Kd. destruct (Rc d Id Kd) as (Ekc & _).
          exfalso. rewrite <- Ekc, Kp in Kd. discriminate Kd.
      + constructor; [|constructor].
        intros d Id Kd. destruct (Syn d Id) as (-> & Inc & synopsis & Es & Ep).
        assert (K3 : keepsItsPrefix (span_kind c3) = true) by (rewrite Ek3; exact Kd).
        destruct (modifySpan_keeps_prefix _ _ _ _ _ _ _ _ _ _ _ Inc K3 Q)
          as (Ep4 & _ & Ek4).
        split; [congruence|].
        exists r0, synopsis, r5. split; [exact Es | congruence]. }
  apply (Loop (span_children span) [] [] span r s v r2 (Forall2_nil _) F).
Qed.

End RewritePass.

(** ** The preapproved policy, again *)

Lemma preapproved_loop_idempotent (cs : list Span) (skipRest : bool) :
  _modifySpanForPreapproved_loop skipRest (_modifySpanForPreapproved_loop skipRest cs)
  = _modifySpanForPreapproved_loop skipRest cs.
Proof.
  revert skipRest. induction cs as [|c cs IH]; intros skipRest; [reflexivity|].
  cbn [_modifySpanForPreapproved_loop].
  destruct (SyntaxKind_eqb (span_kind c) Identifier) eqn:I.
  - cbn [_modifySpanForPreapproved_loop].
    assert (K : forall x, span_kind (set_suffix (set_omitSeparatorAfter x true)
                                       preapprovedSuffix) = span_kind x).
    { intros [n a b pre suf sep l m]. reflexivity. }
    assert (Ks : span_kind (skipAll c) = span_kind c).
    { destruct c; reflexivity. }
    rewrite K.
    destruct (skipRest || SyntaxKind_eqb (span_kind c) SyntaxList
              || SyntaxKind_eqb (span_kind c) JSDocComment) eqn:Q.
    + rewrite Ks, Q, I, IH. f_equal.
      destruct c as [n a b pre suf sep l m]. reflexivity.
    + rewrite Q, I, IH. f_equal.
      destruct c as [n a b pre suf sep l m]. reflexivity.
  - destruct (skipRest || SyntaxKind_eqb (span_kind c) SyntaxList
              || SyntaxKind_eqb (span_kind c) JSDocComment) eqn:Q.
    + cbn [_modifySpanForPreapproved_loop].
      assert (Ks : span_kind (skipAll c) = span_kind c).
      { destruct c; reflexivity. }
      rewrite Ks, Q, I, IH. f_equal.
      destruct c as [n a b pre suf sep l m]. reflexivity.
    + cbn [_modifySpanForPreapproved_loop]. rewrite Q, I, IH. reflexivity.
Qed.

Lemma preapproved_loop_erase (cs : list Span) (skipRest : bool) :
  List.map erase (_modifySpanForPreapproved_loop skipRest cs) = List.map erase cs.
Proof.
  revert skipRest. induction cs as [|c cs IH]; intros skipRest; [reflexivity|].
  cbn [_modifySpanForPreapproved_loop].
  destruct (SyntaxKind_eqb (span_kind c) Identifier);
    destruct (skipRest || SyntaxKind_eqb (span_kind c) SyntaxList
              || SyntaxKind_eqb (span_kind c) JSDocComment);
    cbn [List.map]; rewrite IH; f_equal;
    unfold set_suffix, set_omitSeparatorAfter, skipAll;
    rewrite ?erase_set_modification; reflexivity.
Qed.

(** X13: the preapproved policy can be applied again without effect, it
    changes overlays only, and on a declaration none of whose children is
    an identifier it drops the lists and the comments and writes no
    [(preapproved)] marker: the other children stay as they are. *)
Theorem modifySpanForPreapproved_idempotent (span : Span) :
  _modifySpanForPreapproved (_modifySpanForPreapproved span)
  = _modifySpanForPreapproved span
  /\ erase (_modifySpanForPreapproved span) = erase span
  /\ (forallb (fun c => negb (isIdentifier c)) (span_children span) = true ->
      span_children (_modifySpanForPreapproved span)
      = List.map (fun c => if isListOrComment c then skipAll c else c)
          (span_children span)).
Proof.
  split; [|split].
  - destruct span as [n a b pre suf sep cs m].
    unfold _modifySpanForPreapproved. cbn [span_children set_children].
    rewrite preapproved_loop_idempotent. reflexivity.
  - unfold _modifySpanForPreapproved.
    rewrite erase_set_children, preapproved_loop_erase, <- erase_children.
    apply set_children_erase.
  - intros N. destruct span as [n a b pre suf sep cs m].
    unfold _modifySpanForPreapproved. cbn [span_children set_children] in *.
    pose proof (preapproved_loop_before cs [] N) as E.
    rewrite app_nil_r in E. rewrite E. cbn [_modifySpanForPreapproved_loop].
    apply app_nil_r.
Qed.

(** ** The messages of a declaration *)

Lemma Map_get_isKey {V : Type} (m : JsMap V) (key : jstring) :
  isKey (List.map fst m) key
  = match Map_get m key with Some _ => true | None => false end.
Proof.
  induction m as [|[k v] m IH]; [reflexivity|].
  unfold isKey in *. cbn [List.map fst existsb Map_get].
  destruct (jstring_eqb k key); [reflexivity | exact IH].
Qed.

Lemma Map_set_existing {V : Type} (m : JsMap V) (key : jstring) (e : V) :
  Map_get m key = Some e ->
  exists pre k post,
    m = pre ++ (k, e) :: post
    /\ k = key
    /\ forall v, Map_set m key v = pre ++ (k, v) :: post.
Proof.
  induction m as [|[k v0] m IH]; [discriminate|].
  cbn [Map_get Map_set]. destruct (jstring_eqb k key) eqn:Q.
  - intros E. injection E as ->. exists [], k, m.
    apply jstring_eqb_eq in Q. repeat split; assumption.
  - intros E. destruct (IH E) as (pre & k' & post & -> & K & S).
    exists ((k, v0) :: pre), k', post. split; [reflexivity|]. split; [exact K|].
    intros v. rewrite S. reflexivity.
Qed.

Lemma Map_set_missing {V : Type} (m : JsMap V) (key : jstring) (v : V) :
  Map_get m key = None -> Map_set m key v = m ++ [(key, v)].
Proof.
  induction m as [|[k v0] m IH]; [reflexivity|].
  cbn [Map_get Map_set]. destruct (jstring_eqb k key); [discriminate|].
  intros E. rewrite (IH E). reflexivity.
Qed.

Lemma pendingMessages_app (a b : JsMap IExportToEmit) :
  pendingMessages (a ++ b) = pendingMessages a ++ pendingMessages b.
Proof.
  unfold pendingMessages, Map_values. rewrite !map_app, concat_app. reflexivity.
Qed.

Lemma peelMessage_step (exportsToEmit : JsMap IExportToEmit)
    (reported : list ExtractorMessage) (message : ExtractorMessage) :
  let peeled := peelMessage (exportsToEmit, reported) message in
  List.map fst (fst peeled) = List.map fst exportsToEmit
  /\ List.map exportName (Map_values (fst peeled))
     = List.map exportName (Map_values exportsToEmit)
  /\ if namesPendingExport exportsToEmit message
     then snd peeled = reported
          /\ Permutation (pendingMessages (fst peeled))
               (message :: pendingMessages exportsToEmit)
     else snd peeled = reported ++ [message] /\ fst peeled = exportsToEmit.
Proof.
  unfold peelMessage, namesPendingExport.
  destruct (properties_exportName message) as [[|c name]|];
    try (cbn [fst snd]; repeat split; reflexivity).
  rewrite Map_get_isKey.
  destruct (Map_get exportsToEmit (c :: name)) as [e|] eqn:G;
    [|cbn [fst snd]; repeat split; reflexivity].
  destruct (Map_set_existing _ _ _ G) as (pre & k & post & -> & _ & S).
  rewrite S. cbn [fst snd]. unfold Map_values.
  rewrite !map_app. cbn [List.map fst snd exportName].
  split; [reflexivity|]. split; [reflexivity|]. split; [reflexivity|].
  rewrite !pendingMessages_app.
  change (pendingMessages ((k, ?v) :: post))
    with (associatedMessages v ++ pendingMessages post).
  unfold pendingMessages at 2 4. unfold Map_values.
  cbn [List.map concat snd associatedMessages].
  rewrite <- app_assoc. cbn [app].
  apply Permutation_sym.
  apply (Permutation_trans
           (Permutation_middle (pendingMessages pre)
              (associatedMessages e
               ++ concat (List.map associatedMessages (List.map snd post)))
              message)).
  apply Permutation_app_head.
  apply (Permutation_middle (associatedMessages e)
           (concat (List.map associatedMessages (List.map snd post))) message).
Qed.

Lemma namesPendingExport_keys (a b : JsMap IExportToEmit) (message : ExtractorMessage) :
  List.map fst a = List.map fst b ->
  namesPendingExport a message = namesPendingExport b message.
Proof. intros E. unfold namesPendingExport. rewrite E. reflexivity. Qed.

Lemma peelMessage_fold (fetched : list ExtractorMessage) :
  forall (exportsToEmit : JsMap IExportToEmit) (reported : list ExtractorMessage),
    let peeled := fold_left peelMessage fetched (exportsToEmit, reported) in
    Permutation (snd peeled ++ pendingMessages (fst peeled))
      (reported ++ fetched ++ pendingMessages exportsToEmit)
    /\ snd peeled
       = reported
         ++ filter (fun m => negb (namesPendingExport exportsToEmit m)) fetched
    /\ List.map fst (fst peeled) = List.map fst exportsToEmit
    /\ List.map exportName (Map_values (fst peeled))
       = List.map exportName (Map_values exportsToEmit).
Proof.
  induction fetched as [|m fetched IH]; intros exportsToEmit reported.
  - cbn [fold_left fst snd filter app]. rewrite app_nil_r.
    repeat split. apply Permutation_refl.
  - cbn [fold_left].
    destruct (peelMessage_step exportsToEmit reported m) as (K & N & S).
    destruct (peelMessage (exportsToEmit, reported) m) as [exports1 reported1].
    cbn [fst snd] in K, N, S.
    destruct (IH exports1 reported1) as (P & F & K' & N').
    cbv zeta. split; [|split; [|split]].
    + apply (Permutation_trans P).
      destruct (namesPendingExport exportsToEmit m).
      * destruct S as [-> Q]. apply Permutation_app_head. cbn [app].
        apply (Permutation_trans (Permutation_app_head fetched Q)).
        apply Permutation_sym, Permutation_middle.
      * destruct S as [-> ->]. rewrite <- app_assoc. apply Permutation_refl.
    + rewrite F. cbn [filter].
      rewrite (filter_ext _ _
                 (fun x => f_equal negb (namesPendingExport_keys exports1 exportsToEmit x K))).
      destruct (namesPendingExport exportsToEmit m); cbn [negb].
      * destruct S as [-> _]. reflexivity.
      * destruct S as [-> _]. rewrite <- app_assoc. reflexivity.
    + congruence.
    + congruence.
Qed.

(** X14: no message fetched for a declaration is lost or reported twice.
    A message that names an export statement still to be emitted waits at
    that statement, any other one is reported with the declaration, in the
    order in which the messages were fetched; the export statements to be
    emitted stay the same. *)
Theorem peelMessage_conserves_messages (fetched : list ExtractorMessage)
    (exportsToEmit : JsMap IExportToEmit) :
  let peeled := fold_left peelMessage fetched (exportsToEmit, []) in
  Permutation (snd peeled ++ pendingMessages (fst peeled))
    (fetched ++ pendingMessages exportsToEmit)
  /\ snd peeled
     = filter (fun m => negb (namesPendingExport exportsToEmit m)) fetched
  /\ List.map fst (fst peeled) = List.map fst exportsToEmit
  /\ List.map exportName (Map_values (fst peeled))
     = List.map exportName (Map_values exportsToEmit).
Proof. exact (peelMessage_fold fetched exportsToEmit []). Qed.

(** ** The export statements of the report *)

Lemma namedExports_app (a b : IndentedWriter) :
  namedExports (a ++ b) = namedExports a ++ namedExports b.
Proof. unfold namedExports. apply flat_map_app. Qed.

Lemma namedExports_grows (w w' : IndentedWriter) :
  grows noExportStatement w w' -> namedExports w' = namedExports w.
Proof.
  intros (added & -> & F). rewrite namedExports_app.
  assert (E : namedExports added = []).
  { induction F as [|c added Qc _ IH]; [reflexivity|].
    unfold namedExports in *. cbn [flat_map]. rewrite IH.
    destruct c; try reflexivity. contradiction. }
  rewrite E. apply app_nil_r.
Qed.

Lemma filter_twice {A : Type} (f g : A -> bool) (l : list A) :
  filter f (filter g l) = filter (fun x => g x && f x) l.
Proof.
  induction l as [|x l IH]; [reflexivity|].
  cbn [filter]. destruct (g x); cbn [filter andb]; rewrite IH; reflexivity.
Qed.

Lemma filter_all {A : Type} (l : list A) : filter (fun _ => true) l = l.
Proof. induction l as [|x l IH]; [reflexivity|]. cbn [filter]. rewrite IH. reflexivity. Qed.

Lemma isKey_app (keys : list jstring) (x key : jstring) :
  isKey (keys ++ [x]) key = isKey keys key || jstring_eqb x key.
Proof.
  unfold isKey. rewrite existsb_app. cbn [existsb]. rewrite orb_false_r.
  reflexivity.
Qed.

Lemma firstOccurrences_NoDup (names : list jstring) :
  NoDup names -> firstOccurrences names = names.
Proof.
  induction 1 as [|x names Nx _ IH]; [reflexivity|].
  cbn [firstOccurrences]. rewrite IH. f_equal.
  rewrite <- (filter_all names) at 2. apply filter_ext_in.
  intros y Iy. destruct (jstring_eqb x y) eqn:Q; [|reflexivity].
  apply jstring_eqb_eq in Q. subst y. contradiction.
Qed.

(** The export names that get a statement, in the order of the map. *)
Lemma collectExportsToEmit_fold (names : list jstring) :
  forall m : JsMap IExportToEmit,
    Forall (fun kv => exportName (snd kv) = fst kv) m ->
    let m' :=
      fold_left
        (fun exportsToEmit exportName =>
           Map_set exportsToEmit exportName
             {| exportName := exportName; associatedMessages := [] |})
        names m in
    Forall (fun kv => exportName (snd kv) = fst kv) m'
    /\ List.map fst m'
       = List.map fst m
         ++ filter (fun y => negb (isKey (List.map fst m) y)) (firstOccurrences names).
Proof.
  induction names as [|x names IH]; intros m Inv.
  - cbn [fold_left firstOccurrences filter]. rewrite app_nil_r.
    split; [exact Inv | reflexivity].
  - cbn [fold_left firstOccurrences filter]. cbv zeta.
    pose proof (Map_get_isKey m x) as Kx.
    destruct (Map_get m x) as [e|] eqn:G.
    + destruct (Map_set_existing _ _ _ G) as (pre & k & post & Em & -> & S).
      rewrite S, Kx. cbn [negb].
      assert (Inv1 : Forall (fun kv => exportName (snd kv) = fst kv)
                       (pre ++ (x, {| exportName := x; associatedMessages := [] |})
                            :: post)).
      { rewrite Em in Inv. apply Forall_app in Inv. destruct Inv as [I1 I2].
        apply Forall_app. split; [exact I1|].
        constructor; [reflexivity|]. inversion I2; assumption. }
      destruct (IH _ Inv1) as [A B]. split; [exact A|].
      rewrite B. rewrite Em, !map_app. cbn [List.map fst].
      f_equal. rewrite filter_twice. apply filter_ext. intros y.
      destruct (jstring_eqb x y) eqn:Q; [|reflexivity].
      apply jstring_eqb_eq in Q. subst y. cbn [negb andb].
      rewrite Em, map_app in Kx. cbn [List.map fst] in Kx. rewrite Kx. reflexivity.
    + rewrite (Map_set_missing _ _ _ G), Kx. cbn [negb].
      assert (Inv1 : Forall (fun kv => exportName (snd kv) = fst kv)
                       (m ++ [(x, {| exportName := x; associatedMessages := [] |})])).
      { apply Forall_app. split; [exact Inv|]. constructor; [reflexivity | constructor]. }
      destruct (IH _ Inv1) as [A B]. split; [exact A|].
      rewrite B, map_app. cbn [List.map fst]. rewrite <- app_assoc. cbn [app].
      f_equal. f_equal. rewrite filter_twice. apply filter_ext. intros y.
      rewrite isKey_app, negb_orb. apply andb_comm.
Qed.

Lemma collectExportsToEmit_names (entity : CollectorEntity) :
  List.map exportName (Map_values (collectExportsToEmit entity))
  = if shouldInlineExport entity then []
    else firstOccurrences (exportNames entity).
Proof.
  destruct (shouldInlineExport entity) eqn:S.
  - rewrite (collectExportsToEmit_inlined entity S). reflexivity.
  - unfold collectExportsToEmit. rewrite S. cbn [negb].
    destruct (collectExportsToEmit_fold (exportNames entity) [] (Forall_nil _))
      as [A B].
    cbv zeta in A, B. cbn [List.map app isKey existsb negb] in B.
    rewrite filter_all in B. rewrite <- B.
    unfold Map_values. rewrite List.map_map.
    apply map_ext_in. intros kv Ik.
    rewrite Forall_forall in A. apply A. exact Ik.
Qed.

Lemma bind_throws {R A B : Type} (c : M R A) (k : A -> M R B) (r : R) (e : exn) :
  c r = Throws e -> bind c k r = Throws e.
Proof. intros E. unfold bind. rewrite E. reflexivity. Qed.

Section ReportProperties.
Context `{Analyzer} `{ReleaseTagEnum} `{Emitter} {R : Type}.
Variable collector : Collector R.
Variable options : IApiReportOptions.

Lemma emitDeclarations_exports (fuel : nat) (entity : CollectorEntity)
    (astDeclarations : list AstDeclaration)
    (exportsToEmit : JsMap IExportToEmit) (writer : IndentedWriter) (r : R)
    (state' : JsMap IExportToEmit * IndentedWriter) (r' : R) :
  foldM (emitDeclaration collector options fuel entity) astDeclarations
    (exportsToEmit, writer) r = Returns state' r' ->
  List.map exportName (Map_values (fst state'))
  = List.map exportName (Map_values exportsToEmit).
Proof.
  apply (foldM_invariant
           (fun st => List.map exportName (Map_values (fst st))
                      = List.map exportName (Map_values exportsToEmit))).
  - intros [ex w] d r0 st1 r1 _ K E.
    destruct (emitDeclaration_returns collector options _ _ _ _ _ _ _ _ E)
      as (-> & _).
    destruct (peelMessage_fold
                (fst (fetchAssociatedMessagesForReviewFile collector d r0)) ex [])
      as (_ & _ & _ & N).
    cbv zeta in N. rewrite N. exact K.
  - reflexivity.
Qed.

Lemma exportStatements_exports (entity : CollectorEntity)
    (exportsToEmit : list IExportToEmit) :
  forall writer : IndentedWriter,
    namedExports (fold_left (emitExportStatement entity) exportsToEmit writer)
    = namedExports writer
      ++ List.map (fun exportToEmit => (exportName exportToEmit, entity)) exportsToEmit.
Proof.
  induction exportsToEmit as [|x l IH]; intros writer.
  - cbn [fold_left List.map]. symmetry. apply app_nil_r.
  - cbn [fold_left List.map]. rewrite IH. unfold emitExportStatement.
    unfold call at 1. rewrite namedExports_app.
    assert (E : namedExports
                  (if negb (isEmpty (associatedMessages x))
                   then writeWarnings (call writer W_ensureSkippedLine)
                          (associatedMessages x)
                   else writer)
                = namedExports writer).
    { destruct (negb (isEmpty (associatedMessages x))); [|reflexivity].
      rewrite (namedExports_grows _ _ (grows_writeWarnings _ _)).
      unfold call. rewrite namedExports_app. apply app_nil_r. }
    rewrite E, <- app_assoc. reflexivity.
Qed.

(** One entity: an export statement for each of its export names, unless
    the entity is skipped or inlines its export. *)
Lemma emitEntity_exports (fuel : nat) (writer : IndentedWriter)
    (entity : CollectorEntity) (r : R) (writer' : IndentedWriter) (r' : R) :
  emitEntity collector options fuel writer entity r = Returns writer' r' ->
  namedExports writer'
  = namedExports writer
    ++ (if (consumable entity || apiReportIncludeForgottenExports collector)
           && negb (shouldInlineExport entity)
        then List.map (fun name => (name, entity)) (firstOccurrences (exportNames entity))
        else []).
Proof.
  unfold emitEntity.
  destruct (consumable entity || apiReportIncludeForgottenExports collector).
  2:{ unfold ret. intros E. injection E as <- _. symmetry. apply app_nil_r. }
  intros E. apply bind_returns in E. destruct E as ([ex1 w1] & r1 & E1 & E).
  apply bind_returns in E. destruct E as (w2 & r2 & E2 & E).
  unfold ret in E. injection E as <- _.
  assert (G1 : namedExports w1 = namedExports writer
               /\ List.map exportName (Map_values ex1)
                  = List.map exportName (Map_values (collectExportsToEmit entity))).
  { destruct (astEntity entity) as [n decls | m | ns].
    - split.
      + apply namedExports_grows.
        apply (emitDeclarations_returns collector options _ _ _ _ _ _ _ _ E1).
      + apply (emitDeclarations_exports _ _ _ _ _ _ _ _ E1).
    - unfold ret in E1. injection E1 as <- <- _. split; reflexivity.
    - unfold ret in E1. injection E1 as <- <- _. split; reflexivity. }
  destruct G1 as [G1 K1].
  assert (G2 : namedExports w2 = namedExports w1).
  { destruct (astEntity entity) as [n decls | m | ns].
    - unfold ret in E2. injection E2 as <- _. reflexivity.
    - unfold ret in E2. injection E2 as <- _. reflexivity.
    - apply namedExports_grows.
      apply (grows_emitNamespaceImport collector _ _ _ _ _ _ E2). }
  unfold call. rewrite namedExports_app, exportStatements_exports.
  cbn [namedExports flat_map]. rewrite app_nil_r, G2, G1. f_equal.
  rewrite <- (List.map_map exportName (fun name => (name, entity))).
  rewrite K1, collectExportsToEmit_names. cbn [andb].
  destruct (shouldInlineExport entity); reflexivity.
Qed.

Lemma emitEntities_exports (fuel : nat) (all : list CollectorEntity) :
  forall (writer : IndentedWriter) (r : R) (writer' : IndentedWriter) (r' : R),
    foldM (emitEntity collector options fuel) all writer r = Returns writer' r' ->
    namedExports writer'
    = namedExports writer
      ++ flat_map
           (fun entity =>
              if (consumable entity || apiReportIncludeForgottenExports collector)
                 && negb (shouldInlineExport entity)
              then List.map (fun name => (name, entity))
                     (firstOccurrences (exportNames entity))
              else [])
           all.
Proof.
  induction all as [|entity all IH]; intros writer r writer' r' E.
  - cbn [foldM] in E. unfold ret in E. injection E as <- _.
    symmetry. apply app_nil_r.
  - cbn [foldM] in E. apply bind_returns in E. destruct E as (w1 & r1 & E1 & E).
    rewrite (IH _ _ _ _ E), (emitEntity_exports _ _ _ _ _ _ E1).
    cbn [flat_map]. rewrite <- app_assoc. reflexivity.
Qed.

(** X15: the export statements of a report.  The report has one export
    statement for each export name of each entity that is emitted (it is
    consumable, or forgotten exports are included) and does not inline its
    export, in the order of the entities and of their names, and no other
    export statement. *)
Theorem report_export_statements (fuel : nat) (r : R)
    (writer : IndentedWriter) (r' : R) :
  assembleReport collector options fuel r = Returns writer r' ->
  namedExports writer
  = flat_map
      (fun entity =>
         if (consumable entity || apiReportIncludeForgottenExports collector)
            && negb (shouldInlineExport entity)
         then List.map (fun name => (name, entity))
                (firstOccurrences (exportNames entity))
         else [])
      (entities collector)
  /\ (forall entity, NoDup (exportNames entity) ->
      firstOccurrences (exportNames entity) = exportNames entity).
Proof.
  intros E. split; [|intros entity; apply firstOccurrences_NoDup].
  unfold assembleReport in E. apply bind_returns in E.
  destruct E as (w1 & r1 & E1 & E).
  rewrite (namedExports_grows _ _ (grows_writeFooter collector _ _ _ _ E)).
  rewrite (emitEntities_exports _ _ _ _ _ _ E1).
  rewrite (namedExports_grows _ _ (grows_writeImports collector _)).
  rewrite (namedExports_grows _ _ (grows_writeHeader collector)).
  reflexivity.
Qed.

(** *** An unrecognized release level *)

Lemma emitDeclaration_unrecognized_level (fuel : nat) (entity : CollectorEntity)
    (state : JsMap IExportToEmit * IndentedWriter)
    (astDeclaration : AstDeclaration) (r : R) :
  isReleaseLevelNumber (releaseLevel options) = false ->
  isPreapproved (fetchApiItemMetadata collector astDeclaration) = false ->
  hasPrivateModifier astDeclaration = false ->
  emitDeclaration collector options (S fuel) entity state astDeclaration r
  = Throws (Error (str "Unrecognized release level: "
                   ++ Number_toString (releaseLevel options))).
Proof.
  intros L P V. destruct state as [exportsToEmit writer].
  unfold emitDeclaration. unfold bind at 1. unfold router_call.
  destruct (fetchAssociatedMessagesForReviewFile collector astDeclaration r)
    as [fetched r1].
  destruct (fold_left peelMessage fetched (exportsToEmit, [])) as [ex messages].
  destruct (getAedocSynopsis_returns collector astDeclaration messages r1)
    as (rest & r2 & Es).
  unfold bind at 1. rewrite Es.
  apply bind_throws. unfold modifyDeclarationSpan. rewrite P.
  apply bind_throws. apply modifySpan_level_error.
  unfold _shouldIncludeInReport. rewrite V.
  unfold isReleaseLevelNumber in L. rewrite !orb_false_iff in L.
  destruct L as [[[L1 L2] L3] L4]. rewrite L1, L2, L3, L4. reflexivity.
Qed.

(** X16: a release level the enum does not declare aborts the report at
    the first declaration that reaches the filter: the report of a collector
    whose entities up to some emitted symbol are written, when the first
    declaration of that symbol is neither preapproved nor private, is the
    error [Unrecognized release level] with the level as a template
    literal prints the number. *)
Theorem unrecognized_release_level_aborts_the_report (fuel : nat) (r : R)
    (before after : list CollectorEntity) (entity : CollectorEntity)
    (name : jstring) (astDeclaration : AstDeclaration)
    (astDeclarations : list AstDeclaration) (writer : IndentedWriter) (r1 : R) :
  isNumber (releaseLevel options) = true ->
  isReleaseLevelNumber (releaseLevel options) = false ->
  entities collector = before ++ entity :: after ->
  foldM (emitEntity collector options (S fuel)) before
    (writeImports collector (writeHeader collector)) r = Returns writer r1 ->
  consumable entity || apiReportIncludeForgottenExports collector = true ->
  astEntity entity = AstSymbol name (astDeclaration :: astDeclarations) ->
  isPreapproved (fetchApiItemMetadata collector astDeclaration) = false ->
  hasPrivateModifier astDeclaration = false ->
  generateReviewFileContent collector options (S fuel) r
  = Throws (Error (str "Unrecognized release level: "
                   ++ Number_toString (releaseLevel options))).
Proof.
  intros _ L En Before C A P V.
  unfold generateReviewFileContent, assembleReport.
  apply bind_throws. apply bind_throws.
  rewrite En, foldM_app. unfold bind at 1. rewrite Before.
  cbn [foldM]. apply bind_throws.
  unfold emitEntity. rewrite C, A.
  apply bind_throws. cbn [foldM]. apply bind_throws.
  apply emitDeclaration_unrecognized_level; assumption.
Qed.

(** *** The synthetic namespace *)

Lemma exportClauses_resolved (namespaceName : jstring)
    (entries : list (jstring * AstEntity)) :
  (forall entry, In entry entries ->
     tryGetCollectorEntity collector (snd entry) <> None) ->
  forall (exportClauses : list jstring) (r : R),
    foldM (exportClause collector namespaceName) entries exportClauses r
    = Returns (exportClauses ++ List.map (namespaceClause collector) entries) r.
Proof.
  induction entries as [|[exportedName exportedEntity] entries IH];
    intros Res exportClauses r.
  - cbn [foldM List.map]. rewrite app_nil_r. reflexivity.
  - cbn [foldM List.map]. unfold bind.
    pose proof (Res _ (or_introl eq_refl)) as Re. cbn [snd] in Re.
    unfold exportClause at 1. unfold namespaceClause at 1. cbn [fst snd].
    destruct (tryGetCollectorEntity collector exportedEntity) as [ce|];
      [|contradiction].
    assert (Rest : forall entry, In entry entries ->
                     tryGetCollectorEntity collector (snd entry) <> None).
    { intros entry I. apply Res. right. exact I. }
    destruct (nameForEmit ce) as [n|].
    + destruct (jstring_eqb n exportedName); unfold ret;
        rewrite (IH Rest), <- app_assoc; reflexivity.
    + unfold ret. rewrite (IH Rest), <- app_assoc. reflexivity.
Qed.

(** X17: the synthetic namespace of a namespace import that has a name and
    no star export.  When every exported entity has a collector entity the
    block is written with one clause for each of them, in their order, the
    indentation is back where it was and the router is untouched; the
    first exported entity without a collector entity is an internal error
    that names it. *)
Theorem namespace_import_block (entity : CollectorEntity) (ns : AstNamespaceImport)
    (writer : IndentedWriter) (r : R) (name : jstring) :
  nameForEmit entity = Some name ->
  starExportedExternalModules (fetchAstModuleExportInfo collector ns) = [] ->
  let exported := exportedLocalEntities (fetchAstModuleExportInfo collector ns) in
  ((forall entry, In entry exported ->
      tryGetCollectorEntity collector (snd entry) <> None) ->
   emitNamespaceImport collector entity ns writer r
   = Returns
       (writer
        ++ [ W_ensureSkippedLine;
             W_writeLine (str "declare namespace " ++ name ++ str " {");
             W_increaseIndent;
             W_writeLine (str "export {");
             W_increaseIndent;
             W_writeLine (join (str "," ++ [LF])
                            (List.map (namespaceClause collector) exported));
             W_decreaseIndent;
             W_writeLine (str "}");
             W_decreaseIndent;
             W_writeLine (str "}") ]) r)
  /\ (forall resolved exportedName exportedEntity rest,
         exported = resolved ++ (exportedName, exportedEntity) :: rest ->
         (forall entry, In entry resolved ->
            tryGetCollectorEntity collector (snd entry) <> None) ->
         tryGetCollectorEntity collector exportedEntity = None ->
         emitNamespaceImport collector entity ns writer r
         = Throws (InternalError
                     (str "Cannot find collector entity for " ++ name
                      ++ str "." ++ entity_localName exportedEntity))).
Proof.
  intros N S exported. split.
  - intros Res. unfold emitNamespaceImport. rewrite N, S. cbn [List.length Nat.ltb Nat.leb].
    unfold bind. fold exported. rewrite (exportClauses_resolved name exported Res).
    unfold ret, call. cbn [app]. rewrite <- !app_assoc. reflexivity.
  - intros resolved exportedName exportedEntity rest Ex Res Missing.
    unfold emitNamespaceImport. rewrite N, S. cbn [List.length Nat.ltb Nat.leb].
    apply bind_throws. fold exported. rewrite Ex, foldM_app.
    unfold bind. rewrite (exportClauses_resolved name resolved Res).
    cbn [foldM]. unfold bind. unfold exportClause at 1. rewrite Missing.
    reflexivity.
Qed.

(** *** A declaration the filter rejects *)

(** X19: the synopsis of a declaration is written before the filter is
    asked.  A declaration of an emitted symbol that the filter rejects (it
    is private, or its tag is out of the release level) still has its
    synopsis written to the report, and the router still gets the issue of
    a missing documentation; only the text of the declaration is empty. *)
Theorem excluded_declaration_keeps_its_synopsis (fuel : nat)
    (entity : CollectorEntity) (exportsToEmit : JsMap IExportToEmit)
    (writer : IndentedWriter) (astDeclaration : AstDeclaration) (r : R) :
  isPreapproved (fetchApiItemMetadata collector astDeclaration) = false ->
  _shouldIncludeInReport collector astDeclaration (releaseLevel options) = Ok false ->
  let fetched := fetchAssociatedMessagesForReviewFile collector astDeclaration r in
  let peeled := fold_left peelMessage (fst fetched) (exportsToEmit, []) in
  exists synopsis r',
    _getAedocSynopsis collector astDeclaration (snd peeled) (snd fetched)
    = Returns synopsis r'
    /\ emitDeclaration collector options (S fuel) entity (exportsToEmit, writer)
         astDeclaration r
       = Returns
           (fst peeled,
            writer ++ [W_ensureSkippedLine; W_write synopsis; W_write [];
                       W_ensureNewLine])
           r'.
Proof.
  intros P X fetched peeled.
  destruct (getAedocSynopsis_not_out_of_fuel collector astDeclaration
              (snd peeled) (snd fetched)) as (synopsis & r' & Es).
  exists synopsis, r'. split; [exact Es|].
  unfold emitDeclaration. unfold bind at 1. unfold router_call.
  fold fetched. destruct fetched as [messages r1]. cbn [fst snd] in *.
  fold peeled. destruct peeled as [ex reported]. cbn [fst snd] in *.
  unfold bind at 1. rewrite Es.
  unfold modifyDeclarationSpan. rewrite P.
  unfold bind at 1. unfold bind at 1.
  rewrite (modifySpan_excluded collector entity _ _ _ _ _ _ _ _ X).
  unfold ret, call.
  assert (T : forall span, getModifiedText (skipAll span) = []).
  { intros [n a b pre suf sep cs m]. reflexivity. }
  rewrite T, <- !app_assoc. reflexivity.
Qed.

(** *** The layout of the report *)

Lemma isText_grows_writeLineAsComments (writer : IndentedWriter) (line : jstring) :
  grows isTextCall writer (_writeLineAsComments writer line).
Proof.
  rewrite writeLineAsComments_calls. exists (commentCalls line).
  split; [reflexivity|]. unfold commentCalls.
  induction (split_on LF (Text_convertToLf line)) as [|l lines IH]; cbn.
  - constructor.
  - repeat constructor. exact IH.
Qed.

Lemma isText_grows_writeWarnings (writer : IndentedWriter)
    (messages : list ExtractorMessage) :
  grows isTextCall writer (writeWarnings writer messages).
Proof.
  unfold writeWarnings. apply grows_fold_left. intros w m.
  apply isText_grows_writeLineAsComments.
Qed.

Lemma isText_grows_emitDeclarations (fuel : nat) (entity : CollectorEntity)
    (astDeclarations : list AstDeclaration)
    (exportsToEmit : JsMap IExportToEmit) (writer : IndentedWriter) (r : R)
    (state' : JsMap IExportToEmit * IndentedWriter) (r' : R) :
  foldM (emitDeclaration collector options fuel entity) astDeclarations
    (exportsToEmit, writer) r = Returns state' r' ->
  grows isTextCall writer (snd state').
Proof.
  apply (foldM_invariant (fun st => grows isTextCall writer (snd st))).
  - intros [ex w] d r0 st1 r1 _ G E.
    apply (grows_trans _ _ w); [exact G|].
    destruct (emitDeclaration_returns collector options _ _ _ _ _ _ _ _ E)
      as (_ & rest & text & ->).
    eexists. split; [reflexivity|]. repeat constructor.
  - apply grows_refl.
Qed.

Lemma isText_grows_emitNamespaceImport (entity : CollectorEntity)
    (ns : AstNamespaceImport) (writer : IndentedWriter) (r : R)
    (writer' : IndentedWriter) (r' : R) :
  emitNamespaceImport collector entity ns writer r = Returns writer' r' ->
  grows isTextCall writer writer'.
Proof.
  unfold emitNamespaceImport.
  destruct (nameForEmit entity) as [name|]; [|discriminate].
  destruct (Nat.ltb 0 _); [discriminate|].
  intros E. apply bind_returns in E. destruct E as (clauses & r1 & _ & E).
  unfold ret in E. injection E as <- _. grow.
Qed.

Lemma isText_weaken (c : WriterCall) : isTextCall c -> isTextOrExport c.
Proof. destruct c; cbn; intros Q; try exact I; contradiction. Qed.

Lemma isTextOrExport_grows_emitEntity (fuel : nat) (writer : IndentedWriter)
    (entity : CollectorEntity) (r : R) (writer' : IndentedWriter) (r' : R) :
  emitEntity collector options fuel writer entity r = Returns writer' r' ->
  grows isTextOrExport writer writer'.
Proof.
  unfold emitEntity.
  destruct (consumable entity || apiReportIncludeForgottenExports collector).
  2:{ unfold ret. intros E. injection E as <- _. apply grows_refl. }
  intros E. apply bind_returns in E. destruct E as ([ex1 w1] & r1 & E1 & E).
  apply bind_returns in E. destruct E as (w2 & r2 & E2 & E).
  unfold ret in E. injection E as <- _.
  assert (G1 : grows isTextCall writer w1).
  { destruct (astEntity entity) as [n decls | m | ns].
    - apply (isText_grows_emitDeclarations _ _ _ _ _ _ _ _ E1).
    - unfold ret in E1. injection E1 as <- <- _. apply grows_refl.
    - unfold ret in E1. injection E1 as <- <- _. apply grows_refl. }
  assert (G2 : grows isTextCall w1 w2).
  { destruct (astEntity entity) as [n decls | m | ns].
    - unfold ret in E2. injection E2 as <- _. apply grows_refl.
    - unfold ret in E2. injection E2 as <- _. apply grows_refl.
    - apply (isText_grows_emitNamespaceImport _ _ _ _ _ _ E2). }
  eapply grows_trans; [| apply grows_call; exact I].
  eapply grows_trans.
  - apply (grows_weaken _ _ _ _ isText_weaken (grows_trans _ _ _ _ G1 G2)).
  - apply grows_fold_left. intros w x. unfold emitExportStatement.
    eapply grows_trans; [| apply grows_call; exact I].
    destruct (negb (isEmpty (associatedMessages x))).
    + eapply grows_trans;
        [| apply (grows_weaken _ _ _ _ isText_weaken), isText_grows_writeWarnings].
      apply grows_call. exact I.
    + apply grows_refl.
Qed.

Lemma writeImports_calls (writer : IndentedWriter) :
  writeImports collector writer
  = writer
    ++ flat_map
         (fun entity =>
            match astEntity entity with
            | AstImport modulePath _ => [W_emitImport entity modulePath]
            | _ => []
            end)
         (entities collector)
    ++ [W_ensureSkippedLine].
Proof.
  unfold writeImports. unfold call at 1. rewrite app_assoc. f_equal.
  revert writer. induction (entities collector) as [|e l IH]; intros writer.
  - cbn. symmetry. apply app_nil_r.
  - cbn [fold_left flat_map]. rewrite IH.
    destruct (astEntity e); unfold call; rewrite <- ?app_assoc; reflexivity.
Qed.

Lemma writeFooter_calls (writer : IndentedWriter) (r : R)
    (writer' : IndentedWriter) (r' : R) :
  writeFooter collector writer r = Returns writer' r' ->
  exists footer,
    writer'
    = writer ++ [W_emitStarExports] ++ footer
      ++ [W_ensureSkippedLine; W_writeLine (str "```")]
    /\ Forall isTextCall footer.
Proof.
  unfold writeFooter. intros E.
  apply bind_returns in E. destruct E as (messages & r1 & _ & E).
  unfold ret in E. injection E as <- _.
  match goal with
  | |- context [call (call ?w W_ensureSkippedLine) (W_writeLine (str "```"))] =>
      assert (G : grows isTextCall (call writer W_emitStarExports) w)
  end.
  { eapply grows_trans with (w2 := if negb (isEmpty messages) then _ else _).
    2:{ destruct (workingPackage_tsdocComment collector).
        - apply grows_refl.
        - eapply grows_trans; [| apply isText_grows_writeLineAsComments]. grow. }
    destruct (negb (isEmpty messages)).
    - eapply grows_trans;
        [| apply grows_fold_left; intros w x; apply isText_grows_writeLineAsComments].
      eapply grows_trans; [| apply isText_grows_writeLineAsComments].
      eapply grows_trans; [| apply isText_grows_writeLineAsComments].
      grow.
    - grow. }
  destruct G as (footer & -> & F). exists footer. split; [|exact F].
  unfold call. rewrite <- !app_assoc. reflexivity.
Qed.

(** X20: the layout of a report.  The calls on the writer are the header,
    then the imports (one for every import among the entities, consumable
    or not, in their order), then the entities, then the star exports,
    once, then the warnings without a declaration, and the end of the code
    fence comes last; the header and the footer are text, and the body is
    text and export statements. *)
Theorem report_layout (fuel : nat) (r : R) (writer : IndentedWriter) (r' : R) :
  assembleReport collector options fuel r = Returns writer r' ->
  exists body footer,
    writer
    = writeHeader collector
      ++ flat_map
           (fun entity =>
              match astEntity entity with
              | AstImport modulePath _ => [W_emitImport entity modulePath]
              | _ => []
              end)
           (entities collector)
      ++ [W_ensureSkippedLine]
      ++ body
      ++ [W_emitStarExports]
      ++ footer
      ++ [W_ensureSkippedLine; W_writeLine (str "```")]
    /\ Forall isTextCall (writeHeader collector)
    /\ Forall isTextOrExport body
    /\ Forall isTextCall footer.
Proof.
  intros E. unfold assembleReport in E. apply bind_returns in E.
  destruct E as (w1 & r1 & E1 & E).
  destruct (writeFooter_calls _ _ _ _ E) as (footer & -> & F).
  assert (G : grows isTextOrExport (writeImports collector (writeHeader collector)) w1).
  { revert E1. generalize (writeImports collector (writeHeader collector)) as w0.
    generalize r as r0.
    induction (entities collector) as [|e l IH]; intros r0 w0 E1.
    - cbn [foldM] in E1. unfold ret in E1. injection E1 as <- _. apply grows_refl.
    - cbn [foldM] in E1. apply bind_returns in E1.
      destruct E1 as (w2 & r2 & E2 & E1).
      eapply grows_trans; [| apply (IH _ _ E1)].
      apply (isTextOrExport_grows_emitEntity _ _ _ _ _ _ E2). }
  destruct G as (body & -> & B). exists body, footer.
  split; [|split; [|split; assumption]].
  - rewrite writeImports_calls, <- !app_assoc. reflexivity.
  - assert (H' : grows isTextCall [] (writeHeader collector)).
    { unfold writeHeader.
      eapply grows_trans; [| apply grows_call; exact I].
      eapply grows_trans;
        [| apply grows_fold_left; intros w x; apply grows_call; exact I].
      eapply grows_trans;
        [| apply grows_fold_left; intros w x; apply grows_call; exact I].
      grow. }
    destruct H' as (added & -> & Fa). exact Fa.
Qed.

End ReportProperties.

(** ** The worked example *)

#[local] Existing Instance demo_analyzer.
#[local] Existing Instance demo_tags.
#[local] Existing Instance demo_emitter.

Lemma areEquivalentApiFileContents_witness :
  areEquivalentApiFileContents
    (str "class A {" ++ [CR; LF] ++ str "}")
    (str "class A {" ++ [LF; LF; SP] ++ str "}") = true
  /\ areEquivalentApiFileContents
       (str "class " ++ str "A" ++ str " {}")
       (str "class " ++ str "B" ++ str " {}") = false.
Proof.
  destruct areEquivalentApiFileContents_collapses_whitespace
    as (_ & Hruns & _ & _ & Htoken).
  split.
  - apply Hruns; solve [reflexivity | discriminate].
  - apply Htoken; solve [reflexivity | discriminate].
Defined.

Lemma shouldIncludeInReport_rule_witness :
  hasPrivateModifier demo_private_declaration = true
  /\ _shouldIncludeInReport (demo_collector [] [] []) demo_private_declaration
       ApiReportReleaseLevel.Untrimmed = Ok false
  /\ hasPrivateModifier demo_bar_declaration = false
  /\ _shouldIncludeInReport (demo_collector [] [] []) demo_bar_declaration
       ApiReportReleaseLevel.Public = Ok false.
Proof.
  destruct (shouldIncludeInReport_rule (demo_collector [] [] []) demo_private_declaration)
    as [Hprivate _].
  destruct (shouldIncludeInReport_rule (demo_collector [] [] []) demo_bar_declaration)
    as [_ Hother].
  split; [reflexivity|]. split; [apply Hprivate; reflexivity|].
  split; [reflexivity|]. apply Hother; reflexivity.
Defined.

Lemma shouldIncludeInReport_monotone_witness :
  isReleaseLevel ApiReportReleaseLevel.Alpha = true
  /\ isReleaseLevel ApiReportReleaseLevel.Public = true
  /\ ApiReportReleaseLevel.Alpha <= ApiReportReleaseLevel.Public
  /\ _shouldIncludeInReport (demo_collector [] [] []) demo_Foo_declaration
       ApiReportReleaseLevel.Public = Ok true
  /\ _shouldIncludeInReport (demo_collector [] [] []) demo_Foo_declaration
       ApiReportReleaseLevel.Alpha = Ok true.
Proof.
  split; [reflexivity|]. split; [reflexivity|].
  split; [discriminate|]. split; [reflexivity|].
  apply (shouldIncludeInReport_monotone (demo_collector [] [] []) demo_Foo_declaration
           ApiReportReleaseLevel.Alpha ApiReportReleaseLevel.Public);
    solve [reflexivity | discriminate].
Defined.

Lemma shouldIncludeInReport_unrecognized_level_witness :
  isNumber 7 = true
  /\ isReleaseLevelNumber 7 = false
  /\ hasPrivateModifier demo_Foo_declaration = false
  /\ _shouldIncludeInReport (demo_collector [] [] []) demo_Foo_declaration 7
     = Throw (Error (str "Unrecognized release level: 7"))
  /\ isNumber (10 ^ 21) = true
  /\ isReleaseLevelNumber (10 ^ 21) = false
  /\ _shouldIncludeInReport (demo_collector [] [] []) demo_Foo_declaration (10 ^ 21)
     = Throw (Error (str "Unrecognized release level: 1e+21"))
  /\ isNumber (Finite 5 (-1)) = true
  /\ isReleaseLevelNumber (Finite 5 (-1)) = false
  /\ _shouldIncludeInReport (demo_collector [] [] []) demo_Foo_declaration
       (Finite 5 (-1))
     = Throw (Error (str "Unrecognized release level: 2.5"))
  /\ isReleaseLevelNumber NaN = false
  /\ _shouldIncludeInReport (demo_collector [] [] []) demo_Foo_declaration NaN
     = Throw (Error (str "Unrecognized release level: NaN"))
  /\ hasPrivateModifier demo_private_declaration = true
  /\ _shouldIncludeInReport (demo_collector [] [] []) demo_private_declaration 7
     = Ok false
  /\ isReleaseLevelNumber ApiReportReleaseLevel.Beta = true
  /\ exists b : bool,
       _shouldIncludeInReport (demo_collector [] [] []) demo_Foo_declaration
         ApiReportReleaseLevel.Beta = Ok b.
Proof.
  destruct (shouldIncludeInReport_unrecognized_level (demo_collector [] [] [])
              demo_Foo_declaration 7) as (Hseven & _ & _).
  destruct (shouldIncludeInReport_unrecognized_level (demo_collector [] [] [])
              demo_Foo_declaration (10 ^ 21)) as (Hlarge & _ & _).
  destruct (shouldIncludeInReport_unrecognized_level (demo_collector [] [] [])
              demo_Foo_declaration (Finite 5 (-1))) as (Hhalf & _ & _).
  destruct (shouldIncludeInReport_unrecognized_level (demo_collector [] [] [])
              demo_Foo_declaration NaN) as (Hnan & _ & _).
  destruct (shouldIncludeInReport_unrecognized_level (demo_collector [] [] [])
              demo_private_declaration 7) as (_ & Hprivate & _).
  destruct (shouldIncludeInReport_unrecognized_level (demo_collector [] [] [])
              demo_Foo_declaration ApiReportReleaseLevel.Beta) as (_ & _ & Hlevel).
  split; [reflexivity|]. split; [reflexivity|]. split; [reflexivity|].
  split; [rewrite Hseven by reflexivity; vm_compute; reflexivity|].
  split; [vm_compute; reflexivity|]. split; [reflexivity|].
  split; [rewrite Hlarge by (vm_compute; reflexivity); vm_compute; reflexivity|].
  split; [reflexivity|]. split; [reflexivity|].
  split; [rewrite Hhalf by reflexivity; vm_compute; reflexivity|].
  split; [reflexivity|].
  split; [rewrite Hnan by reflexivity; vm_compute; reflexivity|].
  split; [reflexivity|].
  split; [apply Hprivate; reflexivity|]. split; [reflexivity|].
  apply Hlevel. reflexivity.
Defined.

(** A private declaration at a threshold that is no release level: the
    filter answers [false] and throws nothing. *)
Lemma shouldIncludeInReport_private_unrecognized_level :
  isReleaseLevelNumber 7 = false
  /\ _shouldIncludeInReport (demo_collector [] [] []) demo_private_declaration 7
     = Ok false.
Proof. split; reflexivity. Qed.

Lemma writeModifiedText_identity_witness :
  wellFormed demo_class = true
  /\ untouched (new_Span demo_text demo_class) = true
  /\ getModifiedText (new_Span demo_text demo_class) = getText demo_text demo_class.
Proof.
  split; [reflexivity|].
  apply (writeModifiedText_identity demo_text demo_class). reflexivity.
Defined.

Lemma modifySpan_renames_identifiers_witness :
  _shouldIncludeInReport (demo_collector [] [] []) demo_Foo_declaration
    ApiReportReleaseLevel.Public = Ok true
  /\ exists span' : Span,
       _modifySpan (demo_collector [] [] []) (demo_Foo false)
         ApiReportReleaseLevel.Public 1 (Some TypeReference) None
         (new_Span_at demo_text demo_Baz_node 28) demo_Foo_declaration false []
       = Returns (span', None) []
       /\ modification_prefix span' = str "Baz_2"
       /\ getModifiedText span' = str "Baz_2".
Proof.
  assert (Included : _shouldIncludeInReport (demo_collector [] [] [])
                       demo_Foo_declaration ApiReportReleaseLevel.Public = Ok true).
  { reflexivity. }
  split; [exact Included|].
  destruct (modifySpan_renames_identifiers (demo_collector [] [] []) (demo_Foo false)
              ApiReportReleaseLevel.Public 0 false demo_Foo_declaration []
              Included) as (Hrenamed & _).
  apply (Hrenamed demo_text demo_Baz_node 28%nat (Some TypeReference) None
           demo_Baz (str "Baz_2")); solve [reflexivity | discriminate].
Defined.

(** The rewrite pass on the member [bar: Baz;] of the class, at the beta
    level: the identifier [Baz], two levels down, is written under the name
    of the entity it resolves to. *)
Example modifySpan_on_a_member :
  exists (span : Span) (r : list jstring),
    _modifySpan (demo_collector [] [] []) (demo_Foo false)
      ApiReportReleaseLevel.Beta 10 (Some SyntaxList) None
      (new_Span demo_text demo_bar) demo_bar_declaration false []
    = Returns (span, None) r
    /\ getModifiedText (new_Span demo_text demo_bar) = str "bar: Baz;"
    /\ getModifiedText span = str "bar: Baz_2;".
Proof.
  eexists. eexists. split; [vm_compute; reflexivity|].
  split; vm_compute; reflexivity.
Qed.

Lemma preapproved_declaration_is_collapsed_witness :
  isPreapproved (demo_metadata demo_Preapproved_declaration) = true
  /\ modifyDeclarationSpan (demo_collector [] [] [])
       (demo_options ApiReportReleaseLevel.Public) 0 (demo_Foo false)
       demo_Preapproved_declaration []
     = Returns (_modifySpanForPreapproved (new_Span demo_text demo_class)) []
  /\ getModifiedText (_modifySpanForPreapproved (new_Span demo_text demo_class))
     = str "class Foo { /* (preapproved) */ }"
  /\ getModifiedText
       (_modifySpanForPreapproved (new_Span demo_import_text demo_import_equals))
     = str "import x { /* (preapproved) */ } { /* (preapproved) */ }"
  /\ getModifiedText
       (_modifySpanForPreapproved (new_Span demo_constructor_text demo_constructor))
     = str "constructor();".
Proof.
  destruct (preapproved_declaration_is_collapsed (demo_collector [] [] [])
              (demo_options ApiReportReleaseLevel.Public))
    as (_ & Hpolicy & Hfresh & Heffect & Hplain).
  split; [reflexivity|]. split; [|split; [|split]].
  - apply (Hpolicy 0%nat (demo_Foo false) demo_Preapproved_declaration []).
    reflexivity.
  - destruct (Hfresh demo_text demo_class) as [OC SC].
    destruct (Heffect (new_Span demo_text demo_class)
                (new_Span_at demo_text (mkNode Identifier 14 17 []) 18)
                [ new_Span_at demo_text (mkNode SyntaxList 0 7 [mkNode DeclareKeyword 0 7 []]) 8;
                  new_Span_at demo_text (mkNode ClassKeyword 8 13 []) 14 ]
                [ new_Span_at demo_text (mkNode OpenBraceToken 18 19 []) 20;
                  new_Span_at demo_text (mkNode SyntaxList 20 29 [demo_bar]) 30;
                  new_Span_at demo_text (mkNode CloseBraceToken 30 31 []) 31 ]
                eq_refl eq_refl eq_refl) as (_ & _ & Htext).
    rewrite (Htext OC SC); reflexivity.
  - destruct (Hfresh demo_import_text demo_import_equals) as [OC SC].
    destruct (Heffect (new_Span demo_import_text demo_import_equals)
                (new_Span_at demo_import_text (mkNode Identifier 7 8 []) 9)
                [ new_Span_at demo_import_text (mkNode ImportKeyword 0 6 []) 7 ]
                [ new_Span_at demo_import_text (mkNode EqualsToken 9 10 []) 11;
                  new_Span_at demo_import_text (mkNode Identifier 11 12 []) 12;
                  new_Span_at demo_import_text (mkNode SemicolonToken 12 13 []) 13 ]
                eq_refl eq_refl eq_refl) as (_ & _ & Htext).
    rewrite (Htext OC SC); reflexivity.
  - destruct (Hfresh demo_constructor_text demo_constructor) as [OC SC].
    destruct (Hplain (new_Span demo_constructor_text demo_constructor) eq_refl)
      as (_ & Htext).
    rewrite (Htext OC SC); reflexivity.
Defined.

(** The suffix handed to the identifier of a preapproved declaration is not
    [{ /* collapsed */ }]. *)
Lemma preapproved_suffix_is_not_collapsed :
  List.map modification_suffix
    (filter isIdentifier
       (span_children (_modifySpanForPreapproved (new_Span demo_text demo_class))))
  = [str " { /* (preapproved) */ }"]
  /\ str " { /* (preapproved) */ }" <> str "{ /* collapsed */ }"
  /\ getModifiedText (_modifySpanForPreapproved (new_Span demo_text demo_class))
     = str "class Foo { /* (preapproved) */ }".
Proof. split; [reflexivity|]. split; [discriminate | reflexivity]. Qed.

Lemma generateReviewFileContent_trims_trailing_spaces_witness :
  demo_run (demo_collector [demo_Baz; demo_Foo true] [demo_warning] [])
    ApiReportReleaseLevel.Public = Returns demo_report_inlined []
  /\ Forall (fun line => endsWith SP line = false) (split_on LF demo_report_inlined).
Proof.
  assert (Run : demo_run (demo_collector [demo_Baz; demo_Foo true] [demo_warning] [])
                  ApiReportReleaseLevel.Public = Returns demo_report_inlined []).
  { vm_compute. reflexivity. }
  split; [exact Run|].
  apply (generateReviewFileContent_trims_trailing_spaces _ _ _ _ _ _ Run).
Defined.

(** A report with a line that ends with a tab, which is whitespace. *)
Lemma report_line_ends_with_tab :
  demo_run (demo_collector [] [] [demo_tab_warning]) ApiReportReleaseLevel.Untrimmed
  = Returns demo_report_tab []
  /\ In (str "// ae-demo" ++ [TAB]) (split_on LF demo_report_tab)
  /\ endsWithWhiteSpace (str "// ae-demo" ++ [TAB]) = true.
Proof.
  split; [vm_compute; reflexivity|]. split; [|reflexivity].
  vm_compute. tauto.
Qed.

Lemma inlined_export_has_no_export_statement_witness :
  shouldInlineExport (demo_Foo true) = true
  /\ assembleReport (demo_collector [demo_Baz; demo_Foo true] [demo_warning] [])
       (demo_options ApiReportReleaseLevel.Public) 10 []
     = Returns demo_writer_inlined []
  /\ (forall exportName,
        ~ In (W_emitNamedExport exportName (demo_Foo true)) demo_writer_inlined)
  /\ (exists (w0 : IndentedWriter) (r0 : list jstring) (added : list WriterCall)
             (r1 : list jstring) (rest : list WriterCall),
       foldM (emitEntity (demo_collector [demo_Baz; demo_Foo true] [demo_warning] [])
                (demo_options ApiReportReleaseLevel.Public) 10)
         [demo_Baz]
         (writeImports (demo_collector [demo_Baz; demo_Foo true] [demo_warning] [])
            (writeHeader (demo_collector [demo_Baz; demo_Foo true] [demo_warning] [])))
         []
       = Returns w0 r0
       /\ declarationsWritten
            (demo_collector [demo_Baz; demo_Foo true] [demo_warning] [])
            (demo_options ApiReportReleaseLevel.Public) 10 (demo_Foo true)
            [demo_Foo_declaration] r0 added r1
       /\ demo_writer_inlined = w0 ++ added ++ [W_ensureSkippedLine] ++ rest)
  /\ emitEntity (demo_collector [demo_Baz; demo_Foo true] [demo_warning] [])
       (demo_options ApiReportReleaseLevel.Public) 10 [] (demo_Foo true) []
     = Returns
         [ W_ensureSkippedLine;
           W_write (str "// Warning: ae-demo: about the export" ++ [LF]
                    ++ str "// " ++ [LF] ++ str "// @public" ++ [LF]);
           W_write (str "export  class Foo {  }");
           W_ensureNewLine;
           W_ensureSkippedLine ] [].
Proof.
  assert (Run : assembleReport (demo_collector [demo_Baz; demo_Foo true] [demo_warning] [])
                  (demo_options ApiReportReleaseLevel.Public) 10 []
                = Returns demo_writer_inlined []).
  { vm_compute. reflexivity. }
  split; [reflexivity|]. split; [exact Run|].
  assert (Inlined : shouldInlineExport (demo_Foo true) = true).
  { reflexivity. }
  destruct (inlined_export_has_no_export_statement
              (demo_collector [demo_Baz; demo_Foo true] [demo_warning] [])
              (demo_options ApiReportReleaseLevel.Public) 10 (demo_Foo true) Inlined)
    as (_ & _ & _ & Hnone & Hentity & Hreport).
  split; [apply (Hnone [] demo_writer_inlined [] Run)|]. split.
  - apply (Hreport (str "Foo") [demo_Foo_declaration] [demo_Baz] []
             [] demo_writer_inlined []);
      solve [reflexivity | exact Run].
  - apply (Hentity (str "Foo") [demo_Foo_declaration]); [reflexivity | reflexivity |].
    exists [ W_ensureSkippedLine;
             W_write (str "// Warning: ae-demo: about the export" ++ [LF]
                      ++ str "// " ++ [LF] ++ str "// @public" ++ [LF]);
             W_write (str "export  class Foo {  }");
             W_ensureNewLine ].
    split; [|reflexivity].
    exists [ W_write (str "// "); W_writeLine []; W_writeLine (str "// @public") ].
    eexists. eexists. eexists. exists [].
    cbv zeta. split; [vm_compute; reflexivity|].
    split; [vm_compute; reflexivity|]. repeat split.
Defined.

(** The two reports of the class: the export statement and its warning are
    there when the export is not inlined, and with the export inlined the
    warning stands with the declaration. *)
Example export_statement_in_the_reports :
  In (str "export { Foo }") (split_on LF demo_report_exported)
  /\ ~ In (str "export { Foo }") (split_on LF demo_report_inlined)
  /\ In (str "// Warning: ae-demo: about the export") (split_on LF demo_report_inlined).
Proof.
  split; [vm_compute; tauto|]. split; [|vm_compute; tauto].
  vm_compute. intros Q.
  repeat match goal with
         | Q : _ \/ _ |- _ => destruct Q as [Q | Q]; [discriminate Q|]
         end.
  exact Q.
Qed.



(** ** Further properties, on the worked example *)

Lemma trimSpaces_idempotent_witness :
  noTrailingSpaces (str "class A {" ++ [LF] ++ str "}") = true
  /\ trimSpaces (str "class A {" ++ [LF] ++ str "}")
     = str "class A {" ++ [LF] ++ str "}"
  /\ trimSpaces (trimSpaces (str "class A {  " ++ [LF] ++ str "}  "))
     = trimSpaces (str "class A {  " ++ [LF] ++ str "}  ").
Proof.
  split; [reflexivity|]. split.
  - apply (trimSpaces_idempotent (str "class A {" ++ [LF] ++ str "}")).
    reflexivity.
  - apply (trimSpaces_idempotent (str "class A {  " ++ [LF] ++ str "}  ")).
Defined.

Lemma trimSpaces_is_equivalent_witness :
  areEquivalentApiFileContents
    (trimSpaces (str "class A {  " ++ [LF] ++ str "}"))
    (str "class A {  " ++ [LF] ++ str "}") = true
  /\ withoutFinalSpaces (str "class A {}" ++ [LF] ++ str "  ") = str "class A {}" ++ [LF]
  /\ areEquivalentApiFileContents
       (trimSpaces (str "class A {}" ++ [LF] ++ str "  "))
       (str "class A {}" ++ [LF] ++ str "  ") = true
  /\ areEquivalentApiFileContents (trimSpaces (str "class A {} ")) (str "class A {} ")
     = false.
Proof.
  rewrite !trimSpaces_is_equivalent. repeat split.
Defined.

Lemma areEquivalentApiFileContents_equivalence_witness :
  areEquivalentApiFileContents (str "a  b") (str "a b") = true
  /\ areEquivalentApiFileContents (str "a b") (str "a" ++ [LF] ++ str "b") = true
  /\ areEquivalentApiFileContents (str "a  b") (str "a" ++ [LF] ++ str "b") = true.
Proof.
  destruct areEquivalentApiFileContents_equivalence as (_ & _ & Htrans & _).
  split; [reflexivity|]. split; [reflexivity|].
  apply (Htrans (str "a  b") (str "a b") (str "a" ++ [LF] ++ str "b"));
    reflexivity.
Defined.

Lemma areEquivalentApiFileContents_does_not_trim_witness :
  allWhiteSpace [LF] = true
  /\ endsWithWhiteSpace (str "class A {}") = false
  /\ areEquivalentApiFileContents (str "class A {}" ++ [LF]) (str "class A {}") = false
  /\ startsWithWhiteSpace (str "class A {}") = false
  /\ areEquivalentApiFileContents ([LF] ++ str "class A {}") (str "class A {}") = false.
Proof.
  destruct (areEquivalentApiFileContents_does_not_trim (str "class A {}") [LF])
    as [Hend Hstart]; [reflexivity | discriminate |].
  split; [reflexivity|]. split; [reflexivity|].
  split; [apply Hend; reflexivity|]. split; [reflexivity|].
  apply Hstart. reflexivity.
Defined.

Lemma directives_are_written_sorted_witness :
  Permutation [str "node"; str "jest"] [str "jest"; str "node"]
  /\ sort_strings [str "node"; str "jest"] = sort_strings [str "jest"; str "node"]
  /\ sort_strings [str "node"; str "jest"] = [str "jest"; str "node"].
Proof.
  destruct (@directives_are_written_sorted (list jstring)) as (_ & Horder & _).
  assert (P : Permutation [str "node"; str "jest"] [str "jest"; str "node"]).
  { apply perm_swap. }
  split; [exact P|]. split; [apply Horder; exact P | reflexivity].
Defined.

Lemma modifySpan_skips_excluded_declaration_witness :
  hasPrivateModifier demo_private_declaration = true
  /\ _modifySpan (demo_collector [] [] []) (demo_Foo false) 7 1
       (Some SyntaxList) None (new_Span demo_text demo_bar)
       demo_private_declaration false []
     = Returns (skipAll (new_Span demo_text demo_bar), None) []
  /\ getModifiedText (skipAll (new_Span demo_text demo_bar)) = [].
Proof.
  destruct (modifySpan_skips_excluded_declaration (demo_collector [] [] [])
              (demo_Foo false) 0 (Some SyntaxList) None (new_Span demo_text demo_bar)
              demo_private_declaration false [])
    as (_ & Hprivate & _ & Htext & _).
  split; [reflexivity|]. split; [apply Hprivate; reflexivity | exact Htext].
Defined.

Lemma modifySpan_drops_comments_and_modifiers_witness :
  _shouldIncludeInReport (demo_collector [] [] []) demo_Foo_declaration
    ApiReportReleaseLevel.Public = Ok true
  /\ _modifySpan (demo_collector [] [] []) (demo_Foo false)
       ApiReportReleaseLevel.Public 1 (Some ClassDeclaration) None
       (new_Span_at (str "/** A */ class") (mkNode JSDocComment 0 8 []) 9)
       demo_Foo_declaration false []
     = Returns
         (skipAll (new_Span_at (str "/** A */ class") (mkNode JSDocComment 0 8 []) 9),
          None) []
  /\ _modifySpan (demo_collector [] [] []) (demo_Foo false)
       ApiReportReleaseLevel.Public 1 (Some SyntaxList) None
       (new_Span_at demo_text (mkNode DeclareKeyword 0 7 []) 8)
       demo_Foo_declaration false []
     = Returns
         (skipAll (new_Span_at demo_text (mkNode DeclareKeyword 0 7 []) 8), None) [].
Proof.
  assert (Included : _shouldIncludeInReport (demo_collector [] [] [])
                       demo_Foo_declaration ApiReportReleaseLevel.Public = Ok true).
  { reflexivity. }
  split; [exact Included|]. split.
  - destruct (modifySpan_drops_comments_and_modifiers (demo_collector [] [] [])
                (demo_Foo false) ApiReportReleaseLevel.Public 0 (Some ClassDeclaration)
                None
                (new_Span_at (str "/** A */ class") (mkNode JSDocComment 0 8 []) 9)
                demo_Foo_declaration false [] Included) as [Hcomment _].
    apply Hcomment. reflexivity.
  - destruct (modifySpan_drops_comments_and_modifiers (demo_collector [] [] [])
                (demo_Foo false) ApiReportReleaseLevel.Public 0 (Some SyntaxList)
                None (new_Span_at demo_text (mkNode DeclareKeyword 0 7 []) 8)
                demo_Foo_declaration false [] Included) as [_ Hkeyword].
    apply Hkeyword; [right; right; reflexivity | reflexivity].
Defined.

Lemma modifySpan_reinstates_export_witness :
  _shouldIncludeInReport (demo_collector [] [] []) demo_Foo_declaration
    ApiReportReleaseLevel.Public = Ok true
  /\ (exists p',
        _modifySpan (demo_collector [] [] []) (demo_Foo true)
          ApiReportReleaseLevel.Public 1 (Some ClassDeclaration)
          (Some (new_Span_at demo_text
                   (mkNode SyntaxList 0 7 [mkNode DeclareKeyword 0 7 []]) 8))
          (new_Span_at demo_text (mkNode ClassKeyword 8 13 []) 14)
          demo_Foo_declaration false []
        = Returns (new_Span_at demo_text (mkNode ClassKeyword 8 13 []) 14, Some p') []
        /\ getModifiedText p' = str "export declare")
  /\ (exists span',
        _modifySpan (demo_collector [] [] []) (demo_Foo true)
          ApiReportReleaseLevel.Public 1 (Some ClassDeclaration) None
          (new_Span_at demo_text (mkNode ClassKeyword 8 13 []) 14)
          demo_Foo_declaration false []
        = Returns (span', None) []
        /\ getModifiedText span' = str "export class").
Proof.
  assert (Included : _shouldIncludeInReport (demo_collector [] [] [])
                       demo_Foo_declaration ApiReportReleaseLevel.Public = Ok true).
  { reflexivity. }
  split; [exact Included|]. split.
  - destruct (modifySpan_reinstates_export (demo_collector [] [] []) (demo_Foo true)
                ApiReportReleaseLevel.Public 0 (Some ClassDeclaration)
                (Some (new_Span_at demo_text
                         (mkNode SyntaxList 0 7 [mkNode DeclareKeyword 0 7 []]) 8))
                (new_Span_at demo_text (mkNode ClassKeyword 8 13 []) 14)
                demo_Foo_declaration false [] Included)
      as [Hlist _]; [right; left; reflexivity | reflexivity |].
    destruct (Hlist _ eq_refl eq_refl) as (p' & Run & Text & _).
    exists p'. split; [exact Run|]. rewrite Text. reflexivity.
  - destruct (modifySpan_reinstates_export (demo_collector [] [] []) (demo_Foo true)
                ApiReportReleaseLevel.Public 0 (Some ClassDeclaration) None
                (new_Span_at demo_text (mkNode ClassKeyword 8 13 []) 14)
                demo_Foo_declaration false [] Included)
      as [_ Hkeyword]; [right; left; reflexivity | reflexivity |].
    destruct Hkeyword as (span' & Run & Text & _); [intros p Q; discriminate Q|].
    exists span'. split; [exact Run|]. rewrite Text. reflexivity.
Defined.

Lemma modifySpan_internal_errors_witness :
  _shouldIncludeInReport (demo_collector [] [] []) demo_Foo_declaration
    ApiReportReleaseLevel.Public = Ok true
  /\ _modifySpan (demo_collector [] [] []) (demo_Foo false)
       ApiReportReleaseLevel.Public 10 None None
       (new_Span demo_variable_text demo_variable) demo_Foo_declaration false []
     = Throws (InternalError (str "Unsupported variable declaration"))
  /\ _modifySpan demo_nameless_collector (demo_Foo false)
       ApiReportReleaseLevel.Public 10 (Some TypeReference) None
       (new_Span_at demo_text demo_Baz_node 28) demo_Foo_declaration false []
     = Throws (InternalError (str "referencedEntry.nameForEmit is undefined")).
Proof.
  assert (Included : _shouldIncludeInReport (demo_collector [] [] [])
                       demo_Foo_declaration ApiReportReleaseLevel.Public = Ok true).
  { reflexivity. }
  assert (Included' : _shouldIncludeInReport demo_nameless_collector
                        demo_Foo_declaration ApiReportReleaseLevel.Public = Ok true).
  { reflexivity. }
  split; [exact Included|]. split.
  - destruct (modifySpan_internal_errors (demo_collector [] [] []) (demo_Foo false)
                ApiReportReleaseLevel.Public 9 None None
                (new_Span demo_variable_text demo_variable) demo_Foo_declaration
                false [] Included) as [Hvariable _].
    apply Hvariable; reflexivity.
  - destruct (modifySpan_internal_errors demo_nameless_collector (demo_Foo false)
                ApiReportReleaseLevel.Public 9 (Some TypeReference) None
                (new_Span_at demo_text demo_Baz_node 28) demo_Foo_declaration
                false [] Included') as [_ Hidentifier].
    apply (Hidentifier demo_nameless); [reflexivity | reflexivity |].
    left. reflexivity.
Defined.
Lemma modifySpan_variable_declaration_witness :
  exists (span' : Span) (r' : list jstring),
    @_modifySpan demo_variable_analyzer demo_tags demo_emitter _
      (demo_collector [] [] []) (demo_Foo true) ApiReportReleaseLevel.Public 10
      None None (new_Span demo_variable_text demo_variable)
      demo_Foo_declaration false []
    = Returns (span', None) r'
    /\ modification_prefix span' = str "export const "
    /\ modification_suffix span' = str ";"
    /\ getModifiedText span' = str "export const x = 1;".
Proof.
  assert (Run : exists span' r',
            @_modifySpan demo_variable_analyzer demo_tags demo_emitter _
              (demo_collector [] [] []) (demo_Foo true) ApiReportReleaseLevel.Public
              10 None None (new_Span demo_variable_text demo_variable)
              demo_Foo_declaration false []
            = Returns (span', None) r'
            /\ getModifiedText span' = str "export const x = 1;").
  { eexists. eexists. split; vm_compute; reflexivity. }
  destruct Run as (span' & r' & Run & Text).
  exists span', r'. split; [exact Run|].
  destruct (@modifySpan_variable_declaration demo_variable_analyzer demo_tags
              demo_emitter _ (demo_collector [] [] []) (demo_Foo true)
              ApiReportReleaseLevel.Public 9 None None
              (new_Span demo_variable_text demo_variable) demo_Foo_declaration
              false [] span' None r' eq_refl eq_refl Run)
    as (_ & text & listStart & firstStart & Hlist & Hprefix & Hsuffix).
  injection Hlist as <- <- <-.
  split; [rewrite Hprefix; reflexivity|]. split; [exact Hsuffix | exact Text].
Defined.

Lemma modifySpan_changes_overlays_only_witness :
  (height (new_Span demo_text demo_class) <= 10)%nat
  /\ noImportType (new_Span demo_text demo_class) = true
  /\ ((exists e,
         _modifySpan (demo_collector [] [] []) (demo_Foo true)
           ApiReportReleaseLevel.Public 10 None None
           (new_Span demo_text demo_class) demo_Foo_declaration false []
         = Throws e)
      \/ (exists span' previous' r',
            _modifySpan (demo_collector [] [] []) (demo_Foo true)
              ApiReportReleaseLevel.Public 10 None None
              (new_Span demo_text demo_class) demo_Foo_declaration false []
            = Returns (span', previous') r'
            /\ erase span' = erase (new_Span demo_text demo_class)
            /\ option_map erase previous' = option_map erase None)).
Proof.
  assert (Height : (height (new_Span demo_text demo_class) <= 10)%nat).
  { vm_compute. lia. }
  split; [exact Height|]. split; [reflexivity|].
  apply (modifySpan_changes_overlays_only (demo_collector [] [] []) (demo_Foo true)
           ApiReportReleaseLevel.Public 10 None None (new_Span demo_text demo_class)
           demo_Foo_declaration false [] Height).
  reflexivity.
Defined.

Lemma modifySpan_type_literal_is_silent_witness :
  noImportType (new_Span demo_text demo_bar) = true
  /\ exists result r',
       _modifySpan (demo_collector [] [] []) (demo_Foo true)
         ApiReportReleaseLevel.Beta 10 (Some SyntaxList) None
         (new_Span demo_text demo_bar) demo_bar_declaration true
         [str "an issue"]
       = Returns result r'
       /\ r' = [str "an issue"].
Proof.
  split; [reflexivity|].
  assert (Run : exists result r',
            _modifySpan (demo_collector [] [] []) (demo_Foo true)
              ApiReportReleaseLevel.Beta 10 (Some SyntaxList) None
              (new_Span demo_text demo_bar) demo_bar_declaration true
              [str "an issue"]
            = Returns result r').
  { eexists. eexists. vm_compute. reflexivity. }
  destruct Run as (result & r' & Run).
  exists result, r'. split; [exact Run|].
  apply (modifySpan_type_literal_is_silent (demo_collector [] [] []) (demo_Foo true)
           ApiReportReleaseLevel.Beta 10 (Some SyntaxList) None
           (new_Span demo_text demo_bar) demo_bar_declaration true
           [str "an issue"] result r');
    [reflexivity | left; reflexivity | exact Run].
Defined.

Lemma modifySpan_assigns_sort_keys_witness :
  _shouldIncludeInReport (demo_collector [] [] []) demo_Foo_declaration
    ApiReportReleaseLevel.Beta = Ok true
  /\ sortsChildren (Some ClassDeclaration) demo_members = true
  /\ exists span' r',
       _modifySpan (demo_collector [] [] []) (demo_Foo true)
         ApiReportReleaseLevel.Beta 10 (Some ClassDeclaration) None
         demo_members demo_Foo_declaration false []
       = Returns (span', None) r'
       /\ List.map (fun child => sortKey (modification child)) (span_children span')
          = [Some (str "bar")]
       /\ sortChildren (modification span') = true.
Proof.
  assert (Included : _shouldIncludeInReport (demo_collector [] [] [])
                       demo_Foo_declaration ApiReportReleaseLevel.Beta = Ok true).
  { reflexivity. }
  split; [exact Included|]. split; [reflexivity|].
  assert (Run : exists span' r',
            _modifySpan (demo_collector [] [] []) (demo_Foo true)
              ApiReportReleaseLevel.Beta 10 (Some ClassDeclaration) None
              demo_members demo_Foo_declaration false []
            = Returns (span', None) r').
  { eexists. eexists. vm_compute. reflexivity. }
  destruct Run as (span' & r' & Run).
  exists span', r'. split; [exact Run|].
  destruct (modifySpan_assigns_sort_keys (demo_collector [] [] []) (demo_Foo true)
              ApiReportReleaseLevel.Beta 9 (Some ClassDeclaration) None demo_members
              demo_Foo_declaration false [] span' None r' Included)
    as (Hkeys & Hflag & _).
  - discriminate.
  - repeat constructor; discriminate.
  - exact Run.
  - split; [rewrite Hkeys | rewrite Hflag]; reflexivity.
Defined.

Lemma modifySpanForPreapproved_idempotent_witness :
  forallb (fun c => negb (isIdentifier c))
    (span_children (new_Span demo_text (mkNode ClassDeclaration 0 13
                      [ mkNode SyntaxList 0 7 [mkNode DeclareKeyword 0 7 []];
                        mkNode ClassKeyword 8 13 [] ]))) = true
  /\ getModifiedText
       (_modifySpanForPreapproved
          (new_Span demo_text (mkNode ClassDeclaration 0 13
             [ mkNode SyntaxList 0 7 [mkNode DeclareKeyword 0 7 []];
               mkNode ClassKeyword 8 13 [] ])))
     = str "class"
  /\ _modifySpanForPreapproved
       (_modifySpanForPreapproved (new_Span demo_text demo_class))
     = _modifySpanForPreapproved (new_Span demo_text demo_class).
Proof.
  split; [reflexivity|]. split.
  - destruct (modifySpanForPreapproved_idempotent
                (new_Span demo_text (mkNode ClassDeclaration 0 13
                   [ mkNode SyntaxList 0 7 [mkNode DeclareKeyword 0 7 []];
                     mkNode ClassKeyword 8 13 [] ]))) as (_ & _ & Hplain).
    rewrite getModifiedText_eq. unfold textBeforeSuffix.
    rewrite (Hplain eq_refl). reflexivity.
  - apply (modifySpanForPreapproved_idempotent (new_Span demo_text demo_class)).
Defined.

Lemma report_export_statements_witness :
  assembleReport (demo_collector [demo_Baz; demo_Foo false] [demo_warning] [])
    (demo_options ApiReportReleaseLevel.Public) 10 []
  = Returns demo_writer_exported []
  /\ NoDup (exportNames (demo_Foo false))
  /\ namedExports demo_writer_exported = [(str "Foo", demo_Foo false)].
Proof.
  assert (Run : assembleReport
                  (demo_collector [demo_Baz; demo_Foo false] [demo_warning] [])
                  (demo_options ApiReportReleaseLevel.Public) 10 []
                = Returns demo_writer_exported []).
  { vm_compute. reflexivity. }
  assert (Distinct : NoDup (exportNames (demo_Foo false))).
  { repeat constructor. intros []. }
  split; [exact Run|]. split; [exact Distinct|].
  destruct (report_export_statements _ _ _ _ _ _ Run) as [Hexports Hnames].
  rewrite Hexports. cbn [entities demo_collector flat_map].
  rewrite (Hnames (demo_Foo false) Distinct). reflexivity.
Defined.

Lemma report_layout_witness :
  assembleReport (demo_collector [demo_Baz; demo_Foo false] [demo_warning] [])
    (demo_options ApiReportReleaseLevel.Public) 10 []
  = Returns demo_writer_exported []
  /\ exists body footer,
       demo_writer_exported
       = writeHeader (demo_collector [demo_Baz; demo_Foo false] [demo_warning] [])
         ++ [W_emitImport demo_Baz (str "baz-lib")]
         ++ [W_ensureSkippedLine]
         ++ body
         ++ [W_emitStarExports]
         ++ footer
         ++ [W_ensureSkippedLine; W_writeLine (str "```")]
       /\ Forall isTextOrExport body
       /\ Forall isTextCall footer.
Proof.
  assert (Run : assembleReport
                  (demo_collector [demo_Baz; demo_Foo false] [demo_warning] [])
                  (demo_options ApiReportReleaseLevel.Public) 10 []
                = Returns demo_writer_exported []).
  { vm_compute. reflexivity. }
  split; [exact Run|].
  destruct (report_layout _ _ _ _ _ _ Run) as (body & footer & E & _ & B & F).
  exists body, footer. split; [exact E|]. split; assumption.
Defined.

Lemma unrecognized_release_level_aborts_the_report_witness :
  isNumber 7 = true
  /\ isReleaseLevelNumber 7 = false
  /\ generateReviewFileContent (demo_collector [demo_Baz; demo_Foo true] [] [])
       (demo_options 7) 1 []
     = Throws (Error (str "Unrecognized release level: 7"))
  /\ isNumber (10 ^ 21) = true
  /\ isReleaseLevelNumber (10 ^ 21) = false
  /\ generateReviewFileContent (demo_collector [demo_Baz; demo_Foo true] [] [])
       (demo_options (10 ^ 21)) 1 []
     = Throws (Error (str "Unrecognized release level: 1e+21")).
Proof.
  split; [reflexivity|]. split; [reflexivity|].
  split.
  - rewrite (unrecognized_release_level_aborts_the_report
               (demo_collector [demo_Baz; demo_Foo true] [] []) (demo_options 7) 0 []
               [demo_Baz] [] (demo_Foo true) (str "Foo") demo_Foo_declaration []
               (writeImports (demo_collector [demo_Baz; demo_Foo true] [] [])
                  (writeHeader (demo_collector [demo_Baz; demo_Foo true] [] [])))
               []) by reflexivity.
    vm_compute. reflexivity.
  - split; [vm_compute; reflexivity|]. split; [reflexivity|].
    rewrite (unrecognized_release_level_aborts_the_report
               (demo_collector [demo_Baz; demo_Foo true] [] [])
               (demo_options (10 ^ 21)) 0 []
               [demo_Baz] [] (demo_Foo true) (str "Foo") demo_Foo_declaration []
               (writeImports (demo_collector [demo_Baz; demo_Foo true] [] [])
                  (writeHeader (demo_collector [demo_Baz; demo_Foo true] [] [])))
               []) by (vm_compute; reflexivity).
    vm_compute. reflexivity.
Defined.

Lemma namespace_import_block_witness :
  emitNamespaceImport demo_namespace_collector (demo_namespace true)
    demo_namespace_import [] []
  = Returns
      [ W_ensureSkippedLine;
        W_writeLine (str "declare namespace ns {");
        W_increaseIndent;
        W_writeLine (str "export {");
        W_increaseIndent;
        W_writeLine (str "Foo," ++ [LF] ++ str "Foo as Bar");
        W_decreaseIndent;
        W_writeLine (str "}");
        W_decreaseIndent;
        W_writeLine (str "}") ] []
  /\ emitNamespaceImport demo_namespace_collector (demo_namespace true)
       demo_broken_namespace_import [] []
     = Throws (InternalError (str "Cannot find collector entity for ns.Missing")).
Proof.
  split.
  - destruct (namespace_import_block demo_namespace_collector (demo_namespace true)
                demo_namespace_import [] [] (str "ns") eq_refl eq_refl)
      as [Hblock _].
    rewrite Hblock; [reflexivity|].
    intros entry [<- | [<- | []]]; discriminate.
  - destruct (namespace_import_block demo_namespace_collector (demo_namespace true)
                demo_broken_namespace_import [] [] (str "ns") eq_refl eq_refl)
      as [_ Hmissing].
    apply (Hmissing [(str "Foo", AstSymbol (str "Foo") [demo_Foo_declaration])]
             (str "Gone") (AstImport (str "missing-lib") (str "Missing")) []);
      [reflexivity | | reflexivity].
    intros entry [<- | []]. discriminate.
Defined.

Lemma excluded_declaration_keeps_its_synopsis_witness :
  isPreapproved (fetchApiItemMetadata (demo_collector [] [] []) demo_bar_declaration)
  = false
  /\ _shouldIncludeInReport (demo_collector [] [] []) demo_bar_declaration
       ApiReportReleaseLevel.Public = Ok false
  /\ emitDeclaration (demo_collector [] [] [])
       (demo_options ApiReportReleaseLevel.Public) 1 (demo_Foo true) ([], [])
       demo_bar_declaration []
     = Returns
         ([], [ W_ensureSkippedLine; W_write (str "// @beta" ++ [LF]); W_write [];
                W_ensureNewLine ]) [].
Proof.
  assert (Plain : isPreapproved
                    (fetchApiItemMetadata (demo_collector [] [] [])
                       demo_bar_declaration) = false).
  { reflexivity. }
  assert (Excluded : _shouldIncludeInReport (demo_collector [] [] [])
                       demo_bar_declaration
                       (releaseLevel (demo_options ApiReportReleaseLevel.Public))
                     = Ok false).
  { reflexivity. }
  split; [exact Plain|]. split; [exact Excluded|].
  destruct (excluded_declaration_keeps_its_synopsis (demo_collector [] [] [])
              (demo_options ApiReportReleaseLevel.Public) 0 (demo_Foo true) [] []
              demo_bar_declaration [] Plain Excluded)
    as (synopsis & r' & Hsynopsis & Hrun).
  vm_compute in Hsynopsis. injection Hsynopsis as <- <-. exact Hrun.
Defined.
Lemma writeLineAsComments_writes_every_line_witness :
  exists lines : list jstring,
    _writeLineAsComments [] (str "one" ++ [CR; LF] ++ str "two")
    = flat_map
        (fun realLine => [W_write (str "// "); W_write realLine; W_writeLine []])
        lines
    /\ join [LF] lines = str "one" ++ [LF] ++ str "two".
Proof.
  destruct (writeLineAsComments_writes_every_line []
              (str "one" ++ [CR; LF] ++ str "two")) as (lines & Hcalls & _ & Hjoin & _).
  exists lines. split; [exact Hcalls | exact Hjoin].
Defined.

Lemma peelMessage_conserves_messages_witness :
  snd (fold_left peelMessage
         [demo_warning; demo_message "ae-demo: about the class" None]
         (collectExportsToEmit (demo_Foo false), []))
  = [demo_message "ae-demo: about the class" None]
  /\ pendingMessages
       (fst (fold_left peelMessage
               [demo_warning; demo_message "ae-demo: about the class" None]
               (collectExportsToEmit (demo_Foo false), [])))
     = [demo_warning]
  /\ Permutation
       (snd (fold_left peelMessage
               [demo_warning; demo_message "ae-demo: about the class" None]
               (collectExportsToEmit (demo_Foo false), []))
        ++ pendingMessages
             (fst (fold_left peelMessage
                     [demo_warning; demo_message "ae-demo: about the class" None]
                     (collectExportsToEmit (demo_Foo false), []))))
       [demo_warning; demo_message "ae-demo: about the class" None].
Proof.
  destruct (peelMessage_conserves_messages
              [demo_warning; demo_message "ae-demo: about the class" None]
              (collectExportsToEmit (demo_Foo false))) as (Hall & Hreported & _).
  split; [exact Hreported|]. split; [reflexivity|].
  apply (Permutation_trans Hall). cbn [pendingMessages]. rewrite app_nil_r.
  apply Permutation_refl.
Defined.

Lemma modifySpan_writes_member_synopsis_witness :
  _shouldIncludeInReport (demo_collector [] [] []) demo_Foo_declaration
    ApiReportReleaseLevel.Beta = Ok true
  /\ span_kind demo_members = SyntaxList
  /\ includedMember (demo_collector [] [] []) ApiReportReleaseLevel.Beta
       demo_Foo_declaration (new_Span_at demo_text demo_bar 29)
     = Some demo_bar_declaration
  /\ exists span' r',
       _modifySpan (demo_collector [] [] []) (demo_Foo true)
         ApiReportReleaseLevel.Beta 10 (Some ClassDeclaration) None
         demo_members demo_Foo_declaration false []
       = Returns (span', None) r'
       /\ List.map modification_prefix (span_children span')
          = [str "// @beta" ++ [LF]]
       /\ Forall2
            (fun child child' =>
               forall d,
                 includedMember (demo_collector [] [] []) ApiReportReleaseLevel.Beta
                   demo_Foo_declaration child = Some d ->
                 keepsItsPrefix (span_kind child) = true ->
                 span_kind child' = span_kind child
                 /\ exists r0 synopsis r1,
                      _getAedocSynopsis (demo_collector [] [] []) d
                        (fst (fetchAssociatedMessagesForReviewFile
                                (demo_collector [] [] []) d r0))
                        (snd (fetchAssociatedMessagesForReviewFile
                                (demo_collector [] [] []) d r0))
                      = Returns synopsis r1
                      /\ modification_prefix child'
                         = synopsis ++ modification_prefix child)
            (span_children demo_members) (span_children span').
Proof.
  assert (Included : _shouldIncludeInReport (demo_collector [] [] [])
                       demo_Foo_declaration ApiReportReleaseLevel.Beta = Ok true).
  { reflexivity. }
  assert (Kind : span_kind demo_members = SyntaxList) by reflexivity.
  split; [exact Included|]. split; [exact Kind|]. split; [reflexivity|].
  assert (Run : exists span' r',
            _modifySpan (demo_collector [] [] []) (demo_Foo true)
              ApiReportReleaseLevel.Beta 10 (Some ClassDeclaration) None
              demo_members demo_Foo_declaration false []
            = Returns (span', None) r'
            /\ List.map modification_prefix (span_children span')
               = [str "// @beta" ++ [LF]]).
  { eexists. eexists. split; vm_compute; reflexivity. }
  destruct Run as (span' & r' & Run & Text).
  exists span', r'. split; [exact Run|]. split; [exact Text|].
  exact (modifySpan_writes_member_synopsis (demo_collector [] [] []) (demo_Foo true)
           ApiReportReleaseLevel.Beta 9 (Some ClassDeclaration) None demo_members
           demo_Foo_declaration [] span' None r' Included Kind Run).
Defined.
